(** * jwt-cpp (mbedtls port): a shallow embedding of [include/jwt-cpp/jwt.h]

    The header implements JSON Web Tokens in compact serialization: the
    claim model, the token decoder, the signing algorithms, the builder and
    the verifier.  Every C++ function that the properties below talk about is
    transcribed as a Rocq function of the same name (prefixed with its class
    where two classes share a method name); exceptions become the [Err]
    branch of a result type, and the collaborators whose code lives in other
    headers (picojson.h, base.h, mbedtls, <chrono>) are interfaces. *)

From Stdlib Require Import ZArith String Ascii SpecFloat DecimalString Lia.
From stdpp Require Import base option gmap strings list fin_maps sorting.

#[local] Open Scope Z_scope.
#[local] Set Warnings "-register-all,-clear-no-such-hyp".
#[local] Arguments String.append !_ _ / : simpl nomatch.

(** ** Exceptions

    One constructor per exception class thrown in jwt.h; [what] is the
    message handed to [std::runtime_error] and friends. *)

Inductive exception : Type :=
| invalid_argument (what : string)
| runtime_error (what : string)
| bad_cast
| signature_verification_exception (what : string)
| signature_generation_exception (what : string)
| token_verification_exception (what : string).

Inductive result (A : Type) : Type :=
| Ok (a : A)
| Err (e : exception).
Arguments Ok {A} a.
Arguments Err {A} e.

#[global] Instance result_ret : MRet result := fun A a => Ok a.
#[global] Instance result_bind : MBind result :=
  fun A B f m => match m with Ok a => f a | Err e => Err e end.

Definition throw {A : Type} (e : exception) : result A := Err e.

(** [signature_verification_exception()] and its default message. *)
Definition signature_verification_failed : exception :=
  signature_verification_exception "signature verification failed".

(** [signature_generation_exception()] and its default message. *)
Definition signature_generation_failed : exception :=
  signature_generation_exception "signature generation failed".

(** [token_verification_exception(msg)] prefixes its argument. *)
Definition token_verification (msg : string) : exception :=
  token_verification_exception ("token verification failed: " +:+ msg).

(** The two failures of [verifier::verify] that the properties name. *)
Definition expired : exception := token_verification "token expired".
Definition audience_missing : exception :=
  token_verification "token doesn't contain the required audience".

(** Errors of the typed accessors: [std::bad_cast], or the
    [std::runtime_error] of a missing claim. *)
Definition access_error (e : exception) : Prop :=
  e = bad_cast ∨ ∃ msg, e = runtime_error msg.

(** ** [std::string]

    A [std::string] is a [string] of bytes.  [find] returns [None] for
    [npos]; [substr] takes [None] for the defaulted count [npos].  Every call
    of [substr] in jwt.h has [pos <= size()], so [std::out_of_range] never
    arises and [substr] is modelled as a total function. *)

Definition size (s : string) : nat := String.length s.

Definition find (s needle : string) (pos : nat) : option nat :=
  String.index pos needle s.

Definition substr (s : string) (pos : nat) (count : option nat) : string :=
  match count with
  | Some n => String.substring pos n s
  | None => String.substring pos (size s - pos) s
  end.

(** [s[i]] as a byte value; the byte at [size()] is the terminating NUL. *)
Definition at_byte (s : string) (i : nat) : Z :=
  match String.get i s with
  | Some c => Z.of_N (N_of_ascii c)
  | None => 0
  end.

Fixpoint repeat_string (n : nat) (s : string) : string :=
  match n with
  | O => ""
  | S n' => s +:+ repeat_string n' s
  end.

(** Number of occurrences of a byte in a string. *)
Fixpoint count_char (c : ascii) (s : string) : nat :=
  match s with
  | EmptyString => O
  | String a s' => ((if Ascii.eqb a c then 1 else 0) + count_char c s')%nat
  end.

(** ** Integer conversions (LP64: [size_t] is unsigned 64-bit, [time_t] and
    [int64_t] are signed 64-bit) *)

Definition to_size_t (z : Z) : Z := z mod 2 ^ 64.
Definition to_int64 (z : Z) : Z := (z + 2 ^ 63) mod 2 ^ 64 - 2 ^ 63.

(** The values a signed 64-bit integer holds. *)
Definition int64_range (z : Z) : Prop := - 2 ^ 63 ≤ z < 2 ^ 63.

(** ** [myrand]

    The entropy callback handed to [mbedtls_hmac_drbg_seed].  [rand()] is
    the C library's generator: [rand_values k] is the value of its [k]-th
    call, and the state threaded through [myrand] is the number of calls
    made so far.  [object_bytes z] is the object representation of the
    [int] [z], whose byte order the platform fixes; [sizeof_int] is
    [sizeof(int)] under LP64.  [memcpy(output, &rnd, use_len)] appends the
    first [use_len] bytes of that representation to the output written so
    far. *)

Class CRand := {
  rand_values : nat → Z;
  object_bytes : Z → string
}.

Definition sizeof_int : nat := 4.

Section myrand.
Context `{!CRand}.

(** The [while (len > 0)] loop; [n] bounds the number of iterations and
    the loop variables are returned with the number of [rand()] calls. *)
Fixpoint myrand_loop (n : nat) (calls : nat) (output : string) (len : nat)
  : nat * string * nat :=
  match n with
  | O => (calls, output, len)
  | S n' =>
      if (0 <? len)%nat then
        let use_len := len in
        let use_len := if (sizeof_int <? use_len)%nat then sizeof_int else use_len in
        let rnd := rand_values calls in
        myrand_loop n' (S calls) (output +:+ substr (object_bytes rnd) 0 (Some use_len))
          (len - use_len)
      else (calls, output, len)
  end.

(** [myrand(rng_state, output, len)]: the status code, the bytes written
    to [output], and the number of [rand()] calls afterwards.  Every
    iteration takes at least one byte off [len], so [len] iterations are
    enough. *)
Definition myrand (calls : nat) (len : nat) : Z * string * nat :=
  let '(calls', output, _) := myrand_loop len calls "" len in
  (0, output, calls').
End myrand.

(** ** [std::chrono::system_clock]

    A [time_point] is the count of clock ticks since the epoch, held in the
    signed 64-bit [rep] of [system_clock::duration].  The tick length is
    implementation-defined: [period] is the number of ticks in one second
    (10^9 for libstdc++).  Converting seconds to ticks multiplies by
    [period], and adding a duration to a time point adds the two counts,
    both in 64-bit arithmetic: the result is written here with its
    two's-complement wrap-around [to_int64].  (Overflow of a signed integer
    is undefined in C++; the wrap-around is what a two's-complement build
    computes.  A statement that needs the mathematical value says that it
    is in [int64_range], where the wrap-around is the identity.) *)

Class SystemClock := { period : Z }.

Section chrono.
Context `{!SystemClock}.

Definition time_point : Type := Z.

Definition date : Type := time_point.

(** [std::chrono::seconds(n)] converted to [system_clock::duration]. *)
Definition seconds (n : Z) : Z := to_int64 (n * period).

Definition from_time_t (t : Z) : date := to_int64 (t * period).

(** [duration_cast] to seconds truncates toward zero. *)
Definition to_time_t (d : date) : Z := d ÷ period.

(** [time_point + duration] and [time_point - duration]. *)
Definition time_point_plus (t : time_point) (d : Z) : time_point := to_int64 (t + d).
Definition time_point_minus (t : time_point) (d : Z) : time_point := to_int64 (t - d).

(** The tick counts met when a time claim of [e] seconds is compared under
    a leeway of [l] seconds are all exact: the leeway, and the claim moved
    by the leeway in either direction. *)
Definition ticks_fit (e l : Z) : Prop :=
  0 ≤ l ∧ int64_range (l * period)
  ∧ int64_range ((e + l) * period) ∧ int64_range ((e - l) * period).
End chrono.

(** ** picojson values (built with [PICOJSON_USE_INT64]) *)

Inductive value : Type :=
| Null
| Boolean (b : bool)
| Int64 (i : Z)
| Number (d : spec_float)
| Str (s : string)
| Array (a : list value)
| Object (o : gmap string value).

(** Modelled from the spec: picojson.h is not among the sources.  The
    accessor [value::get<picojson::object>()] hands out the members of a
    JSON object; the spec's invariant is that a header or payload which is
    not a JSON object is a decode failure ([std::runtime_error]), which is
    what picojson's type assertion raises on any other variant. *)
Definition get_object (v : value) : result (gmap string value) :=
  match v with
  | Object o => Ok o
  | _ => throw (runtime_error "type mismatch! call is<type>() before get<type>()")
  end.

(** The JSON codec itself: [picojson::parse(val, str)] fills [val] and
    returns an error text that is empty on success. *)
Class PicoJson := {
  picojson_parse : string → value * string;
  serialize : value → string
}.

(** Modelled from the spec: base.h is not among the sources.  It provides
    the base64url alphabet with its fill text and the codec
    [base::encode<alphabet::base64url>] / [base::decode<...>]; decoding
    raises [std::runtime_error] on input outside the alphabet. *)
Class Base64Url := {
  fill : string;
  base_encode : string → string;
  base_decode : string → result string
}.

(** ** [class claim]: a wrapper around a JSON value *)

Record claim : Type := Claim { to_json : value }.

Inductive claim_type : Type :=
| type_null
| type_boolean
| type_number
| type_string
| type_array
| type_object
| type_int64.

#[global] Instance claim_type_eq_dec : EqDecision claim_type.
Proof. solve_decision. Defined.

(** [std::set<std::string>] is a [gset string]; iterating it visits the
    elements in increasing byte-wise order. *)
Definition set_iteration (s : gset string) : list string :=
  merge_sort String.le (elements s).

Section claim.
Context `{!SystemClock}.

Definition claim_of_string (s : string) : claim := Claim (Str s).

(** [claim(const date& s) : val(int64_t(system_clock::to_time_t(s)))] *)
Definition claim_of_date (s : date) : claim :=
  Claim (Int64 (to_int64 (to_time_t s))).

(** [claim(const std::set<std::string>& s) : val(picojson::array(s.cbegin(), s.cend()))] *)
Definition claim_of_set (s : gset string) : claim :=
  Claim (Array (Str <$> set_iteration s)).

(** The [is<int64_t>] test comes before [is<double>], which picojson also
    answers with true for an int64. *)
Definition get_type (c : claim) : claim_type :=
  match to_json c with
  | Null => type_null
  | Boolean _ => type_boolean
  | Int64 _ => type_int64
  | Number _ => type_number
  | Str _ => type_string
  | Array _ => type_array
  | Object _ => type_object
  end.

Definition as_string (c : claim) : result string :=
  match to_json c with
  | Str s => Ok s
  | _ => throw bad_cast
  end.

Definition as_int (c : claim) : result Z :=
  match to_json c with
  | Int64 i => Ok i
  | _ => throw bad_cast
  end.

Definition as_date (c : claim) : result date :=
  i ← as_int c; mret (from_time_t i).

Definition as_array (c : claim) : result (list value) :=
  match to_json c with
  | Array a => Ok a
  | _ => throw bad_cast
  end.

(** The loop of [as_set]: [res] is the set built so far. *)
Fixpoint as_set_loop (a : list value) (res : gset string) : result (gset string) :=
  match a with
  | [] => Ok res
  | e :: a' =>
      match e with
      | Str s => as_set_loop a' ({[ s ]} ∪ res)
      | _ => throw bad_cast
      end
  end.

Definition as_set (c : claim) : result (gset string) :=
  a ← as_array c; as_set_loop a ∅.

End claim.

(** ** [class decoded_jwt : public header, public payload] *)

Record decoded_jwt : Type := {
  token : string;
  header : string;
  header_base64 : string;
  payload : string;
  payload_base64 : string;
  signature : string;
  signature_base64 : string;
  header_claims : gmap string claim;
  payload_claims : gmap string claim
}.

(** The text a signature covers: the two encoded segments joined by a dot. *)
Definition signing_input (jwt : decoded_jwt) : string :=
  header_base64 jwt +:+ "." +:+ payload_base64 jwt.

(** The integer value of a time claim of the token, when it has one. *)
Definition numeric_date (jwt : decoded_jwt) (name : string) : option Z :=
  match payload_claims jwt !! name with
  | Some (Claim (Int64 e)) => Some e
  | _ => None
  end.

(** A time claim is absent from the token or holds an integer. *)
Definition numeric_or_absent (jwt : decoded_jwt) (name : string) : Prop :=
  payload_claims jwt !! name = None
  ∨ ∃ e, payload_claims jwt !! name = Some (Claim (Int64 e)).

(** The three names the loop over the required claims passes over. *)
Definition time_name (name : string) : Prop :=
  name = "exp" ∨ name = "iat" ∨ name = "nbf".

Section accessors.
Context `{!SystemClock}.

Definition has_payload_claim (jwt : decoded_jwt) (name : string) : bool :=
  bool_decide (is_Some (payload_claims jwt !! name)).

Definition get_payload_claim (jwt : decoded_jwt) (name : string) : result claim :=
  if negb (has_payload_claim jwt name) then throw (runtime_error "claim not found")
  else match payload_claims jwt !! name with
       | Some c => Ok c
       | None => throw (runtime_error "claim not found")
       end.

Definition has_header_claim (jwt : decoded_jwt) (name : string) : bool :=
  bool_decide (is_Some (header_claims jwt !! name)).

Definition get_header_claim (jwt : decoded_jwt) (name : string) : result claim :=
  if negb (has_header_claim jwt name) then throw (runtime_error "claim not found")
  else match header_claims jwt !! name with
       | Some c => Ok c
       | None => throw (runtime_error "claim not found")
       end.

Definition has_audience (jwt : decoded_jwt) : bool := has_payload_claim jwt "aud".
Definition has_expires_at (jwt : decoded_jwt) : bool := has_payload_claim jwt "exp".
Definition has_not_before (jwt : decoded_jwt) : bool := has_payload_claim jwt "nbf".
Definition has_issued_at (jwt : decoded_jwt) : bool := has_payload_claim jwt "iat".

Definition get_algorithm (jwt : decoded_jwt) : result string :=
  c ← get_header_claim jwt "alg"; as_string c.

Definition get_audience (jwt : decoded_jwt) : result (gset string) :=
  aud ← get_payload_claim jwt "aud";
  if decide (get_type aud = type_string)
  then s ← as_string aud; mret ({[ s ]} : gset string)
  else as_set aud.

Definition get_expires_at (jwt : decoded_jwt) : result date :=
  c ← get_payload_claim jwt "exp"; as_date c.

Definition get_not_before (jwt : decoded_jwt) : result date :=
  c ← get_payload_claim jwt "nbf"; as_date c.

Definition get_issued_at (jwt : decoded_jwt) : result date :=
  c ← get_payload_claim jwt "iat"; as_date c.

(** The remaining accessors of [class payload] and [class header].
    [header::get_type] is [header_get_type] here, [claim::get_type] having
    the name already. *)
Definition has_issuer (jwt : decoded_jwt) : bool := has_payload_claim jwt "iss".
Definition has_subject (jwt : decoded_jwt) : bool := has_payload_claim jwt "sub".
Definition has_id (jwt : decoded_jwt) : bool := has_payload_claim jwt "jti".

Definition get_issuer (jwt : decoded_jwt) : result string :=
  c ← get_payload_claim jwt "iss"; as_string c.
Definition get_subject (jwt : decoded_jwt) : result string :=
  c ← get_payload_claim jwt "sub"; as_string c.
Definition get_id (jwt : decoded_jwt) : result string :=
  c ← get_payload_claim jwt "jti"; as_string c.

Definition has_algorithm (jwt : decoded_jwt) : bool := has_header_claim jwt "alg".
Definition has_type (jwt : decoded_jwt) : bool := has_header_claim jwt "typ".
Definition has_content_type (jwt : decoded_jwt) : bool := has_header_claim jwt "cty".
Definition has_key_id (jwt : decoded_jwt) : bool := has_header_claim jwt "kid".

Definition header_get_type (jwt : decoded_jwt) : result string :=
  c ← get_header_claim jwt "typ"; as_string c.
Definition get_content_type (jwt : decoded_jwt) : result string :=
  c ← get_header_claim jwt "cty"; as_string c.
Definition get_key_id (jwt : decoded_jwt) : result string :=
  c ← get_header_claim jwt "kid"; as_string c.
End accessors.

(** ** The constructor [decoded_jwt(const std::string& token)] and [jwt::decode] *)

Section decode.
Context `{!Base64Url} `{!PicoJson}.

(** The [fix_padding] lambda: a [switch] on [str.size() % 4] whose cases
    fall through. *)
Definition fix_padding (str : string) : string :=
  match (size str mod 4)%nat with
  | 1%nat => ((str +:+ fill) +:+ fill) +:+ fill
  | 2%nat => (str +:+ fill) +:+ fill
  | 3%nat => str +:+ fill
  | _ => str
  end.

(** The [parse_claims] lambda. *)
Definition parse_claims (str : string) : result (gmap string claim) :=
  let '(val, err) := picojson_parse str in
  if negb (String.eqb err "") then throw (runtime_error "Invalid json")
  else o ← get_object val; Ok (Claim <$> (o : gmap string value)).

Definition decode (token : string) : result decoded_jwt :=
  match find token "." 0 with
  | None => throw (invalid_argument "invalid token supplied")
  | Some hdr_end =>
      match find token "." (hdr_end + 1) with
      | None => throw (invalid_argument "invalid token supplied")
      | Some payload_end =>
          let header_base64 := substr token 0 (Some hdr_end) in
          let payload_base64 :=
            substr token (hdr_end + 1) (Some (payload_end - hdr_end - 1)%nat) in
          let signature_base64 := substr token (payload_end + 1) None in
          let header := fix_padding header_base64 in
          let payload := fix_padding payload_base64 in
          let signature := fix_padding signature_base64 in
          header ← base_decode header;
          payload ← base_decode payload;
          signature ← base_decode signature;
          header_claims ← parse_claims header;
          payload_claims ← parse_claims payload;
          mret {| token := token;
                  header := header; header_base64 := header_base64;
                  payload := payload; payload_base64 := payload_base64;
                  signature := signature; signature_base64 := signature_base64;
                  header_claims := header_claims;
                  payload_claims := payload_claims |}
      end
  end.

(** The part of the constructor that follows the three [substr] calls, as
    a function of the segments [h], [p] and [s]; it serves to state what
    [decode] computes on a token whose segments are known. *)
Definition decode_segments (token h p s : string) : result decoded_jwt :=
  header ← base_decode (fix_padding h);
  payload ← base_decode (fix_padding p);
  signature ← base_decode (fix_padding s);
  header_claims ← parse_claims header;
  payload_claims ← parse_claims payload;
  Ok {| token := token;
        header := header; header_base64 := h;
        payload := payload; payload_base64 := p;
        signature := signature; signature_base64 := s;
        header_claims := header_claims;
        payload_claims := payload_claims |}.

(** A text is a JSON object for the codec when parsing it reports no
    error and yields an object. *)
Definition parses_to_object (str : string) : Prop :=
  ∃ o, picojson_parse str = (Object o, "").
End decode.

(** ** [namespace algorithm]

    mbedtls is an external library; the primitives jwt.h calls are the
    fields of [MbedTls].  [mbedtls_md] is the one-shot digest computed by
    [generate_hash], [mbedtls_md_hmac] the keyed digest left in the result
    buffer by the [mbedtls_md_hmac_starts/update/finish] sequence.
    [mbedtls_ecdsa_sign] returns its status code and the pair (r, s) and
    advances the random generator; [mbedtls_ecdsa_verify] returns its status
    code.  An [mbedtls_mpi] is an integer. *)

Inductive mbedtls_md_type_t : Type :=
| MBEDTLS_MD_SHA256
| MBEDTLS_MD_SHA384
| MBEDTLS_MD_SHA512.

Class MbedTls := {
  mbedtls_md : mbedtls_md_type_t → string → string;
  mbedtls_md_hmac : mbedtls_md_type_t → string → string → string;
  mbedtls_ecp_group : Type;
  mbedtls_ecp_point : Type;
  mbedtls_hmac_drbg_context : Type;
  mbedtls_ecdsa_sign :
    mbedtls_ecp_group → Z → string → nat → mbedtls_hmac_drbg_context →
    Z * Z * Z * mbedtls_hmac_drbg_context;
  mbedtls_ecdsa_verify :
    mbedtls_ecp_group → string → nat → mbedtls_ecp_point → Z → Z → Z
}.

(** [mbedtls_mpi_read_binary]: the unsigned big-endian integer of a buffer. *)
Definition mbedtls_mpi_read_binary (buf : string) : Z :=
  fold_left (λ acc c, acc * 256 + Z.of_N (N_of_ascii c)) (list_ascii_of_string buf) 0.

(** The capability set every algorithm type offers to the templates
    [builder::sign] and [verifier::allow_algorithm]. *)
Class Algorithm (T : Type) := {
  name : T → string;
  sign : T → string → result string;
  verify : T → string → string → result unit
}.

(** *** [struct none] *)

Inductive none : Type := none_algorithm.

Definition none_sign (_ : none) (_ : string) : string := "".

Definition none_verify (_ : none) (_ : string) (signature : string) : result unit :=
  if negb (size signature =? 0)%nat then throw signature_verification_failed
  else Ok tt.

Definition none_name (_ : none) : string := "none".

#[global] Instance Algorithm_none : Algorithm none :=
  {| name := none_name; sign := λ a data, Ok (none_sign a data); verify := none_verify |}.

(** *** [struct hmacsha] *)

Record hmacsha : Type := {
  secret : string;
  md_type : mbedtls_md_type_t;
  alg_name : string
}.

Definition hs256 (key : string) : hmacsha :=
  {| secret := key; md_type := MBEDTLS_MD_SHA256; alg_name := "HS256" |}.
Definition hs384 (key : string) : hmacsha :=
  {| secret := key; md_type := MBEDTLS_MD_SHA384; alg_name := "HS384" |}.
Definition hs512 (key : string) : hmacsha :=
  {| secret := key; md_type := MBEDTLS_MD_SHA512; alg_name := "HS512" |}.

Section hmacsha.
Context `{!MbedTls}.

Definition generate_hash (data : string) (md : mbedtls_md_type_t) : string :=
  mbedtls_md md data.

(** [hmacsha::sign] has no [throw]: it returns the buffer as the HMAC
    calls leave it. *)
Definition hmacsha_sign (a : hmacsha) (data : string) : string :=
  mbedtls_md_hmac (md_type a) (secret a) data.

(** The comparison loop of [hmacsha::verify],
    [for (size_t i = 0; i < min(res.size(), signature.size()); i++)]:
    [n] iterations remain, [i] and [matched] are the loop variables, and
    the final values of both are returned. *)
Fixpoint hmacsha_verify_loop (n : nat) (res signature : string) (i : nat) (matched : bool)
  : nat * bool :=
  match n with
  | O => (i, matched)
  | S n' =>
      hmacsha_verify_loop n' res signature (S i)
        (if negb (at_byte res i =? at_byte signature i) then false else matched)
  end.

(** The [catch (const signature_generation_exception&)] clause guards a
    call that cannot throw. *)
Definition hmacsha_verify (a : hmacsha) (data signature : string) : result unit :=
  let res := hmacsha_sign a data in
  let '(_, matched) :=
    hmacsha_verify_loop (Nat.min (size res) (size signature)) res signature 0 true in
  let matched := if negb (size res =? size signature)%nat then false else matched in
  if negb matched then throw signature_verification_failed
  else Ok tt.

Definition hmacsha_name (a : hmacsha) : string := alg_name a.

#[global] Instance Algorithm_hmacsha : Algorithm hmacsha :=
  {| name := hmacsha_name; sign := λ a data, Ok (hmacsha_sign a data);
     verify := hmacsha_verify |}.
End hmacsha.

(** *** [struct ecdsa] *)

Section ecdsa.
Context `{!MbedTls}.

(** [mbedtls_ecdsa_context]: the group, the private scalar [d] and the
    public point [Q]. *)
Record mbedtls_ecdsa_context : Type := {
  grp : mbedtls_ecp_group;
  d : Z;
  Q : mbedtls_ecp_point
}.

Record ecdsa : Type := {
  rnd : mbedtls_hmac_drbg_context;
  ecdsa_md_type : mbedtls_md_type_t;
  ecdsa_ctx : mbedtls_ecdsa_context;
  ecdsa_alg_name : string
}.

(** The constructors [es256], [es384] and [es512]; [rnd] is the state of the
    generator that the member [random rnd] seeds. *)
Definition es256 (keypair : mbedtls_ecdsa_context) (rnd : mbedtls_hmac_drbg_context) : ecdsa :=
  {| rnd := rnd; ecdsa_md_type := MBEDTLS_MD_SHA256; ecdsa_ctx := keypair;
     ecdsa_alg_name := "ES256" |}.
Definition es384 (keypair : mbedtls_ecdsa_context) (rnd : mbedtls_hmac_drbg_context) : ecdsa :=
  {| rnd := rnd; ecdsa_md_type := MBEDTLS_MD_SHA384; ecdsa_ctx := keypair;
     ecdsa_alg_name := "ES384" |}.
Definition es512 (keypair : mbedtls_ecdsa_context) (rnd : mbedtls_hmac_drbg_context) : ecdsa :=
  {| rnd := rnd; ecdsa_md_type := MBEDTLS_MD_SHA512; ecdsa_ctx := keypair;
     ecdsa_alg_name := "ES512" |}.

(** [raw2bn(x, data, size)]: [data] is the buffer from the pointer on and
    the result is the integer stored into [*x]. *)
Definition raw2bn (data : string) (size : nat) : Z :=
  if 128 <=? at_byte data 0
  then mbedtls_mpi_read_binary (String "000" (substr data 0 (Some size)))
  else mbedtls_mpi_read_binary (substr data 0 (Some size)).

(** [ecdsa::sign].  [std::string sig;] is default-constructed and nothing
    between its declaration and the [return] assigns to it or resizes it:
    both [raw2bn] calls read from it and store into [r]. *)
Definition ecdsa_sign (a : ecdsa) (data : string) : result string * mbedtls_hmac_drbg_context :=
  let hash := generate_hash data (ecdsa_md_type a) in
  let sig := "" in
  let '(ret_write_sign, r, s, rnd') :=
    mbedtls_ecdsa_sign (grp (ecdsa_ctx a)) (d (ecdsa_ctx a)) hash (size hash * 8) (rnd a) in
  let r := raw2bn sig (size sig / 2) in
  let r := raw2bn (substr sig (size sig / 2) None) (size sig / 2) in
  (if negb (ret_write_sign =? 0) then throw signature_generation_failed
   else if ((size sig mod 2 =? 1)%nat && (at_byte sig 0 =? 0))%bool
        then Ok (substr sig 1 None)
        else Ok sig,
   rnd').

Definition ecdsa_verify (a : ecdsa) (data signature : string) : result unit :=
  let hash := generate_hash data (ecdsa_md_type a) in
  let r := raw2bn signature (size signature / 2) in
  let s := raw2bn (substr signature (size signature / 2) None) (size signature / 2) in
  let ret_read_sign :=
    mbedtls_ecdsa_verify (grp (ecdsa_ctx a)) hash (size hash * 8) (Q (ecdsa_ctx a)) r s in
  if negb (ret_read_sign =? 0)
  then throw (signature_verification_exception "Invalid signature")
  else Ok tt.

Definition ecdsa_name (a : ecdsa) : string := ecdsa_alg_name a.

(** The specification's signature format, for comparison with what
    [ecdsa_sign] returns: [spec_write_binary n x] is the big-endian
    integer [x] on [n] bytes (padded or truncated on the left), and
    [spec_raw_signature n r s] is r on [n] bytes followed by s on [n]
    bytes, less one leading zero byte when the length is odd. *)
Fixpoint spec_write_binary (n : nat) (x : Z) : string :=
  match n with
  | O => ""
  | S n' =>
      spec_write_binary n' (x / 256)
      +:+ String (ascii_of_N (Z.to_N (x mod 256))) ""
  end.

Definition spec_raw_signature (n : nat) (r s : Z) : string :=
  let sig := spec_write_binary n r +:+ spec_write_binary n s in
  if ((size sig mod 2 =? 1)%nat && (at_byte sig 0 =? 0))%bool
  then substr sig 1 None
  else sig.

#[global] Instance Algorithm_ecdsa : Algorithm ecdsa :=
  {| name := ecdsa_name; sign := λ a data, fst (ecdsa_sign a data);
     verify := ecdsa_verify |}.
End ecdsa.

(** ** [class builder] *)

Record builder : Type := {
  builder_header_claims : gmap string claim;
  builder_payload_claims : gmap string claim
}.

Definition create : builder :=
  {| builder_header_claims := ∅; builder_payload_claims := ∅ |}.

Definition set_header_claim (id : string) (c : claim) (b : builder) : builder :=
  {| builder_header_claims := <[id := c]> (builder_header_claims b);
     builder_payload_claims := builder_payload_claims b |}.

Definition set_payload_claim (id : string) (c : claim) (b : builder) : builder :=
  {| builder_header_claims := builder_header_claims b;
     builder_payload_claims := <[id := c]> (builder_payload_claims b) |}.

Section builder.
Context `{!SystemClock} `{!Base64Url} `{!PicoJson}.

Definition set_algorithm (str : string) : builder → builder :=
  set_header_claim "alg" (claim_of_string str).
Definition set_type (str : string) : builder → builder :=
  set_header_claim "typ" (claim_of_string str).
Definition set_content_type (str : string) : builder → builder :=
  set_header_claim "cty" (claim_of_string str).
Definition set_key_id (str : string) : builder → builder :=
  set_header_claim "kid" (claim_of_string str).
Definition set_issuer (str : string) : builder → builder :=
  set_payload_claim "iss" (claim_of_string str).
Definition set_subject (str : string) : builder → builder :=
  set_payload_claim "sub" (claim_of_string str).
Definition set_audience (l : gset string) : builder → builder :=
  set_payload_claim "aud" (claim_of_set l).
Definition set_expires_at (d : date) : builder → builder :=
  set_payload_claim "exp" (claim_of_date d).
Definition set_not_before (d : date) : builder → builder :=
  set_payload_claim "nbf" (claim_of_date d).
Definition set_issued_at (d : date) : builder → builder :=
  set_payload_claim "iat" (claim_of_date d).
Definition set_id (str : string) : builder → builder :=
  set_payload_claim "jti" (claim_of_string str).

(** The [encode] lambda of [builder::sign]: the encoded text up to the
    first occurrence of the fill. *)
Definition encode (data : string) : string :=
  let base := base_encode data in
  let pos := find base fill 0 in
  substr base 0 pos.

(** [builder::sign].  The two loops copy every claim of the unordered
    maps into a [picojson::object], a [std::map] with the same keys. *)
Definition builder_sign {T : Type} `{!Algorithm T} (algo : T) (b : builder) : result string :=
  let b := set_algorithm (name algo) b in
  let obj_header : gmap string value := to_json <$> builder_header_claims b in
  let obj_payload : gmap string value := to_json <$> builder_payload_claims b in
  let header := encode (serialize (Object obj_header)) in
  let payload := encode (serialize (Object obj_payload)) in
  let token := header +:+ "." +:+ payload in
  sig ← sign algo token;
  Ok (token +:+ "." +:+ encode sig).

(** Modelled from the spec: base.h is not among the sources.  What its
    base64url codec guarantees for one text: decoding the encoding gives
    the text back; the encoding has a length that is a multiple of four and
    consists of a body followed by fewer than four fills, the body holding
    neither a dot nor the fill. *)
Definition base64url_round_trip (data : string) : Prop :=
  base_decode (base_encode data) = Ok data
  ∧ (String.length (base_encode data) mod 4 = 0)%nat
  ∧ ∃ (body : string) (k : nat),
      base_encode data = body +:+ repeat_string k fill
      ∧ (k < 4)%nat
      ∧ count_char "." body = 0%nat
      ∧ ∀ i, (i < String.length body)%nat →
             String.substring i (String.length fill) (base_encode data) ≠ fill.

(** Modelled from the spec: picojson.h is not among the sources.  What its
    JSON codec guarantees for one object: parsing the serialized object
    reports no error and gives the object back. *)
Definition json_round_trip (o : gmap string value) : Prop :=
  picojson_parse (serialize (Object o)) = (Object o, "").
End builder.

(** ** [class verifier] *)

(** [struct algo_base] with its virtual [verify]; [algo<T>] forwards to the
    wrapped algorithm. *)
Record algo_base : Type := { algo_verify : string → string → result unit }.

Definition algo {T : Type} `{!Algorithm T} (a : T) : algo_base :=
  {| algo_verify := verify a |}.

Record verifier : Type := {
  claims : gmap string claim;
  default_leeway : Z;
  algs : gmap string algo_base
}.

(** A range-for over a [std::unordered_map] visits the entries in an order
    the standard leaves unspecified: [iteration m] is that sequence. *)
Class UnorderedMap := {
  iteration : gmap string claim → list (string * claim)
}.

Definition new_verifier : verifier :=
  {| claims := ∅; default_leeway := 0; algs := ∅ |}.

Definition leeway (l : Z) (v : verifier) : verifier :=
  {| claims := claims v; default_leeway := l; algs := algs v |}.

Definition with_claim (name : string) (c : claim) (v : verifier) : verifier :=
  {| claims := <[name := c]> (claims v); default_leeway := default_leeway v; algs := algs v |}.

Definition allow_algorithm {T : Type} `{!Algorithm T} (alg : T) (v : verifier) : verifier :=
  {| claims := claims v; default_leeway := default_leeway v;
     algs := <[name alg := algo alg]> (algs v) |}.

Section verifier.
Context `{!SystemClock} `{!UnorderedMap}.

(** The [size_t] argument is converted to the [time_t] parameter of
    [from_time_t]. *)
Definition expires_at_leeway (l : Z) : verifier → verifier :=
  with_claim "exp" (claim_of_date (from_time_t (to_int64 l))).
Definition not_before_leeway (l : Z) : verifier → verifier :=
  with_claim "nbf" (claim_of_date (from_time_t (to_int64 l))).
Definition issued_at_leeway (l : Z) : verifier → verifier :=
  with_claim "iat" (claim_of_date (from_time_t (to_int64 l))).
Definition with_issuer (iss : string) : verifier → verifier :=
  with_claim "iss" (claim_of_string iss).
Definition with_subject (sub : string) : verifier → verifier :=
  with_claim "sub" (claim_of_string sub).
Definition with_audience (aud : gset string) : verifier → verifier :=
  with_claim "aud" (claim_of_set aud).
Definition with_id (id : string) : verifier → verifier :=
  with_claim "jti" (claim_of_string id).

(** The [while] loop of [assert_claim_eq] over the two set iterators. *)
Fixpoint compare_sets (key : string) (it1 it2 : list string) : result unit :=
  match it1, it2 with
  | x1 :: it1', x2 :: it2' =>
      if negb (String.eqb x1 x2)
      then throw (token_verification ("claim " +:+ key +:+ " does not match expected"))
      else compare_sets key it1' it2'
  | _, _ => Ok tt
  end.

(** The [assert_claim_eq] lambda. *)
Definition assert_claim_eq (jwt : decoded_jwt) (key : string) (c : claim) : result unit :=
  if negb (has_payload_claim jwt key)
  then throw (token_verification ("decoded_jwt is missing " +:+ key +:+ " claim"))
  else
    jc ← get_payload_claim jwt key;
    if negb (bool_decide (get_type jc = get_type c))
    then throw (token_verification ("claim " +:+ key +:+ " type mismatch"))
    else if bool_decide (get_type c = type_int64) then
      d1 ← as_date c;
      d2 ← as_date jc;
      if negb (d1 =? d2)
      then throw (token_verification ("claim " +:+ key +:+ " does not match expected"))
      else Ok tt
    else if bool_decide (get_type c = type_array) then
      s1 ← as_set c;
      s2 ← as_set jc;
      if negb (stdpp.base.size s1 =? stdpp.base.size s2)%nat
      then throw (token_verification ("claim " +:+ key +:+ " does not match expected"))
      else compare_sets key (set_iteration s1) (set_iteration s2)
    else if bool_decide (get_type c = type_string) then
      s1 ← as_string c;
      s2 ← as_string jc;
      if negb (String.eqb s1 s2)
      then throw (token_verification ("claim " +:+ key +:+ " does not match expected"))
      else Ok tt
    else throw (token_verification "internal error").

(** The initialiser of [leeway] in each of the three time checks:
    [claims.count(name) == 1 ? to_time_t(claims.at(name).as_date()) : default_leeway].
    The conditional has type [size_t]. *)
Definition claimed_leeway (v : verifier) (name : string) : result Z :=
  match claims v !! name with
  | Some c => d ← as_date c; Ok (to_size_t (to_time_t d))
  | None => Ok (default_leeway v)
  end.

(** [if (jwt.has_expires_at()) { ... }] *)
Definition check_expires_at (v : verifier) (time : time_point) (jwt : decoded_jwt)
  : result unit :=
  if has_expires_at jwt then
    leeway ← claimed_leeway v "exp";
    exp ← get_expires_at jwt;
    if time >? time_point_plus exp (seconds (to_int64 leeway))
    then throw (token_verification "token expired")
    else Ok tt
  else Ok tt.

(** [if (jwt.has_issued_at()) { ... }] *)
Definition check_issued_at (v : verifier) (time : time_point) (jwt : decoded_jwt)
  : result unit :=
  if has_issued_at jwt then
    leeway ← claimed_leeway v "iat";
    iat ← get_issued_at jwt;
    if time <? time_point_minus iat (seconds (to_int64 leeway))
    then throw (token_verification "token expired")
    else Ok tt
  else Ok tt.

(** [if (jwt.has_not_before()) { ... }] *)
Definition check_not_before (v : verifier) (time : time_point) (jwt : decoded_jwt)
  : result unit :=
  if has_not_before jwt then
    leeway ← claimed_leeway v "nbf";
    nbf ← get_not_before jwt;
    if time <? time_point_minus nbf (seconds (to_int64 leeway))
    then throw (token_verification "token expired")
    else Ok tt
  else Ok tt.

(** The loop [for (auto& e : expected)] of the audience branch. *)
Fixpoint check_expected (aud : gset string) (expected : list string) : result unit :=
  match expected with
  | [] => Ok tt
  | e :: expected' =>
      if bool_decide (e ∉ aud)
      then throw (token_verification "token doesn't contain the required audience")
      else check_expected aud expected'
  end.

(** The body of [for (auto& c : claims)]. *)
Definition check_claim (jwt : decoded_jwt) (c : string * claim) : result unit :=
  if (String.eqb c.1 "exp" || String.eqb c.1 "iat" || String.eqb c.1 "nbf")%bool then
    Ok tt
  else if String.eqb c.1 "aud" then
    if negb (has_audience jwt)
    then throw (token_verification "token doesn't contain the required audience")
    else
      aud ← get_audience jwt;
      expected ← as_set c.2;
      check_expected aud (set_iteration expected)
  else assert_claim_eq jwt c.1 c.2.

Fixpoint check_claims (jwt : decoded_jwt) (cs : list (string * claim)) : result unit :=
  match cs with
  | [] => Ok tt
  | c :: cs' => _ ← check_claim jwt c; check_claims jwt cs'
  end.

(** [verifier::verify]; [time] is the value of [clock.now()]. *)
Definition verifier_verify (v : verifier) (time : time_point) (jwt : decoded_jwt)
  : result unit :=
  let data := header_base64 jwt +:+ "." +:+ payload_base64 jwt in
  let sig := signature jwt in
  algo ← get_algorithm jwt;
  match algs v !! algo with
  | None => throw (token_verification "wrong algorithm")
  | Some a =>
      _ ← algo_verify a data sig;
      _ ← check_expires_at v time jwt;
      _ ← check_issued_at v time jwt;
      _ ← check_not_before v time jwt;
      check_claims jwt (iteration (claims v))
  end.
End verifier.

(** * Reference collaborators

    Executable instances of the collaborator interfaces, used to run the
    embedding on concrete tokens. *)

Module Reference.

(** The tick of libstdc++'s [system_clock]: one nanosecond. *)
Definition nanosecond_clock : SystemClock := {| period := 1000000000 |}.

(** Entries visited in the order of the keys' encoding. *)
Definition key_order : UnorderedMap := {| iteration := map_to_list |}.

(** *** base64url *)

Definition alphabet : string :=
  "ABCDEFGHIJKLMNOPQRSTUVWXYZabcdefghijklmnopqrstuvwxyz0123456789-_".

Definition digit (n : N) : string :=
  match String.get (N.to_nat n) alphabet with
  | Some c => String c ""
  | None => ""
  end.

Fixpoint encode_bytes (l : list N) : string :=
  match l with
  | a :: b :: c :: rest =>
      let n := (a * 65536 + b * 256 + c)%N in
      digit (n / 262144) +:+ digit (n / 4096 mod 64) +:+ digit (n / 64 mod 64)
      +:+ digit (n mod 64) +:+ encode_bytes rest
  | [a; b] =>
      let n := (a * 65536 + b * 256)%N in
      digit (n / 262144) +:+ digit (n / 4096 mod 64) +:+ digit (n / 64 mod 64) +:+ "="
  | [a] =>
      let n := (a * 65536)%N in
      digit (n / 262144) +:+ digit (n / 4096 mod 64) +:+ "=="
  | [] => ""
  end.

Definition value_of (c : ascii) : option N :=
  N.of_nat <$> String.index 0 (String c "") alphabet.

Definition bytes_of (n : N) (count : nat) : list ascii :=
  take count [ascii_of_N (n / 65536); ascii_of_N (n / 256 mod 256); ascii_of_N (n mod 256)].

Fixpoint decode_chars (l : list ascii) : option (list ascii) :=
  match l with
  | [] => Some []
  | c1 :: c2 :: c3 :: c4 :: rest =>
      v1 ← value_of c1;
      v2 ← value_of c2;
      match rest with
      | [] =>
          if Ascii.eqb c4 "=" then
            if Ascii.eqb c3 "=" then
              Some (bytes_of (v1 * 262144 + v2 * 4096) 1)
            else
              v3 ← value_of c3;
              Some (bytes_of (v1 * 262144 + v2 * 4096 + v3 * 64) 2)
          else
            v3 ← value_of c3;
            v4 ← value_of c4;
            Some (bytes_of (v1 * 262144 + v2 * 4096 + v3 * 64 + v4) 3)
      | _ =>
          v3 ← value_of c3;
          v4 ← value_of c4;
          tl ← decode_chars rest;
          Some (bytes_of (v1 * 262144 + v2 * 4096 + v3 * 64 + v4) 3 ++ tl)
      end
  | _ => None
  end.

(** Modelled from the spec: the base64url codec of base.h, with the
    URL-safe alphabet and '=' as fill; [decode] refuses text outside the
    alphabet or of a length that is not a multiple of 4. *)
Definition base64url : Base64Url :=
  {| fill := "=";
     base_encode := λ s, encode_bytes (N_of_ascii <$> list_ascii_of_string s);
     base_decode := λ s,
       match decode_chars (list_ascii_of_string s) with
       | Some l => Ok (string_of_list_ascii l)
       | None => throw (runtime_error "Invalid input")
       end |}.

(** *** JSON *)

Definition dq : ascii := "034"%char.

Definition quote (s : string) : string := String dq (s +:+ String dq "").

Fixpoint join (sep : string) (l : list string) : string :=
  match l with
  | [] => ""
  | [x] => x
  | x :: l' => x +:+ sep +:+ join sep l'
  end.

(** The members of a [picojson::object], a [std::map], in key order. *)
Definition members (o : gmap string value) : list (string * value) :=
  merge_sort (λ x y : string * value, String.le x.1 y.1) (map_to_list o).

Fixpoint write (fuel : nat) (v : value) : string :=
  match fuel with
  | O => ""
  | S fuel' =>
      match v with
      | Null => "null"
      | Boolean true => "true"
      | Boolean false => "false"
      | Int64 i => NilZero.string_of_int (Z.to_int i)
      | Number _ => "null"
      | Str s => quote s
      | Array a => "[" +:+ join "," (write fuel' <$> a) +:+ "]"
      | Object o =>
          "{" +:+ join "," ((λ kv, quote kv.1 +:+ ":" +:+ write fuel' kv.2) <$> members o)
          +:+ "}"
      end
  end.

Inductive mode : Type :=
| ModeValue
| ModeMembers (acc : gmap string value)
| ModeElements (acc : list value).

(** The text up to the closing quote, and what follows it. *)
Fixpoint scan_string (s : string) : option (string * string) :=
  match s with
  | EmptyString => None
  | String c rest =>
      if Ascii.eqb c dq then Some ("", rest)
      else '(body, rest') ← scan_string rest; Some (String c body, rest')
  end.

Definition is_digit (c : ascii) : bool :=
  ((48 <=? N_of_ascii c) && (N_of_ascii c <=? 57))%N.

Fixpoint scan_digits (s : string) : string * string :=
  match s with
  | EmptyString => ("", "")
  | String c rest =>
      if is_digit c then let '(ds, r) := scan_digits rest in (String c ds, r)
      else ("", s)
  end.

Definition scan_int (s : string) : option (value * string) :=
  let '(ds, rest) :=
    match s with
    | String "-"%char s' => let '(ds, r) := scan_digits s' in (String "-"%char ds, r)
    | _ => scan_digits s
    end in
  i ← NilZero.int_of_string ds; Some (Int64 (Z.of_int i), rest).

Definition scan_literal (s : string) : option (value * string) :=
  if String.prefix "true" s then Some (Boolean true, String.substring 4 (String.length s) s)
  else if String.prefix "false" s
       then Some (Boolean false, String.substring 5 (String.length s) s)
  else if String.prefix "null" s then Some (Null, String.substring 4 (String.length s) s)
  else scan_int s.

Fixpoint read (fuel : nat) (m : mode) (s : string) : option (value * string) :=
  match fuel with
  | O => None
  | S fuel' =>
      match m with
      | ModeValue =>
          match s with
          | String "{"%char (String "}"%char rest) => Some (Object ∅, rest)
          | String "{"%char rest => read fuel' (ModeMembers ∅) rest
          | String "["%char (String "]"%char rest) => Some (Array [], rest)
          | String "["%char rest => read fuel' (ModeElements []) rest
          | String c rest =>
              if Ascii.eqb c dq
              then '(str, rest') ← scan_string rest; Some (Str str, rest')
              else scan_literal s
          | EmptyString => None
          end
      | ModeMembers acc =>
          match s with
          | String c rest =>
              if Ascii.eqb c dq then
                '(key, rest1) ← scan_string rest;
                match rest1 with
                | String ":"%char rest2 =>
                    '(v, rest3) ← read fuel' ModeValue rest2;
                    match rest3 with
                    | String ","%char rest4 =>
                        read fuel' (ModeMembers (<[key := v]> acc)) rest4
                    | String "}"%char rest4 => Some (Object (<[key := v]> acc), rest4)
                    | _ => None
                    end
                | _ => None
                end
              else None
          | EmptyString => None
          end
      | ModeElements acc =>
          '(v, rest1) ← read fuel' ModeValue s;
          match rest1 with
          | String ","%char rest2 => read fuel' (ModeElements (v :: acc)) rest2
          | String "]"%char rest2 => Some (Array (rev (v :: acc)), rest2)
          | _ => None
          end
      end
  end.

(** Modelled from the spec: the JSON codec of picojson.h, on the fragment
    without floating-point numbers, escapes and white space.  [parse]
    yields the value tree or a non-empty error text; [serialize] writes the
    members of an object in key order. *)
Definition picojson : PicoJson :=
  {| picojson_parse := λ s,
       match read (2 * String.length s + 2) ModeValue s with
       | Some (v, EmptyString) => (v, "")
       | _ => (Null, "syntax error")
       end;
     serialize := write 64 |}.

(** A stand-in for the mbedtls primitives, to run the algorithms in
    examples; it has no cryptographic content: the digest is the text
    itself, the keyed digest is key and text joined, signing yields the
    pair (1, 2) and every signature verifies. *)
Definition plain_tls : MbedTls :=
  {| mbedtls_md := λ _ data, data;
     mbedtls_md_hmac := λ _ key data, key +:+ ":" +:+ data;
     mbedtls_ecp_group := unit;
     mbedtls_ecp_point := unit;
     mbedtls_hmac_drbg_context := unit;
     mbedtls_ecdsa_sign := λ _ _ _ _ rng, (0, 1, 2, rng);
     mbedtls_ecdsa_verify := λ _ _ _ _ _ _, 0 |}.

(** *** Tokens and verifiers for the examples *)

(** A decoded token with the given header and payload claims and an empty
    signature. *)
Definition unsigned_jwt (hc pc : gmap string claim) : decoded_jwt :=
  {| token := ""; header := ""; header_base64 := ""; payload := "";
     payload_base64 := ""; signature := ""; signature_base64 := "";
     header_claims := hc; payload_claims := pc |}.

Definition alg_header (alg : string) : gmap string claim :=
  {[ "alg" := Claim (Str alg) ]}.

(** A verifier that accepts the "none" algorithm only. *)
Definition none_verifier : verifier := allow_algorithm none_algorithm new_verifier.

(** A builder with a type and an issuer. *)
Definition issuer_builder : builder := set_issuer "auth0" (set_type "JWT" create).

(** A builder with a key id, a subject, an audience of two and an expiry. *)
Definition audience_builder : builder :=
  @set_expires_at nanosecond_clock (@from_time_t nanosecond_clock 100)
    (set_audience {[ "api"; "web" ]} (set_subject "alice" (set_key_id "k1" create))).

(** An ES256 instance over the stand-in primitives. *)
Definition es256_example : @ecdsa plain_tls :=
  @es256 plain_tls (@Build_mbedtls_ecdsa_context plain_tls tt 7 tt) tt.

(** Entries visited in the opposite order. *)
Definition reverse_key_order : UnorderedMap :=
  {| iteration := λ m, reverse (map_to_list m) |}.

(** A generator whose [k]-th value is [k + 65], with little-endian
    four-byte integers. *)
Definition counting_rand : CRand :=
  {| rand_values := λ k, Z.of_nat k + 65;
     object_bytes := λ z,
       String (ascii_of_N (Z.to_N (z mod 256)))
         (String (ascii_of_N (Z.to_N (z / 256 mod 256)))
            (String (ascii_of_N (Z.to_N (z / 65536 mod 256)))
               (String (ascii_of_N (Z.to_N (z / 16777216 mod 256))) ""))) |}.
End Reference.

(** * Properties *)

(** ** Facts about [std::string] operations *)

Section strings.
#[local] Open Scope nat_scope.

Lemma string_length_app (s1 s2 : string) :
  String.length (s1 +:+ s2) = String.length s1 + String.length s2.
Proof. induction s1 as [|a s1 IH]; simpl; [done | by rewrite IH]. Qed.

Lemma string_app_assoc (s1 s2 s3 : string) : (s1 +:+ s2) +:+ s3 = s1 +:+ (s2 +:+ s3).
Proof. induction s1 as [|a s1 IH]; simpl; [done | by rewrite IH]. Qed.

Lemma string_app_empty_r (s : string) : s +:+ "" = s.
Proof. induction s as [|a s IH]; simpl; [done | by rewrite IH]. Qed.

Lemma count_char_app c (s1 s2 : string) :
  count_char c (s1 +:+ s2) = count_char c s1 + count_char c s2.
Proof. induction s1 as [|a s1 IH]; simpl; [done | rewrite IH; lia]. Qed.

Lemma prefix_char c a (s : string) :
  String.prefix (String c "") (String a s) = Ascii.eqb a c.
Proof.
  simpl. destruct (ascii_dec c a) as [->|Hne].
  - rewrite Ascii.eqb_refl. by destruct s.
  - symmetry. apply Ascii.eqb_neq. congruence.
Qed.

Lemma index_shift n needle (h r : string) :
  String.index (String.length h + n) needle (h +:+ r)
  = (λ i, String.length h + i) <$> String.index n needle r.
Proof.
  induction h as [|a h IH]; simpl.
  - by destruct (String.index n needle r).
  - rewrite IH. by destruct (String.index n needle r).
Qed.

Lemma index_skip c (h r : string) :
  count_char c h = 0 →
  String.index 0 (String c "") (h +:+ r)
  = (λ i, String.length h + i) <$> String.index 0 (String c "") r.
Proof.
  induction h as [|a h IH]; intros Hc.
  - simpl. by destruct (String.index 0 (String c "") r).
  - simpl in Hc. destruct (Ascii.eqb a c) eqn:Hac; [lia|].
    change (String a h +:+ r) with (String a (h +:+ r)).
    cbn [String.index]. rewrite prefix_char, Hac, IH by lia.
    by destruct (String.index 0 (String c "") r).
Qed.

Lemma index_here c (r : string) : String.index 0 (String c "") (String c r) = Some 0.
Proof. cbn [String.index]. by rewrite prefix_char, Ascii.eqb_refl. Qed.

Lemma index_absent c (s : string) :
  count_char c s = 0 → String.index 0 (String c "") s = None.
Proof.
  intros Hc. rewrite <- (string_app_empty_r s), index_skip by done. done.
Qed.

Lemma substring_app_l (h r : string) :
  String.substring 0 (String.length h) (h +:+ r) = h.
Proof.
  induction h as [|a h IH]; simpl; [by destruct r | by rewrite IH].
Qed.

Lemma substring_skip k n (h r : string) :
  String.substring (String.length h + k) n (h +:+ r) = String.substring k n r.
Proof. induction h as [|a h IH]; simpl; done. Qed.

Lemma substring_all (s : string) : String.substring 0 (String.length s) s = s.
Proof. induction s as [|a s IH]; simpl; [done | by rewrite IH]. Qed.

(** A string with at least two occurrences of [c] splits at the first two. *)
Lemma split_first c (t : string) :
  0 < count_char c t →
  ∃ h r, t = h +:+ String c r ∧ count_char c h = 0.
Proof.
  induction t as [|a t IH]; simpl; [lia|].
  destruct (Ascii.eqb a c) eqn:Hac.
  - apply Ascii.eqb_eq in Hac as ->. intros _. by exists "", t.
  - intros Hc. destruct IH as (h & r & -> & Hh); [lia|].
    exists (String a h), r. simpl. by rewrite Hac.
Qed.
End strings.

(** ** The decoder *)

Section decode_facts.
Context {B64 : Base64Url} {Json : PicoJson}.
#[local] Open Scope nat_scope.

Lemma decode_three_segments (h p s : string) :
  count_char "." h = 0 → count_char "." p = 0 →
  decode (h +:+ "." +:+ p +:+ "." +:+ s)
  = decode_segments (h +:+ "." +:+ p +:+ "." +:+ s) h p s.
Proof.
  intros Hh Hp. unfold decode, find.
  rewrite (index_skip "." h) by done. simpl String.append at 1.
  rewrite index_here. simpl fmap. rewrite !Nat.add_0_r.
  rewrite (index_shift 1 "." h). simpl String.append at 1.
  cbn [String.index]. rewrite (index_skip "." p) by done.
  simpl String.append at 1. rewrite index_here. simpl fmap.
  rewrite !Nat.add_0_r.
  unfold substr, size.
  set (tok := h +:+ "." +:+ p +:+ "." +:+ s).
  assert (String.substring 0 (String.length h) tok = h) as ->
    by apply substring_app_l.
  assert (String.substring (String.length h + 1)
            (String.length h + S (String.length p) - String.length h - 1) tok = p) as ->.
  { replace (String.length h + S (String.length p) - String.length h - 1)
      with (String.length p) by lia.
    unfold tok. rewrite substring_skip. simpl. apply substring_app_l. }
  assert (String.substring (String.length h + S (String.length p) + 1)
            (String.length tok - (String.length h + S (String.length p) + 1)) tok = s) as ->.
  { unfold tok. rewrite !string_length_app. simpl String.length.
    replace (String.length h + (1 + (String.length p + (1 + String.length s)))
             - (String.length h + S (String.length p) + 1))
      with (String.length s) by lia.
    replace (String.length h + S (String.length p) + 1)
      with (String.length h + (S (String.length p + 1))) by lia.
    rewrite substring_skip. simpl.
    rewrite (substring_skip 1 _ p). simpl. apply substring_all. }
  done.
Qed.

Lemma split_two_dots (token : string) :
  2 ≤ count_char "." token →
  ∃ h p s, token = h +:+ "." +:+ p +:+ "." +:+ s
           ∧ count_char "." h = 0 ∧ count_char "." p = 0.
Proof.
  intros Hc. destruct (split_first "." token) as (h & r & -> & Hh); [lia|].
  rewrite count_char_app in Hc. simpl in Hc.
  destruct (split_first "." r) as (p & s & -> & Hp); [lia|].
  by exists h, p, s.
Qed.

Lemma decode_few_dots (token : string) :
  count_char "." token < 2 →
  decode token = Err (invalid_argument "invalid token supplied").
Proof.
  intros Hc. unfold decode, find.
  destruct (decide (count_char "." token = 0)) as [Hz|Hz].
  { by rewrite index_absent. }
  destruct (split_first "." token) as (h & r & -> & Hh); [lia|].
  rewrite count_char_app in Hc. simpl in Hc.
  rewrite (index_skip "." h) by done. rewrite index_here. simpl fmap.
  rewrite Nat.add_0_r, (index_shift 1 "." h). cbn [String.index].
  rewrite index_absent by lia. done.
Qed.

Lemma length_repeat_string n (s : string) :
  String.length (repeat_string n s) = n * String.length s.
Proof. induction n as [|n IH]; simpl; [done|]. rewrite string_length_app, IH. lia. Qed.

Lemma fix_padding_repeat (str : string) :
  fix_padding str = str +:+ repeat_string ((4 - size str mod 4) mod 4) fill.
Proof.
  unfold fix_padding.
  assert (size str mod 4 < 4) as Hlt by (apply Nat.mod_upper_bound; lia).
  destruct (size str mod 4) as [|[|[|[|n]]]]; [| | | |lia];
    cbn [Nat.sub Nat.modulo Nat.divmod fst snd repeat_string];
    rewrite ?string_app_assoc, ?string_app_empty_r; done.
Qed.

Lemma fix_padding_length (str : string) :
  String.length fill = 1 → size (fix_padding str) mod 4 = 0.
Proof.
  intros Hf. rewrite fix_padding_repeat. unfold size.
  rewrite string_length_app, length_repeat_string, Hf, Nat.Div0.add_mod.
  assert (String.length str mod 4 < 4) as Hlt by (apply Nat.mod_upper_bound; lia).
  destruct (String.length str mod 4) as [|[|[|[|n]]]]; [done..|lia].
Qed.

Lemma parse_claims_Ok (str : string) (m : gmap string claim) :
  parse_claims str = Ok m ↔
  ∃ o, picojson_parse str = (Object o, "") ∧ m = Claim <$> o.
Proof.
  unfold parse_claims. destruct (picojson_parse str) as [val err].
  destruct (String.eqb err "") eqn:He; simpl.
  - apply String.eqb_eq in He as ->. split.
    + destruct val; simpl; try done. intros [= <-]. eauto.
    + intros (o & [= -> ] & ->). done.
  - split; [done|]. intros (o & [= _ ->] & _). done.
Qed.

Lemma parse_claims_Err (str : string) :
  ¬ parses_to_object str → ∃ msg, parse_claims str = Err (runtime_error msg).
Proof.
  intros Hno. unfold parse_claims, parses_to_object in *.
  destruct (picojson_parse str) as [val err].
  destruct (String.eqb err "") eqn:He; simpl; [|eauto].
  apply String.eqb_eq in He as ->.
  destruct val; simpl; eauto. destruct Hno; eauto.
Qed.

Lemma parse_claims_Err_inv (str : string) (e : exception) :
  parse_claims str = Err e → ∃ msg, e = runtime_error msg.
Proof.
  unfold parse_claims. destruct (picojson_parse str) as [val err].
  destruct (negb _); simpl; [intros [= <-]; eauto|].
  destruct val; simpl; intros [= <-]; eauto.
Qed.

Lemma decode_Ok_inv (token : string) (jwt : decoded_jwt) :
  decode token = Ok jwt →
  base_decode (fix_padding (header_base64 jwt)) = Ok (header jwt)
  ∧ base_decode (fix_padding (payload_base64 jwt)) = Ok (payload jwt)
  ∧ base_decode (fix_padding (signature_base64 jwt)) = Ok (signature jwt)
  ∧ parse_claims (header jwt) = Ok (header_claims jwt)
  ∧ parse_claims (payload jwt) = Ok (payload_claims jwt).
Proof.
  unfold decode.
  destruct (find token "." 0) as [hdr_end|]; [|done].
  destruct (find token "." (hdr_end + 1)) as [payload_end|]; [|done].
  destruct (base_decode (fix_padding (substr token 0 _))) as [hd|] eqn:Hhd; [|done].
  destruct (base_decode (fix_padding (substr token (hdr_end + 1) _))) as [pl|] eqn:Hpl;
    [|done].
  destruct (base_decode (fix_padding (substr token (payload_end + 1) _))) as [sg|] eqn:Hsg;
    [|done].
  simpl. destruct (parse_claims hd) as [hc|] eqn:Hhc; [|done].
  simpl. destruct (parse_claims pl) as [pc|] eqn:Hpc; [|done].
  simpl. intros [= <-]. simpl. done.
Qed.

(** C7: [decode] cuts the token at the first and the second '.', and all
    text after the second '.' (further dots included) is the signature
    segment; a token with fewer than two dots is refused with
    [std::invalid_argument]; before base64url decoding a segment is
    extended with the fill so that, for a one-byte fill, its length is a
    multiple of 4, a remainder of 1 being padded (three times) like the
    remainders 2 and 3 and not refused; a header segment that the codec
    refuses makes [decode] fail with the codec's error. *)
Theorem C7_decode_splits_at_first_two_dots :
  (∀ h p s : string,
      count_char "." h = 0 → count_char "." p = 0 →
      decode (h +:+ "." +:+ p +:+ "." +:+ s)
      = decode_segments (h +:+ "." +:+ p +:+ "." +:+ s) h p s)
  ∧ (∀ token : string,
      2 ≤ count_char "." token →
      ∃ h p s, token = h +:+ "." +:+ p +:+ "." +:+ s
               ∧ count_char "." h = 0 ∧ count_char "." p = 0)
  ∧ (∀ token : string,
      count_char "." token < 2 →
      decode token = Err (invalid_argument "invalid token supplied"))
  ∧ (∀ str : string,
      fix_padding str = str +:+ repeat_string ((4 - size str mod 4) mod 4) fill)
  ∧ (∀ str : string, size str mod 4 = 1 → fix_padding str = str +:+ fill +:+ fill +:+ fill)
  ∧ (∀ str : string, String.length fill = 1 → size (fix_padding str) mod 4 = 0)
  ∧ (∀ (h p s : string) (e : exception),
        count_char "." h = 0 → count_char "." p = 0 →
        base_decode (fix_padding h) = Err e →
        decode (h +:+ "." +:+ p +:+ "." +:+ s) = Err e).
Proof.
  split_and!.
  - apply decode_three_segments.
  - apply split_two_dots.
  - apply decode_few_dots.
  - apply fix_padding_repeat.
  - intros str Hr. unfold fix_padding. rewrite Hr. by rewrite !string_app_assoc.
  - apply fix_padding_length.
  - intros h p s e Hh Hp He. rewrite decode_three_segments by done.
    unfold decode_segments. by rewrite He.
Qed.

Lemma decode_not_object (h p s hd pl sg : string) :
  count_char "." h = 0 → count_char "." p = 0 →
  base_decode (fix_padding h) = Ok hd →
  base_decode (fix_padding p) = Ok pl →
  base_decode (fix_padding s) = Ok sg →
  ¬ parses_to_object hd ∨ ¬ parses_to_object pl →
  ∃ msg, decode (h +:+ "." +:+ p +:+ "." +:+ s) = Err (runtime_error msg).
Proof.
  intros Hh Hp Hhd Hpl Hsg Hno.
  rewrite decode_three_segments by done. unfold decode_segments.
  rewrite Hhd, Hpl, Hsg. simpl.
  destruct (parse_claims hd) as [hc|e] eqn:Hhc.
  - simpl. destruct Hno as [Hno|Hno].
    + apply parse_claims_Err in Hno as [msg Hmsg]. congruence.
    + apply parse_claims_Err in Hno as [msg ->]. eauto.
  - simpl. apply parse_claims_Err_inv in Hhc as [msg ->]. eauto.
Qed.

(** C9: when [decode] succeeds, the decoded header text and the decoded
    payload text are JSON objects for the codec and the claim maps are
    their members, while the signature is the base64url-decoded segment as
    it is; a header or payload text that is not a JSON object makes
    [decode] fail, with [std::runtime_error] when the signature segment is
    valid base64url and with the codec's error otherwise; and the codec's
    parser is never applied to the signature: a codec that differs from the
    given one anywhere but on the header and payload texts decodes the token
    to the same value. *)
Theorem C9_decoded_header_and_payload_are_objects :
  (∀ (token : string) (jwt : decoded_jwt),
      decode token = Ok jwt →
      (∃ o, picojson_parse (header jwt) = (Object o, "")
            ∧ header_claims jwt = Claim <$> o)
      ∧ (∃ o, picojson_parse (payload jwt) = (Object o, "")
              ∧ payload_claims jwt = Claim <$> o)
      ∧ base_decode (fix_padding (signature_base64 jwt)) = Ok (signature jwt))
  ∧ (∀ (h p s hd pl sg : string),
      count_char "." h = 0 → count_char "." p = 0 →
      base_decode (fix_padding h) = Ok hd →
      base_decode (fix_padding p) = Ok pl →
      base_decode (fix_padding s) = Ok sg →
      ¬ parses_to_object hd ∨ ¬ parses_to_object pl →
      ∃ msg, decode (h +:+ "." +:+ p +:+ "." +:+ s) = Err (runtime_error msg))
  ∧ (∀ (h p s hd pl : string),
      count_char "." h = 0 → count_char "." p = 0 →
      base_decode (fix_padding h) = Ok hd →
      base_decode (fix_padding p) = Ok pl →
      ¬ parses_to_object hd ∨ ¬ parses_to_object pl →
      ∃ e, decode (h +:+ "." +:+ p +:+ "." +:+ s) = Err e)
  ∧ (∀ (Json' : PicoJson) (token : string) (jwt : decoded_jwt),
      @decode B64 Json token = Ok jwt →
      @picojson_parse Json' (header jwt) = @picojson_parse Json (header jwt) →
      @picojson_parse Json' (payload jwt) = @picojson_parse Json (payload jwt) →
      @decode B64 Json' token = Ok jwt).
Proof.
  split_and!.
  - intros token jwt Hd.
    destruct (decode_Ok_inv _ _ Hd) as (_ & _ & Hsg & Hhc & Hpc).
    apply parse_claims_Ok in Hhc, Hpc. done.
  - apply decode_not_object.
  - intros h p s hd pl Hh Hp Hhd Hpl Hno.
    destruct (base_decode (fix_padding s)) as [sg|e] eqn:Hsg.
    + destruct (decode_not_object h p s hd pl sg) as [msg Hmsg]; eauto.
    + exists e. rewrite decode_three_segments by done. unfold decode_segments.
      by rewrite Hhd, Hpl, Hsg.
  - intros Json' token jwt. unfold decode.
    destruct (find token "." 0) as [hdr_end|]; [|done].
    destruct (find token "." (hdr_end + 1)) as [payload_end|]; [|done].
    destruct (base_decode (fix_padding (substr token 0 _))) as [hd|]; [|done].
    destruct (base_decode (fix_padding (substr token (hdr_end + 1) _))) as [pl|]; [|done].
    destruct (base_decode (fix_padding (substr token (payload_end + 1) _))) as [sg|];
      [|done].
    simpl. destruct (@parse_claims Json hd) as [hc|] eqn:Hhc; [|done].
    simpl. destruct (@parse_claims Json pl) as [pc|] eqn:Hpc; [|done].
    simpl. intros [= <-]. simpl. intros Hh Hp.
    unfold parse_claims in *. rewrite Hh, Hp.
    destruct (@picojson_parse Json hd) as [v1 e1], (@picojson_parse Json pl) as [v2 e2].
    rewrite Hhc. simpl. by rewrite Hpc.
Qed.
End decode_facts.

(** ** The HMAC algorithms *)

Section hmacsha_facts.
Context {Tls : MbedTls}.
#[local] Open Scope nat_scope.

Lemma at_byte_cons c (s : string) (i : nat) :
  at_byte (String c s) (S i) = at_byte s i.
Proof. done. Qed.

Lemma at_byte_head_inj c1 c2 (s1 s2 : string) :
  at_byte (String c1 s1) 0 = at_byte (String c2 s2) 0 → c1 = c2.
Proof.
  unfold at_byte. simpl. intros Heq%(inj Z.of_N).
  by rewrite <- (ascii_N_embedding c1), <- (ascii_N_embedding c2), Heq.
Qed.

(** Two buffers of one length are equal when they agree at every index. *)
Lemma string_eq_at_byte (s1 s2 : string) :
  String.length s1 = String.length s2 →
  (∀ j, j < String.length s1 → at_byte s1 j = at_byte s2 j) →
  s1 = s2.
Proof.
  revert s2. induction s1 as [|c1 s1 IH]; intros [|c2 s2] Hlen Hall; try done.
  simpl in Hlen. f_equal.
  - apply (at_byte_head_inj c1 c2 s1 s2), Hall. simpl. lia.
  - apply IH; [lia|]. intros j Hj. apply (Hall (S j)). simpl. lia.
Qed.

(** The loop leaves through its bound only: it ends with [i] advanced by
    the number of iterations, and [matched] is true exactly when it was
    true before and every index visited holds equal bytes. *)
Lemma hmacsha_verify_loop_spec n (res signature : string) i matched :
  (hmacsha_verify_loop n res signature i matched).1 = i + n
  ∧ ((hmacsha_verify_loop n res signature i matched).2 = true ↔
     matched = true ∧ ∀ j, i ≤ j < i + n → at_byte res j = at_byte signature j).
Proof.
  revert i matched. induction n as [|n IH]; intros i matched; simpl.
  - split; [lia|]. split; [intros ->; split; [done|lia] | by intros [-> _]].
  - destruct (IH (S i)
      (if negb (at_byte res i =? at_byte signature i)%Z then false else matched))
      as [IH1 IH2].
    split; [lia|]. rewrite IH2. clear IH1 IH2.
    destruct (Z.eqb_spec (at_byte res i) (at_byte signature i)) as [Heq|Hne]; simpl.
    + split; intros [Hm Hall]; (split; [done|]); intros j Hj.
      * destruct (decide (j = i)) as [->|]; [done | apply Hall; lia].
      * apply Hall. lia.
    + split; [by intros [? _]|]. intros [_ Hall]. destruct Hne. apply Hall. lia.
Qed.

Lemma hmacsha_verify_Ok (a : hmacsha) (data signature : string) :
  hmacsha_verify a data signature = Ok tt ↔ signature = hmacsha_sign a data.
Proof.
  unfold hmacsha_verify. set (res := hmacsha_sign a data).
  pose proof (hmacsha_verify_loop_spec
                (Nat.min (size res) (size signature)) res signature 0 true) as [_ Hm].
  destruct (hmacsha_verify_loop _ res signature 0 true) as [i matched]. simpl in Hm.
  destruct (Nat.eqb_spec (size res) (size signature)) as [Hlen|Hlen]; simpl.
  - destruct matched; simpl.
    + split; [intros _|done]. symmetry. apply string_eq_at_byte; [done|].
      intros j Hj. apply Hm; [done|]. unfold size in *. lia.
    + split; [done|]. intros ->.
      assert (false = true) as Hf; [|done]. apply Hm. done.
  - split; [done|]. intros ->. done.
Qed.

End hmacsha_facts.

(** ** The ECDSA algorithms *)

Section ecdsa_facts.
Context {Tls : MbedTls}.
#[local] Open Scope nat_scope.

Lemma length_spec_write_binary n x : String.length (spec_write_binary n x) = n.
Proof.
  revert x. induction n as [|n IH]; intros x; simpl; [done|].
  rewrite string_length_app, IH. simpl. lia.
Qed.

Lemma length_spec_raw_signature n r s :
  String.length (spec_raw_signature n r s) = 2 * n.
Proof.
  unfold spec_raw_signature, size.
  rewrite string_length_app, !length_spec_write_binary.
  replace ((n + n) mod 2) with 0; [simpl; rewrite string_length_app, !length_spec_write_binary; lia|].
  replace (n + n) with (n * 2) by lia. by rewrite Nat.Div0.mod_mul.
Qed.

(** C3 (what the code does): [ecdsa::sign] returns the empty string
    whenever [mbedtls_ecdsa_sign] reports success, whatever (r, s) the
    primitive produced, and [signature_generation_exception] otherwise; so
    its output is never the two-integer serialization of (r, s) at a
    positive byte length. *)
Theorem C3_ecdsa_sign_returns_empty_string (a : ecdsa) (data : string) :
  let hash := generate_hash data (ecdsa_md_type a) in
  let out := mbedtls_ecdsa_sign (grp (ecdsa_ctx a)) (d (ecdsa_ctx a)) hash
               (size hash * 8) (rnd a) in
  (ecdsa_sign a data).1
  = (if (out.1.1.1 =? 0)%Z then Ok "" else Err signature_generation_failed)
  ∧ ∀ n, (ecdsa_sign a data).1 ≠ Ok (spec_raw_signature (S n) out.1.1.2 out.1.2).
Proof.
  intros hash out. unfold ecdsa_sign. fold hash. fold out.
  destruct out as [[[ret r] s] rnd']. simpl.
  destruct (ret =? 0)%Z; simpl; split; try done.
  intros n [= Heq].
  pose proof (length_spec_raw_signature (S n) r s) as Hlen.
  rewrite <- Heq in Hlen. simpl in Hlen. lia.
Qed.
End ecdsa_facts.

(** ** The builder *)

Section builder_facts.
Context {Clock : SystemClock} {B64 : Base64Url} {Json : PicoJson}.
Context {T : Type} {Alg : Algorithm T}.
#[local] Open Scope nat_scope.

Lemma substring_ge (m : nat) (s : string) :
  String.length s ≤ m → String.substring 0 m s = s.
Proof.
  revert m. induction s as [|a s IH]; intros [|m] Hm; simpl in *; try done; [lia|].
  rewrite IH; [done|lia].
Qed.

Lemma repeat_string_empty k : repeat_string k "" = "".
Proof. induction k as [|k IH]; simpl; done. Qed.

(** Cutting at the first occurrence of the fill removes exactly the
    trailing fill when the fill occurs nowhere before it. *)
Lemma encode_strips_trailing_fill (data body : string) (k : nat) :
  base_encode data = body +:+ repeat_string k fill →
  (∀ i, i < String.length body →
        String.substring i (String.length fill) (base_encode data) ≠ fill) →
  encode data = body.
Proof.
  intros Hbase Hbody. unfold encode, find, substr, size.
  destruct (String.index 0 fill (base_encode data)) as [m|] eqn:Hidx.
  - pose proof (String.index_correct1 _ _ _ _ Hidx) as Hat.
    pose proof (String.index_correct2 _ _ _ _ Hidx) as Hfirst.
    assert (String.length body ≤ m) as Hm.
    { destruct (decide (String.length body ≤ m)) as [|Hlt]; [done|].
      destruct (Hbody m); [lia|done]. }
    rewrite Hbase in *.
    destruct k as [|k].
    + simpl. rewrite string_app_empty_r. apply substring_ge. done.
    + assert (m ≤ String.length body) as Hm'.
      { destruct (decide (m ≤ String.length body)) as [|Hlt]; [done|].
        destruct (Hfirst (String.length body)); [lia..|].
        rewrite <- (Nat.add_0_r (String.length body)), substring_skip.
        simpl. apply substring_app_l. }
      replace m with (String.length body) by lia. apply substring_app_l.
  - rewrite Nat.sub_0_r, substring_all, Hbase.
    destruct (decide (fill = "")) as [Hf|Hf].
    { by rewrite Hf, repeat_string_empty, string_app_empty_r. }
    destruct k as [|k]; [simpl; by rewrite string_app_empty_r|].
    destruct (String.index_correct3 _ (String.length body) _ _ Hidx Hf); [lia|].
    rewrite Hbase, <- (Nat.add_0_r (String.length body)), substring_skip.
    simpl. apply substring_app_l.
Qed.

Lemma builder_sign_unfold (algo : T) (b : builder) :
  let header_claims := <["alg" := claim_of_string (name algo)]> (builder_header_claims b) in
  let header := encode (serialize (Object (to_json <$> header_claims))) in
  let payload := encode (serialize (Object (to_json <$> builder_payload_claims b))) in
  let signing_input := header +:+ "." +:+ payload in
  builder_sign algo b
  = (sig ← sign algo signing_input; Ok (signing_input +:+ "." +:+ encode sig)).
Proof. done. Qed.

Lemma fmap_Claim_to_json (m : gmap string claim) : Claim <$> (to_json <$> m) = m.
Proof.
  apply map_eq. intros k. rewrite !lookup_fmap.
  destruct (m !! k) as [[v]|]; done.
Qed.

(** C6: [builder::sign] puts [algo.name()] under "alg" in the header,
    whatever was there, serializes the header and the payload claims as
    JSON objects, encodes each with base64url and cuts the fill off, signs
    [header + "." + payload] and returns that text followed by "." and the
    encoded, fill-free signature; a failure of the algorithm is the
    failure of [sign]. *)
Theorem C6_builder_sign_assembles_compact_token (algo : T) (b : builder) :
  let header_claims := <["alg" := claim_of_string (name algo)]> (builder_header_claims b) in
  let header := encode (serialize (Object (to_json <$> header_claims))) in
  let payload := encode (serialize (Object (to_json <$> builder_payload_claims b))) in
  let signing_input := header +:+ "." +:+ payload in
  header_claims !! "alg" = Some (Claim (Str (name algo)))
  ∧ (∀ sig, sign algo signing_input = Ok sig →
            builder_sign algo b = Ok (signing_input +:+ "." +:+ encode sig))
  ∧ (∀ e, sign algo signing_input = Err e → builder_sign algo b = Err e)
  ∧ (∀ data body k,
        base_encode data = body +:+ repeat_string k fill →
        (∀ i, i < String.length body →
              String.substring i (String.length fill) (base_encode data) ≠ fill) →
        encode data = body).
Proof.
  intros header_claims header payload signing_input. split_and!.
  - apply lookup_insert_eq.
  - intros sig Hsig. rewrite builder_sign_unfold. cbv zeta.
    subst header_claims header payload signing_input. by rewrite Hsig.
  - intros e Hsig. rewrite builder_sign_unfold. cbv zeta.
    subst header_claims header payload signing_input. by rewrite Hsig.
  - apply encode_strips_trailing_fill.
Qed.

(** The decoder's [fix_padding] restores what the builder's [encode] cut
    off, so a text goes through [encode], [fix_padding] and the codec's
    decoder unchanged, and its encoded segment holds no dot. *)
Lemma decode_of_encode (data : string) :
  String.length fill = 1 → base64url_round_trip data →
  count_char "." (encode data) = 0
  ∧ base_decode (fix_padding (encode data)) = Ok data.
Proof.
  intros Hfill (Hdec & Hlen & body & k & Hbase & Hk & Hdot & Hbody).
  assert (encode data = body) as -> by by eapply encode_strips_trailing_fill.
  split; [done|].
  rewrite fix_padding_repeat.
  replace ((4 - size body mod 4) mod 4) with k; [by rewrite <- Hbase|].
  rewrite Hbase, string_length_app, length_repeat_string, Hfill, Nat.mul_1_r in Hlen.
  unfold size. rewrite Nat.Div0.add_mod in Hlen.
  assert (String.length body mod 4 < 4) as Hr by (apply Nat.mod_upper_bound; lia).
  rewrite (Nat.mod_small k) in Hlen by done.
  destruct (String.length body mod 4) as [|[|[|[|r]]]]; [| | | |lia];
    destruct k as [|[|[|[|k]]]]; try lia; try done.
Qed.

Lemma decode_builder_sign (algo : T) (b : builder) (sig : string) :
  let header_claims' := <["alg" := claim_of_string (name algo)]> (builder_header_claims b) in
  let header_json := serialize (Object (to_json <$> header_claims')) in
  let payload_json := serialize (Object (to_json <$> builder_payload_claims b)) in
  let input := encode header_json +:+ "." +:+ encode payload_json in
  sign algo input = Ok sig →
  count_char "." (encode header_json) = 0 →
  count_char "." (encode payload_json) = 0 →
  base_decode (fix_padding (encode header_json)) = Ok header_json →
  base_decode (fix_padding (encode payload_json)) = Ok payload_json →
  base_decode (fix_padding (encode sig)) = Ok sig →
  picojson_parse header_json = (Object (to_json <$> header_claims'), "") →
  picojson_parse payload_json = (Object (to_json <$> builder_payload_claims b), "") →
  ∃ token jwt,
    builder_sign algo b = Ok token
    ∧ decode token = Ok jwt
    ∧ header_claims jwt = header_claims'
    ∧ payload_claims jwt = builder_payload_claims b
    ∧ get_algorithm jwt = Ok (name algo)
    ∧ signature jwt = sig
    ∧ signing_input jwt = input.
Proof.
  intros hc hj pj input Hsig Hh Hp Dh Dp Ds Ph Pp.
  eexists _, _. split.
  { rewrite builder_sign_unfold. cbv zeta. fold hc. fold hj. fold pj. fold input.
    rewrite Hsig. reflexivity. }
  unfold input.
  replace ((encode hj +:+ "." +:+ encode pj) +:+ "." +:+ encode sig)
    with (encode hj +:+ "." +:+ encode pj +:+ "." +:+ encode sig)
    by (by rewrite !string_app_assoc).
  rewrite decode_three_segments by done. unfold decode_segments.
  rewrite Dh, Dp, Ds. simpl.
  unfold parse_claims. rewrite Ph, Pp. simpl. rewrite !fmap_Claim_to_json.
  split; [reflexivity|]. simpl. split_and!; try done.
  unfold get_algorithm, get_header_claim, has_header_claim. simpl.
  unfold hc. rewrite lookup_insert_eq. done.
Qed.

(** C5: round trip.  When the algorithm signs, and the base64url codec
    and the JSON codec keep what they promise for the texts at hand
    ([base64url_round_trip] for the serialized header, the serialized
    payload and the signature, [json_round_trip] for the two objects, a
    fill of one byte), decoding the token made by [builder::sign] succeeds,
    the decoded header claims are the builder's with "alg" set to the
    algorithm's name, the decoded payload claims are the builder's, and
    [get_algorithm()] is the algorithm's name.  That [encode] and
    [fix_padding] cancel and that the token splits at the right dots is
    shown, not assumed. *)
Theorem C5_decode_inverts_builder_sign (algo : T) (b : builder) (sig : string) :
  let header_claims' := <["alg" := claim_of_string (name algo)]> (builder_header_claims b) in
  let header_json := serialize (Object (to_json <$> header_claims')) in
  let payload_json := serialize (Object (to_json <$> builder_payload_claims b)) in
  let signing_input := encode header_json +:+ "." +:+ encode payload_json in
  sign algo signing_input = Ok sig →
  String.length fill = 1 →
  base64url_round_trip header_json →
  base64url_round_trip payload_json →
  base64url_round_trip sig →
  json_round_trip (to_json <$> header_claims') →
  json_round_trip (to_json <$> builder_payload_claims b) →
  ∃ token jwt,
    builder_sign algo b = Ok token
    ∧ decode token = Ok jwt
    ∧ header_claims jwt = header_claims'
    ∧ payload_claims jwt = builder_payload_claims b
    ∧ get_algorithm jwt = Ok (name algo)
    ∧ signature jwt = sig
    ∧ header_base64 jwt +:+ "." +:+ payload_base64 jwt = signing_input.
Proof.
  intros hc hj pj input Hsig Hfill Bh Bp Bs Jh Jp.
  destruct (decode_of_encode hj Hfill Bh) as (Hh & Dh).
  destruct (decode_of_encode pj Hfill Bp) as (Hp & Dp).
  destruct (decode_of_encode sig Hfill Bs) as (_ & Ds).
  by apply decode_builder_sign.
Qed.
End builder_facts.

(** ** The verifier *)

Section verifier_facts.
Context {Clock : SystemClock} {Buckets : UnorderedMap}.

(** [verify] once the algorithm is resolved and the signature accepted. *)
Lemma verifier_verify_after_signature v time jwt alg a :
  get_algorithm jwt = Ok alg →
  algs v !! alg = Some a →
  algo_verify a (signing_input jwt) (signature jwt) = Ok tt →
  verifier_verify v time jwt
  = (_ ← check_expires_at v time jwt;
     _ ← check_issued_at v time jwt;
     _ ← check_not_before v time jwt;
     check_claims jwt (iteration (claims v))).
Proof.
  intros Halg Ha Hsig. unfold verifier_verify, signing_input in *.
  rewrite Halg. cbn [mbind result_bind]. rewrite Ha, Hsig. done.
Qed.

Lemma verifier_verify_unregistered v time jwt alg :
  get_algorithm jwt = Ok alg →
  algs v !! alg = None →
  verifier_verify v time jwt = Err (token_verification "wrong algorithm").
Proof. intros Halg Ha. unfold verifier_verify. rewrite Halg. simpl. by rewrite Ha. Qed.

Lemma verifier_verify_bad_signature v time jwt alg a e :
  get_algorithm jwt = Ok alg →
  algs v !! alg = Some a →
  algo_verify a (signing_input jwt) (signature jwt) = Err e →
  verifier_verify v time jwt = Err e.
Proof.
  intros Halg Ha Hsig. unfold verifier_verify, signing_input in *.
  rewrite Halg. cbn [mbind result_bind]. by rewrite Ha, Hsig.
Qed.

Lemma verifier_verify_Ok_signature v time jwt :
  verifier_verify v time jwt = Ok tt →
  ∃ alg a, get_algorithm jwt = Ok alg ∧ algs v !! alg = Some a
           ∧ algo_verify a (signing_input jwt) (signature jwt) = Ok tt.
Proof.
  unfold verifier_verify, signing_input.
  destruct (get_algorithm jwt) as [alg|]; [cbn [mbind result_bind]|done].
  destruct (algs v !! alg) as [a|] eqn:Ha; [|done].
  destruct (algo_verify a _ _) as [[]|] eqn:Hsig; [|done].
  intros _. by exists alg, a.
Qed.

(** C1: [verify] looks the header's "alg" up among the registered
    algorithms.  A name that is not registered gives the "wrong algorithm"
    failure whatever the signature, the clock and the claims are; with a
    registered name, a failure of that algorithm's [verify] on
    [header_base64 + "." + payload_base64] and the decoded signature is the
    result, again whatever the clock and the claims are; the time and
    claim checks are what remains once the signature is accepted, so success
    of [verify] implies both steps succeeded.  A verifier whose only
    registered algorithm is HS256 refuses every token naming another
    algorithm. *)
Theorem C1_verify_resolves_algorithm_first (v : verifier) (time : time_point)
    (jwt : decoded_jwt) :
  (∀ alg, get_algorithm jwt = Ok alg → algs v !! alg = None →
          verifier_verify v time jwt = Err (token_verification "wrong algorithm"))
  ∧ (∀ alg a e, get_algorithm jwt = Ok alg → algs v !! alg = Some a →
                algo_verify a (signing_input jwt) (signature jwt) = Err e →
                verifier_verify v time jwt = Err e)
  ∧ (verifier_verify v time jwt = Ok tt →
     ∃ alg a, get_algorithm jwt = Ok alg ∧ algs v !! alg = Some a
              ∧ algo_verify a (signing_input jwt) (signature jwt) = Ok tt)
  ∧ (∀ alg a, get_algorithm jwt = Ok alg → algs v !! alg = Some a →
              algo_verify a (signing_input jwt) (signature jwt) = Ok tt →
              verifier_verify v time jwt
              = (_ ← check_expires_at v time jwt;
                 _ ← check_issued_at v time jwt;
                 _ ← check_not_before v time jwt;
                 check_claims jwt (iteration (claims v))))
  ∧ (∀ e, get_algorithm jwt = Err e → verifier_verify v time jwt = Err e)
  ∧ (∀ (Tls : MbedTls) (key alg : string),
        algs v = ∅ → get_algorithm jwt = Ok alg → alg ≠ "HS256" →
        verifier_verify (allow_algorithm (hs256 key) v) time jwt
        = Err (token_verification "wrong algorithm")).
Proof.
  split_and!.
  - apply verifier_verify_unregistered.
  - apply verifier_verify_bad_signature.
  - apply verifier_verify_Ok_signature.
  - apply verifier_verify_after_signature.
  - intros e He. unfold verifier_verify. by rewrite He.
  - intros Tls key alg Hempty Halg Hne.
    apply (verifier_verify_unregistered _ _ _ alg); [done|]. simpl.
    rewrite Hempty, lookup_insert_ne, lookup_empty; done.
Qed.

(** *** Time checks *)

Lemma to_int64_small z : 0 ≤ z < 2 ^ 63 → to_int64 z = z.
Proof.
  intros Hz. unfold to_int64. rewrite Z.mod_small; lia.
Qed.

Lemma to_int64_range z : int64_range z → to_int64 z = z.
Proof.
  intros [Hl Hu]. unfold to_int64. rewrite Z.mod_small; lia.
Qed.

Lemma to_size_t_small z : 0 ≤ z < 2 ^ 64 → to_size_t z = z.
Proof. intros Hz. unfold to_size_t. rewrite Z.mod_small; lia. Qed.

Lemma to_time_t_from_time_t t :
  0 < period → int64_range (t * period) → to_time_t (from_time_t t) = t.
Proof.
  intros Hp Hr. unfold to_time_t, from_time_t. rewrite to_int64_range by done.
  rewrite Z.quot_mul; lia.
Qed.

Lemma ticks_fit_leeway e l : 0 < period → ticks_fit e l → 0 ≤ l < 2 ^ 63.
Proof. intros Hp (Hl & [_ Hr] & _). split; [done|nia]. Qed.

Lemma ticks_fit_claim e l : 0 < period → ticks_fit e l → int64_range (e * period).
Proof. intros Hp (Hl & _ & [_ Hu] & [Hd _]). split; nia. Qed.

Lemma ticks_fit_le e l l' : 0 < period → 0 ≤ l ≤ l' → ticks_fit e l' → ticks_fit e l.
Proof.
  intros Hp Hl (_ & [? ?] & [? ?] & [? ?]). unfold ticks_fit, int64_range.
  split_and!; nia.
Qed.

Lemma ticks_fit_plus e l :
  0 < period → ticks_fit e l →
  time_point_plus (from_time_t e) (seconds l) = (e + l) * period.
Proof.
  intros Hp Hf. pose proof (ticks_fit_claim _ _ Hp Hf) as He.
  destruct Hf as (Hl & Hlr & Hplus & Hminus).
  unfold time_point_plus, from_time_t, seconds.
  rewrite (to_int64_range (e * period)), (to_int64_range (l * period)) by done.
  rewrite <- Z.mul_add_distr_r. by apply to_int64_range.
Qed.

Lemma ticks_fit_minus e l :
  0 < period → ticks_fit e l →
  time_point_minus (from_time_t e) (seconds l) = (e - l) * period.
Proof.
  intros Hp Hf. pose proof (ticks_fit_claim _ _ Hp Hf) as He.
  destruct Hf as (Hl & Hlr & Hplus & Hminus).
  unfold time_point_minus, from_time_t, seconds.
  rewrite (to_int64_range (e * period)), (to_int64_range (l * period)) by done.
  rewrite <- Z.mul_sub_distr_r. by apply to_int64_range.
Qed.

Lemma claimed_leeway_default v name :
  claims v !! name = None → claimed_leeway v name = Ok (default_leeway v).
Proof. intros Hn. unfold claimed_leeway. by rewrite Hn. Qed.

Lemma claimed_leeway_override v name l :
  0 < period → 0 ≤ l → int64_range (l * period) →
  claims v !! name = Some (claim_of_date (from_time_t (to_int64 l))) →
  claimed_leeway v name = Ok l.
Proof.
  intros Hp Hl Hr Hc. assert (l < 2 ^ 63) as Hu by (destruct Hr; nia).
  unfold claimed_leeway. rewrite Hc.
  unfold claim_of_date, as_date, as_int. cbn [to_json mbind result_bind mret result_ret].
  rewrite (to_int64_small l) by done.
  rewrite (to_time_t_from_time_t l) by done.
  rewrite (to_int64_small l) by done.
  rewrite (to_time_t_from_time_t l) by done.
  rewrite to_size_t_small by lia. done.
Qed.

Lemma has_payload_claim_true jwt name c :
  payload_claims jwt !! name = Some c → has_payload_claim jwt name = true.
Proof. intros Hc. unfold has_payload_claim. rewrite Hc. by apply bool_decide_eq_true_2. Qed.

Lemma has_payload_claim_false jwt name :
  payload_claims jwt !! name = None → has_payload_claim jwt name = false.
Proof.
  intros Hc. unfold has_payload_claim. rewrite Hc.
  apply bool_decide_eq_false_2. by intros [? ?].
Qed.

Lemma get_payload_claim_Some jwt name c :
  payload_claims jwt !! name = Some c → get_payload_claim jwt name = Ok c.
Proof.
  intros Hc. unfold get_payload_claim.
  by rewrite (has_payload_claim_true _ _ _ Hc), Hc.
Qed.

Lemma check_expires_at_absent v time jwt :
  payload_claims jwt !! "exp" = None → check_expires_at v time jwt = Ok tt.
Proof.
  intros Hn. unfold check_expires_at, has_expires_at.
  by rewrite has_payload_claim_false.
Qed.

Lemma check_issued_at_absent v time jwt :
  payload_claims jwt !! "iat" = None → check_issued_at v time jwt = Ok tt.
Proof.
  intros Hn. unfold check_issued_at, has_issued_at.
  by rewrite has_payload_claim_false.
Qed.

Lemma check_not_before_absent v time jwt :
  payload_claims jwt !! "nbf" = None → check_not_before v time jwt = Ok tt.
Proof.
  intros Hn. unfold check_not_before, has_not_before.
  by rewrite has_payload_claim_false.
Qed.

Lemma check_expires_at_present v time jwt e l :
  payload_claims jwt !! "exp" = Some (Claim (Int64 e)) →
  claimed_leeway v "exp" = Ok l → 0 ≤ l < 2 ^ 63 →
  check_expires_at v time jwt
  = if time >? time_point_plus (from_time_t e) (seconds l)
    then Err (token_verification "token expired") else Ok tt.
Proof.
  intros He Hl Hr. unfold check_expires_at, has_expires_at, get_expires_at.
  rewrite (has_payload_claim_true _ _ _ He), Hl, (get_payload_claim_Some _ _ _ He).
  cbn [mbind result_bind]. unfold as_date, as_int.
  cbn [to_json mbind result_bind mret result_ret].
  by rewrite to_int64_small.
Qed.

Lemma check_issued_at_present v time jwt e l :
  payload_claims jwt !! "iat" = Some (Claim (Int64 e)) →
  claimed_leeway v "iat" = Ok l → 0 ≤ l < 2 ^ 63 →
  check_issued_at v time jwt
  = if time <? time_point_minus (from_time_t e) (seconds l)
    then Err (token_verification "token expired") else Ok tt.
Proof.
  intros He Hl Hr. unfold check_issued_at, has_issued_at, get_issued_at.
  rewrite (has_payload_claim_true _ _ _ He), Hl, (get_payload_claim_Some _ _ _ He).
  cbn [mbind result_bind]. unfold as_date, as_int.
  cbn [to_json mbind result_bind mret result_ret].
  by rewrite to_int64_small.
Qed.

Lemma check_not_before_present v time jwt e l :
  payload_claims jwt !! "nbf" = Some (Claim (Int64 e)) →
  claimed_leeway v "nbf" = Ok l → 0 ≤ l < 2 ^ 63 →
  check_not_before v time jwt
  = if time <? time_point_minus (from_time_t e) (seconds l)
    then Err (token_verification "token expired") else Ok tt.
Proof.
  intros He Hl Hr. unfold check_not_before, has_not_before, get_not_before.
  rewrite (has_payload_claim_true _ _ _ He), Hl, (get_payload_claim_Some _ _ _ He).
  cbn [mbind result_bind]. unfold as_date, as_int.
  cbn [to_json mbind result_bind mret result_ret].
  by rewrite to_int64_small.
Qed.

(** The same checks when every tick count is exact. *)
Lemma check_expires_at_exact v time jwt e l :
  0 < period →
  payload_claims jwt !! "exp" = Some (Claim (Int64 e)) →
  claimed_leeway v "exp" = Ok l → ticks_fit e l →
  check_expires_at v time jwt
  = if time >? (e + l) * period then Err expired else Ok tt.
Proof.
  intros Hp He Hl Hf.
  rewrite (check_expires_at_present _ _ _ _ _ He Hl (ticks_fit_leeway _ _ Hp Hf)).
  by rewrite ticks_fit_plus.
Qed.

Lemma check_issued_at_exact v time jwt e l :
  0 < period →
  payload_claims jwt !! "iat" = Some (Claim (Int64 e)) →
  claimed_leeway v "iat" = Ok l → ticks_fit e l →
  check_issued_at v time jwt
  = if time <? (e - l) * period then Err expired else Ok tt.
Proof.
  intros Hp He Hl Hf.
  rewrite (check_issued_at_present _ _ _ _ _ He Hl (ticks_fit_leeway _ _ Hp Hf)).
  by rewrite ticks_fit_minus.
Qed.

Lemma check_not_before_exact v time jwt e l :
  0 < period →
  payload_claims jwt !! "nbf" = Some (Claim (Int64 e)) →
  claimed_leeway v "nbf" = Ok l → ticks_fit e l →
  check_not_before v time jwt
  = if time <? (e - l) * period then Err expired else Ok tt.
Proof.
  intros Hp He Hl Hf.
  rewrite (check_not_before_present _ _ _ _ _ He Hl (ticks_fit_leeway _ _ Hp Hf)).
  by rewrite ticks_fit_minus.
Qed.

(** *** The loop over the required claims *)

Lemma check_claims_Ok jwt cs :
  check_claims jwt cs = Ok tt ↔ Forall (λ c, check_claim jwt c = Ok tt) cs.
Proof.
  induction cs as [|c cs IH]; simpl.
  - split; [constructor|done].
  - rewrite Forall_cons, <- IH. destruct (check_claim jwt c) as [[]|e]; simpl.
    + tauto.
    + split; [done|]. by intros [? _].
Qed.

Lemma check_claims_Err jwt cs e :
  check_claims jwt cs = Err e → ∃ c, c ∈ cs ∧ check_claim jwt c = Err e.
Proof.
  induction cs as [|c cs IH]; simpl; [done|].
  destruct (check_claim jwt c) as [[]|e'] eqn:Hc; simpl.
  - intros (c' & Hin & Hc')%IH. exists c'. split; [by right|done].
  - intros [= ->]. exists c. split; [by left|done].
Qed.

Lemma as_string_Err c e : as_string c = Err e → access_error e.
Proof. unfold as_string. destruct (to_json c); intros [= <-]; by left. Qed.

Lemma as_date_Err c e : as_date c = Err e → access_error e.
Proof.
  unfold as_date, as_int. destruct (to_json c); simpl; intros [= <-]; by left.
Qed.

Lemma as_set_loop_Err a res e : as_set_loop a res = Err e → access_error e.
Proof.
  revert res. induction a as [|x a IH]; intros res; simpl; [done|].
  destruct x; try (intros [= <-]; by left). apply IH.
Qed.

Lemma as_set_Err c e : as_set c = Err e → access_error e.
Proof.
  unfold as_set, as_array. destruct (to_json c); simpl; try (intros [= <-]; by left).
  apply as_set_loop_Err.
Qed.

Lemma get_payload_claim_Err jwt name e :
  get_payload_claim jwt name = Err e → access_error e.
Proof.
  unfold get_payload_claim. destruct (negb _); [intros [= <-]; right; eauto|].
  destruct (payload_claims jwt !! name); intros [= <-]. right; eauto.
Qed.

Lemma get_audience_Err jwt e : get_audience jwt = Err e → access_error e.
Proof.
  unfold get_audience.
  destruct (get_payload_claim jwt "aud") as [aud|e'] eqn:Haud; simpl.
  - destruct (decide _).
    + destruct (as_string aud) eqn:Hs; simpl; [done|].
      intros [= <-]. by eapply as_string_Err.
    + apply as_set_Err.
  - intros [= <-]. by eapply get_payload_claim_Err.
Qed.

Lemma access_error_not_verification msg :
  ¬ access_error (token_verification msg).
Proof. intros [?|[? ?]]; done. Qed.

Lemma check_expected_cases aud expected :
  check_expected aud expected = Ok tt
  ∨ check_expected aud expected
    = Err (token_verification "token doesn't contain the required audience").
Proof.
  induction expected as [|x expected IH]; simpl; [by left|].
  destruct (bool_decide _); [by right|done].
Qed.

Lemma compare_sets_cases key it1 it2 :
  compare_sets key it1 it2 = Ok tt
  ∨ compare_sets key it1 it2
    = Err (token_verification ("claim " +:+ key +:+ " does not match expected")).
Proof.
  revert it2. induction it1 as [|x1 it1 IH]; intros [|x2 it2]; simpl; try by left.
  destruct (negb _); [by right|apply IH].
Qed.

Lemma assert_claim_eq_not_expired jwt key c :
  assert_claim_eq jwt key c ≠ Err (token_verification "token expired").
Proof.
  unfold assert_claim_eq.
  destruct (negb (has_payload_claim jwt key)); [done|].
  destruct (get_payload_claim jwt key) as [jc|e] eqn:Hjc; simpl;
    [|intros [= ->]; by eapply access_error_not_verification, get_payload_claim_Err].
  destruct (negb _); [done|].
  destruct (bool_decide (get_type c = type_int64)).
  { destruct (as_date c) as [d1|e] eqn:H1; simpl;
      [|intros [= ->]; by eapply access_error_not_verification, as_date_Err].
    destruct (as_date jc) as [d2|e] eqn:H2; simpl;
      [|intros [= ->]; by eapply access_error_not_verification, as_date_Err].
    by destruct (negb _). }
  destruct (bool_decide (get_type c = type_array)).
  { destruct (as_set c) as [s1|e] eqn:H1; simpl;
      [|intros [= ->]; by eapply access_error_not_verification, as_set_Err].
    destruct (as_set jc) as [s2|e] eqn:H2; simpl;
      [|intros [= ->]; by eapply access_error_not_verification, as_set_Err].
    destruct (negb _); [done|].
    by destruct (compare_sets_cases key (set_iteration s1) (set_iteration s2)) as [-> | ->]. }
  destruct (bool_decide (get_type c = type_string)); [|done].
  destruct (as_string c) as [s1|e] eqn:H1; simpl;
    [|intros [= ->]; by eapply access_error_not_verification, as_string_Err].
  destruct (as_string jc) as [s2|e] eqn:H2; simpl;
    [|intros [= ->]; by eapply access_error_not_verification, as_string_Err].
  by destruct (negb _).
Qed.

Lemma check_claim_not_expired jwt c :
  check_claim jwt c ≠ Err (token_verification "token expired").
Proof.
  unfold check_claim. destruct (_ || _)%bool; [done|].
  destruct (String.eqb c.1 "aud"); [|apply assert_claim_eq_not_expired].
  destruct (negb _); [done|].
  destruct (get_audience jwt) as [aud|e] eqn:Haud; simpl;
    [|intros [= ->]; by eapply access_error_not_verification, get_audience_Err].
  destruct (as_set c.2) as [expected|e] eqn:Hexp; simpl;
    [|intros [= ->]; by eapply access_error_not_verification, as_set_Err].
  by destruct (check_expected_cases aud (set_iteration expected)) as [-> | ->].
Qed.

Lemma check_claims_not_expired jwt cs :
  check_claims jwt cs ≠ Err (token_verification "token expired").
Proof.
  intros (c & _ & Hc)%check_claims_Err. by apply check_claim_not_expired in Hc.
Qed.

(** *** The time window *)

Lemma check_expires_at_cases v time jwt l :
  0 < period →
  numeric_or_absent jwt "exp" → claimed_leeway v "exp" = Ok l →
  (∀ e, numeric_date jwt "exp" = Some e → ticks_fit e l) →
  check_expires_at v time jwt
  = match numeric_date jwt "exp" with
    | Some e => if time >? (e + l) * period then Err expired else Ok tt
    | None => Ok tt
    end.
Proof.
  intros Hp [Hn|[e He]] Hl Hf; unfold numeric_date in *.
  - rewrite Hn. by apply check_expires_at_absent.
  - rewrite He in *. apply check_expires_at_exact; auto.
Qed.

Lemma check_issued_at_cases v time jwt l :
  0 < period →
  numeric_or_absent jwt "iat" → claimed_leeway v "iat" = Ok l →
  (∀ e, numeric_date jwt "iat" = Some e → ticks_fit e l) →
  check_issued_at v time jwt
  = match numeric_date jwt "iat" with
    | Some e => if time <? (e - l) * period then Err expired else Ok tt
    | None => Ok tt
    end.
Proof.
  intros Hp [Hn|[e He]] Hl Hf; unfold numeric_date in *.
  - rewrite Hn. by apply check_issued_at_absent.
  - rewrite He in *. apply check_issued_at_exact; auto.
Qed.

Lemma check_not_before_cases v time jwt l :
  0 < period →
  numeric_or_absent jwt "nbf" → claimed_leeway v "nbf" = Ok l →
  (∀ e, numeric_date jwt "nbf" = Some e → ticks_fit e l) →
  check_not_before v time jwt
  = match numeric_date jwt "nbf" with
    | Some e => if time <? (e - l) * period then Err expired else Ok tt
    | None => Ok tt
    end.
Proof.
  intros Hp [Hn|[e He]] Hl Hf; unfold numeric_date in *.
  - rewrite Hn. by apply check_not_before_absent.
  - rewrite He in *. apply check_not_before_exact; auto.
Qed.

Lemma verifier_verify_expired v time jwt alg a le li ln :
  0 < period →
  get_algorithm jwt = Ok alg → algs v !! alg = Some a →
  algo_verify a (signing_input jwt) (signature jwt) = Ok tt →
  numeric_or_absent jwt "exp" → numeric_or_absent jwt "iat" →
  numeric_or_absent jwt "nbf" →
  claimed_leeway v "exp" = Ok le → claimed_leeway v "iat" = Ok li →
  claimed_leeway v "nbf" = Ok ln →
  (∀ e, numeric_date jwt "exp" = Some e → ticks_fit e le) →
  (∀ e, numeric_date jwt "iat" = Some e → ticks_fit e li) →
  (∀ e, numeric_date jwt "nbf" = Some e → ticks_fit e ln) →
  verifier_verify v time jwt = Err expired ↔
    (∃ e, numeric_date jwt "exp" = Some e ∧ time > (e + le) * period)
    ∨ (∃ e, numeric_date jwt "iat" = Some e ∧ time < (e - li) * period)
    ∨ (∃ e, numeric_date jwt "nbf" = Some e ∧ time < (e - ln) * period).
Proof.
  intros Hp Halg Ha Hsig Texp Tiat Tnbf Hle Hli Hln Fle Fli Fln.
  rewrite (verifier_verify_after_signature _ _ _ _ _ Halg Ha Hsig).
  rewrite (check_expires_at_cases _ _ _ _ Hp Texp Hle Fle),
    (check_issued_at_cases _ _ _ _ Hp Tiat Hli Fli),
    (check_not_before_cases _ _ _ _ Hp Tnbf Hln Fln).
  pose proof (check_claims_not_expired jwt (iteration (claims v))) as Hloop.
  clear Fle Fli Fln.
  destruct (numeric_date jwt "exp") as [e1|];
    [destruct (Z.gtb_spec time ((e1 + le) * period))|];
    cbn [mbind result_bind];
    (destruct (numeric_date jwt "iat") as [e2|];
      [destruct (Z.ltb_spec time ((e2 - li) * period))|]);
    cbn [mbind result_bind];
    (destruct (numeric_date jwt "nbf") as [e3|];
      [destruct (Z.ltb_spec time ((e3 - ln) * period))|]);
    cbn [mbind result_bind];
    (split; [intros Hv | intros Hor]);
    try done; try (by eauto 6); try (by (left; eexists; split; [done|lia]));
    try (destruct Hor as [[? [[= <-] ?]] | [[? [[= <-] ?]] | [? [[= <-] ?]]]]; lia);
    try (destruct Hor as [[? [[=] ?]] | [[? [[=] ?]] | [? [[=] ?]]]]; lia).
Qed.

(** C4 (amended): a time check is skipped when the token lacks the claim;
    the leeway of a check is the override stored for its name when there
    is one (the value given to [expires_at_leeway], [issued_at_leeway] or
    [not_before_leeway], as long as its tick count is representable) and
    the default leeway otherwise.  The comparison is made on 64-bit tick
    counts: the "exp" check fails exactly when [now] is after the claim
    plus the leeway, the "iat" and "nbf" checks exactly when [now] is
    before the claim minus the leeway, each sum and difference taken with
    wrap-around.  With integer time claims and leeways whose tick counts
    are representable ([ticks_fit]) these are the inequalities
    [now > exp + leeway], [now < iat - leeway] and [now < nbf - leeway].
    All three fail with the one error
    [token_verification_exception("token expired")], which is also what
    [verify] returns in exactly these cases once the signature is accepted.
    A token with [exp = now - 1s] fails under default leeway 0 and passes
    the check with an "exp" leeway of 2 or more. *)
Theorem C4_time_checks_share_one_error (v : verifier) (time : time_point)
    (jwt : decoded_jwt) :
  0 < period →
  (payload_claims jwt !! "exp" = None → check_expires_at v time jwt = Ok tt)
  ∧ (payload_claims jwt !! "iat" = None → check_issued_at v time jwt = Ok tt)
  ∧ (payload_claims jwt !! "nbf" = None → check_not_before v time jwt = Ok tt)
  ∧ (∀ name, claims v !! name = None → claimed_leeway v name = Ok (default_leeway v))
  ∧ (∀ l, 0 ≤ l → int64_range (l * period) →
          claimed_leeway (expires_at_leeway l v) "exp" = Ok l
          ∧ claimed_leeway (issued_at_leeway l v) "iat" = Ok l
          ∧ claimed_leeway (not_before_leeway l v) "nbf" = Ok l)
  ∧ (∀ e l, payload_claims jwt !! "exp" = Some (Claim (Int64 e)) →
            claimed_leeway v "exp" = Ok l → 0 ≤ l < 2 ^ 63 →
            (check_expires_at v time jwt = Err expired
             ↔ time > time_point_plus (from_time_t e) (seconds l))
            ∧ (check_expires_at v time jwt = Ok tt
               ↔ time ≤ time_point_plus (from_time_t e) (seconds l)))
  ∧ (∀ e l, payload_claims jwt !! "iat" = Some (Claim (Int64 e)) →
            claimed_leeway v "iat" = Ok l → 0 ≤ l < 2 ^ 63 →
            (check_issued_at v time jwt = Err expired
             ↔ time < time_point_minus (from_time_t e) (seconds l))
            ∧ (check_issued_at v time jwt = Ok tt
               ↔ time_point_minus (from_time_t e) (seconds l) ≤ time))
  ∧ (∀ e l, payload_claims jwt !! "nbf" = Some (Claim (Int64 e)) →
            claimed_leeway v "nbf" = Ok l → 0 ≤ l < 2 ^ 63 →
            (check_not_before v time jwt = Err expired
             ↔ time < time_point_minus (from_time_t e) (seconds l))
            ∧ (check_not_before v time jwt = Ok tt
               ↔ time_point_minus (from_time_t e) (seconds l) ≤ time))
  ∧ (∀ e l, ticks_fit e l →
            time_point_plus (from_time_t e) (seconds l) = (e + l) * period
            ∧ time_point_minus (from_time_t e) (seconds l) = (e - l) * period)
  ∧ (∀ e l, payload_claims jwt !! "exp" = Some (Claim (Int64 e)) →
            claimed_leeway v "exp" = Ok l → ticks_fit e l →
            (check_expires_at v time jwt = Err expired ↔ time > (e + l) * period)
            ∧ (check_expires_at v time jwt = Ok tt ↔ time ≤ (e + l) * period))
  ∧ (∀ e l, payload_claims jwt !! "iat" = Some (Claim (Int64 e)) →
            claimed_leeway v "iat" = Ok l → ticks_fit e l →
            (check_issued_at v time jwt = Err expired ↔ time < (e - l) * period)
            ∧ (check_issued_at v time jwt = Ok tt ↔ (e - l) * period ≤ time))
  ∧ (∀ e l, payload_claims jwt !! "nbf" = Some (Claim (Int64 e)) →
            claimed_leeway v "nbf" = Ok l → ticks_fit e l →
            (check_not_before v time jwt = Err expired ↔ time < (e - l) * period)
            ∧ (check_not_before v time jwt = Ok tt ↔ (e - l) * period ≤ time))
  ∧ (∀ alg a le li ln,
        get_algorithm jwt = Ok alg → algs v !! alg = Some a →
        algo_verify a (signing_input jwt) (signature jwt) = Ok tt →
        numeric_or_absent jwt "exp" → numeric_or_absent jwt "iat" →
        numeric_or_absent jwt "nbf" →
        claimed_leeway v "exp" = Ok le → claimed_leeway v "iat" = Ok li →
        claimed_leeway v "nbf" = Ok ln →
        (∀ e, numeric_date jwt "exp" = Some e → ticks_fit e le) →
        (∀ e, numeric_date jwt "iat" = Some e → ticks_fit e li) →
        (∀ e, numeric_date jwt "nbf" = Some e → ticks_fit e ln) →
        verifier_verify v time jwt = Err expired ↔
          (∃ e, numeric_date jwt "exp" = Some e ∧ time > (e + le) * period)
          ∨ (∃ e, numeric_date jwt "iat" = Some e ∧ time < (e - li) * period)
          ∨ (∃ e, numeric_date jwt "nbf" = Some e ∧ time < (e - ln) * period))
  ∧ (∀ e, payload_claims jwt !! "exp" = Some (Claim (Int64 e)) →
          time = (e + 1) * period →
          (claims v !! "exp" = None → default_leeway v = 0 → ticks_fit e 0 →
           check_expires_at v time jwt = Err expired)
          ∧ (∀ l, 2 ≤ l → ticks_fit e l →
                  check_expires_at (expires_at_leeway l v) time jwt = Ok tt)).
Proof.
  intros Hperiod.
  assert (∀ l, 0 ≤ l → int64_range (l * period) →
               claimed_leeway (expires_at_leeway l v) "exp" = Ok l
               ∧ claimed_leeway (issued_at_leeway l v) "iat" = Ok l
               ∧ claimed_leeway (not_before_leeway l v) "nbf" = Ok l) as Hover.
  { intros l Hl Hr. split_and!; apply claimed_leeway_override; try done;
      apply lookup_insert_eq. }
  split_and!.
  - apply check_expires_at_absent.
  - apply check_issued_at_absent.
  - apply check_not_before_absent.
  - intros name. apply claimed_leeway_default.
  - done.
  - intros e l He Hl Hr. rewrite (check_expires_at_present _ _ _ _ _ He Hl Hr).
    destruct (Z.gtb_spec time (time_point_plus (from_time_t e) (seconds l)));
      split; split; (done || lia).
  - intros e l He Hl Hr. rewrite (check_issued_at_present _ _ _ _ _ He Hl Hr).
    destruct (Z.ltb_spec time (time_point_minus (from_time_t e) (seconds l)));
      split; split; (done || lia).
  - intros e l He Hl Hr. rewrite (check_not_before_present _ _ _ _ _ He Hl Hr).
    destruct (Z.ltb_spec time (time_point_minus (from_time_t e) (seconds l)));
      split; split; (done || lia).
  - intros e l Hf. split; [by apply ticks_fit_plus|by apply ticks_fit_minus].
  - intros e l He Hl Hf. rewrite (check_expires_at_exact _ _ _ _ _ Hperiod He Hl Hf).
    destruct (Z.gtb_spec time ((e + l) * period)); split; split; (done || lia).
  - intros e l He Hl Hf. rewrite (check_issued_at_exact _ _ _ _ _ Hperiod He Hl Hf).
    destruct (Z.ltb_spec time ((e - l) * period)); split; split; (done || lia).
  - intros e l He Hl Hf. rewrite (check_not_before_exact _ _ _ _ _ Hperiod He Hl Hf).
    destruct (Z.ltb_spec time ((e - l) * period)); split; split; (done || lia).
  - intros alg a le li ln. by apply verifier_verify_expired.
  - intros e He ->. split.
    + intros Hn Hd Hf.
      rewrite (check_expires_at_exact _ _ _ e 0 Hperiod He); [| |done].
      * destruct (Z.gtb_spec ((e + 1) * period) ((e + 0) * period)); [done|nia].
      * by rewrite claimed_leeway_default, Hd.
    + intros l Hl Hf. destruct (Hover l) as (Hl1 & _ & _); [lia|apply Hf|].
      rewrite (check_expires_at_exact _ _ _ e l Hperiod He Hl1 Hf).
      destruct (Z.gtb_spec ((e + 1) * period) ((e + l) * period)); [nia|done].
Qed.

(** *** Audience *)

Lemma elem_of_set_iteration (s : gset string) (e : string) :
  e ∈ set_iteration s ↔ e ∈ s.
Proof. unfold set_iteration. by rewrite merge_sort_Permutation, elem_of_elements. Qed.

Lemma as_set_loop_strings (l : list string) (res : gset string) :
  as_set_loop (Str <$> l) res = Ok (list_to_set l ∪ res).
Proof.
  revert res. induction l as [|x l IH]; intros res; simpl.
  - f_equal. set_solver.
  - rewrite IH. f_equal. set_solver.
Qed.

Lemma as_set_claim_of_set (s : gset string) : as_set (claim_of_set s) = Ok s.
Proof.
  unfold as_set, claim_of_set, as_array. cbn [to_json mbind result_bind].
  rewrite as_set_loop_strings. f_equal.
  apply set_eq. intros e. rewrite elem_of_union, elem_of_list_to_set, elem_of_set_iteration.
  set_solver.
Qed.

Lemma check_expected_Ok (aud : gset string) (expected : list string) :
  check_expected aud expected = Ok tt ↔ ∀ e, e ∈ expected → e ∈ aud.
Proof.
  induction expected as [|x expected IH]; simpl.
  - split; [|done]. intros _ e He. by apply elem_of_nil in He.
  - destruct (decide (x ∈ aud)) as [Hin|Hout].
    + rewrite bool_decide_eq_false_2 by (by intros ?). rewrite IH. split.
      * intros Hall e [->|He]%elem_of_cons; auto.
      * intros Hall e He. apply Hall. by right.
    + rewrite bool_decide_eq_true_2 by done. split; [done|].
      intros Hall. destruct Hout. apply Hall. by left.
Qed.

Lemma get_audience_string jwt s :
  payload_claims jwt !! "aud" = Some (Claim (Str s)) → get_audience jwt = Ok {[ s ]}.
Proof. intros Ha. unfold get_audience. by rewrite (get_payload_claim_Some _ _ _ Ha). Qed.

Lemma get_audience_array jwt l :
  payload_claims jwt !! "aud" = Some (Claim (Array (Str <$> l))) →
  get_audience jwt = Ok (list_to_set l).
Proof.
  intros Ha. unfold get_audience. rewrite (get_payload_claim_Some _ _ _ Ha).
  cbn [mbind result_bind]. rewrite decide_False by done.
  unfold as_set, as_array. cbn [to_json mbind result_bind].
  rewrite as_set_loop_strings. f_equal. set_solver.
Qed.

Lemma get_audience_present jwt aud :
  get_audience jwt = Ok aud → payload_claims jwt !! "aud" ≠ None.
Proof.
  unfold get_audience, get_payload_claim. intros Hg Hn.
  rewrite (has_payload_claim_false _ _ Hn) in Hg. done.
Qed.

Lemma check_claim_aud jwt (expected : gset string) :
  check_claim jwt ("aud", claim_of_set expected)
  = if negb (has_audience jwt) then Err audience_missing
    else aud ← get_audience jwt;
         if bool_decide (expected ⊆ aud) then Ok tt else Err audience_missing.
Proof.
  unfold check_claim. cbn [fst snd]. change (String.eqb "aud" "exp") with false.
  change (String.eqb "aud" "iat") with false. change (String.eqb "aud" "nbf") with false.
  change (String.eqb "aud" "aud") with true. cbn [orb].
  destruct (negb (has_audience jwt)); [done|].
  destruct (get_audience jwt) as [aud|e]; [|done]. cbn [mbind result_bind].
  rewrite as_set_claim_of_set. cbn [mbind result_bind].
  destruct (check_expected_cases aud (set_iteration expected)) as [HOk|HErr].
  - rewrite HOk. rewrite bool_decide_eq_true_2; [done|].
    intros e He. eapply check_expected_Ok; [done|]. by apply elem_of_set_iteration.
  - rewrite HErr. rewrite bool_decide_eq_false_2; [done|].
    intros Hsub. assert (check_expected aud (set_iteration expected) = Ok tt) as HOk.
    { apply check_expected_Ok. intros e He%elem_of_set_iteration. by apply Hsub. }
    congruence.
Qed.

Lemma check_claims_iteration_Ok jwt (m : gmap string claim) :
  (∀ m', iteration m' ≡ₚ map_to_list m') →
  check_claims jwt (iteration m) = Ok tt
  ↔ ∀ k c, m !! k = Some c → check_claim jwt (k, c) = Ok tt.
Proof.
  intros Hperm. rewrite check_claims_Ok, Forall_forall. split.
  - intros Hall k c Hk. apply Hall. rewrite Hperm. by apply elem_of_map_to_list.
  - intros Hall [k c] Hin. apply Hall. rewrite Hperm in Hin.
    by apply elem_of_map_to_list in Hin.
Qed.

Lemma verifier_verify_Ok_iff v time jwt :
  verifier_verify v time jwt = Ok tt ↔
    (∃ alg a, get_algorithm jwt = Ok alg ∧ algs v !! alg = Some a
              ∧ algo_verify a (signing_input jwt) (signature jwt) = Ok tt)
    ∧ check_expires_at v time jwt = Ok tt
    ∧ check_issued_at v time jwt = Ok tt
    ∧ check_not_before v time jwt = Ok tt
    ∧ check_claims jwt (iteration (claims v)) = Ok tt.
Proof.
  split.
  - intros Hv. destruct (verifier_verify_Ok_signature _ _ _ Hv) as (alg & a & Halg & Ha & Hsig).
    split; [by eauto|].
    rewrite (verifier_verify_after_signature _ _ _ _ _ Halg Ha Hsig) in Hv.
    destruct (check_expires_at v time jwt) as [[]|]; [|done].
    destruct (check_issued_at v time jwt) as [[]|]; [|done].
    destruct (check_not_before v time jwt) as [[]|]; [|done]. done.
  - intros ((alg & a & Halg & Ha & Hsig) & He & Hi & Hn & Hc).
    rewrite (verifier_verify_after_signature _ _ _ _ _ Halg Ha Hsig).
    by rewrite He, Hi, Hn.
Qed.

(** C8: the audience requirement [with_audience(expected)] holds of a token
    exactly when the token has an "aud" claim whose audience set (the
    singleton of a string claim, the elements of an array of strings)
    includes every expected audience; a token without "aud" and a token
    whose audience set misses an expected audience are refused; further
    audiences in the token do not matter, so expecting {a, b} accepts
    {a, b, c} and refuses {a}.  A successful [verify] of a verifier holding
    the requirement implies the inclusion. *)
Theorem C8_audience_must_include_expected (jwt : decoded_jwt) (expected : gset string) :
  (check_claim jwt ("aud", claim_of_set expected) = Ok tt ↔
     payload_claims jwt !! "aud" ≠ None
     ∧ ∃ aud, get_audience jwt = Ok aud ∧ expected ⊆ aud)
  ∧ (payload_claims jwt !! "aud" = None →
     check_claim jwt ("aud", claim_of_set expected) = Err audience_missing)
  ∧ (∀ aud, get_audience jwt = Ok aud → ¬ expected ⊆ aud →
            check_claim jwt ("aud", claim_of_set expected) = Err audience_missing)
  ∧ (∀ s, payload_claims jwt !! "aud" = Some (Claim (Str s)) →
          get_audience jwt = Ok {[ s ]})
  ∧ (∀ l, payload_claims jwt !! "aud" = Some (Claim (Array (Str <$> l))) →
          get_audience jwt = Ok (list_to_set l))
  ∧ (∀ v : verifier,
        claims (with_audience expected v) !! "aud" = Some (claim_of_set expected))
  ∧ (∀ (v : verifier) (time : time_point),
        (∀ m, iteration m ≡ₚ map_to_list m) →
        claims v !! "aud" = Some (claim_of_set expected) →
        verifier_verify v time jwt = Ok tt →
        ∃ aud, get_audience jwt = Ok aud ∧ expected ⊆ aud)
  ∧ (expected = {[ "a"; "b" ]} →
     (payload_claims jwt !! "aud" = Some (claim_of_set {[ "a"; "b"; "c" ]}) →
      check_claim jwt ("aud", claim_of_set expected) = Ok tt)
     ∧ (payload_claims jwt !! "aud" = Some (claim_of_set {[ "a" ]}) →
        check_claim jwt ("aud", claim_of_set expected) = Err audience_missing)).
Proof.
  assert (check_claim jwt ("aud", claim_of_set expected) = Ok tt ↔
            payload_claims jwt !! "aud" ≠ None
            ∧ ∃ aud, get_audience jwt = Ok aud ∧ expected ⊆ aud) as Hiff.
  { rewrite check_claim_aud. unfold has_audience. split.
    - destruct (payload_claims jwt !! "aud") as [c|] eqn:Hc.
      + rewrite (has_payload_claim_true _ _ _ Hc). cbn [negb].
        destruct (get_audience jwt) as [aud|]; [|done]. cbn [mbind result_bind].
        destruct (decide (expected ⊆ aud)) as [Hs|Hs].
        * intros _. split; [done|]. by exists aud.
        * by rewrite bool_decide_eq_false_2.
      + by rewrite has_payload_claim_false.
    - intros [Hp (aud & Ha & Hs)].
      destruct (payload_claims jwt !! "aud") as [c|] eqn:Hc; [|done].
      rewrite (has_payload_claim_true _ _ _ Hc), Ha. cbn [negb mbind result_bind].
      by rewrite bool_decide_eq_true_2. }
  assert (∀ aud, get_audience jwt = Ok aud → ¬ expected ⊆ aud →
                 check_claim jwt ("aud", claim_of_set expected) = Err audience_missing)
    as Hmiss.
  { intros aud Ha Hs. rewrite check_claim_aud. unfold has_audience.
    destruct (payload_claims jwt !! "aud") as [c|] eqn:Hc;
      [|by apply get_audience_present in Ha].
    rewrite (has_payload_claim_true _ _ _ Hc), Ha. cbn [negb mbind result_bind].
    by rewrite bool_decide_eq_false_2. }
  assert (∀ s : gset string, payload_claims jwt !! "aud" = Some (claim_of_set s) →
                             get_audience jwt = Ok s) as Hset.
  { intros s Hs. unfold claim_of_set in Hs. rewrite (get_audience_array _ _ Hs).
    f_equal. apply set_eq. intros e. by rewrite elem_of_list_to_set, elem_of_set_iteration. }
  split_and!.
  - done.
  - intros Hn. rewrite check_claim_aud. unfold has_audience.
    by rewrite has_payload_claim_false.
  - done.
  - apply get_audience_string.
  - apply get_audience_array.
  - intros v. apply lookup_insert_eq.
  - intros v time Hperm Hc Hv. apply verifier_verify_Ok_iff in Hv as (_ & _ & _ & _ & Hloop).
    rewrite (check_claims_iteration_Ok _ _ Hperm) in Hloop.
    apply Hloop in Hc. by apply Hiff in Hc as [_ ?].
  - intros ->. split.
    + intros Ha. apply Hiff. split; [by rewrite Ha|].
      eexists. split; [by apply Hset|]. set_solver.
    + intros Ha. apply (Hmiss {[ "a" ]}); [by apply Hset|]. 
      intros Hs. assert ("b" ∈ ({[ "a" ]} : gset string)) as Hb by set_solver.
      by apply elem_of_singleton in Hb.
Qed.

(** *** The shared map of required claims and leeways *)

Lemma claimed_leeway_ext v v' name :
  claims v !! name = claims v' !! name → default_leeway v = default_leeway v' →
  claimed_leeway v name = claimed_leeway v' name.
Proof. intros Hc Hd. unfold claimed_leeway. by rewrite Hc, Hd. Qed.

Lemma check_expires_at_ext v v' time jwt :
  claims v !! "exp" = claims v' !! "exp" → default_leeway v = default_leeway v' →
  check_expires_at v time jwt = check_expires_at v' time jwt.
Proof.
  intros Hc Hd. unfold check_expires_at. by rewrite (claimed_leeway_ext v v').
Qed.

Lemma check_issued_at_ext v v' time jwt :
  claims v !! "iat" = claims v' !! "iat" → default_leeway v = default_leeway v' →
  check_issued_at v time jwt = check_issued_at v' time jwt.
Proof.
  intros Hc Hd. unfold check_issued_at. by rewrite (claimed_leeway_ext v v').
Qed.

Lemma check_not_before_ext v v' time jwt :
  claims v !! "nbf" = claims v' !! "nbf" → default_leeway v = default_leeway v' →
  check_not_before v time jwt = check_not_before v' time jwt.
Proof.
  intros Hc Hd. unfold check_not_before. by rewrite (claimed_leeway_ext v v').
Qed.

Lemma check_claim_time_name jwt name c :
  time_name name → check_claim jwt (name, c) = Ok tt.
Proof. by intros [->|[->| ->]]. Qed.

Lemma check_claims_insert_time_name jwt (m : gmap string claim) name c :
  (∀ m', iteration m' ≡ₚ map_to_list m') → time_name name →
  check_claims jwt (iteration (<[name := c]> m)) = Ok tt
  ↔ check_claims jwt (iteration m) = Ok tt.
Proof.
  intros Hperm Hname. rewrite !check_claims_iteration_Ok by done. split.
  - intros Hall k c' Hk. destruct (decide (k = name)) as [->|Hne].
    + by apply check_claim_time_name.
    + apply Hall. by rewrite lookup_insert_ne.
  - intros Hall k c' Hk. destruct (decide (k = name)) as [->|Hne].
    + by apply check_claim_time_name.
    + apply Hall. by rewrite lookup_insert_ne in Hk.
Qed.

Lemma check_claims_delete_time_names jwt (m : gmap string claim) :
  (∀ m', iteration m' ≡ₚ map_to_list m') →
  check_claims jwt (iteration m) = Ok tt
  ↔ check_claims jwt (iteration (delete "exp" (delete "nbf" (delete "iat" m)))) = Ok tt.
Proof.
  intros Hperm. rewrite !check_claims_iteration_Ok by done. split.
  - intros Hall k c Hk.
    apply lookup_delete_Some in Hk as [_ Hk]. apply lookup_delete_Some in Hk as [_ Hk].
    apply lookup_delete_Some in Hk as [_ Hk]. by apply Hall.
  - intros Hall k c Hk.
    destruct (decide (k = "exp")) as [->|?]; [done|].
    destruct (decide (k = "nbf")) as [->|?]; [done|].
    destruct (decide (k = "iat")) as [->|?]; [done|].
    apply Hall. by rewrite !lookup_delete_ne.
Qed.

Lemma verifier_verify_with_time_claim v time jwt name c :
  (∀ m, iteration m ≡ₚ map_to_list m) → time_name name →
  payload_claims jwt !! name = None →
  verifier_verify (with_claim name c v) time jwt = Ok tt
  ↔ verifier_verify v time jwt = Ok tt.
Proof.
  intros Hperm Hname Habs. rewrite !verifier_verify_Ok_iff.
  cbn [with_claim claims algs].
  rewrite (check_claims_insert_time_name _ _ _ _ Hperm Hname).
  destruct Hname as [->|[->| ->]].
  - rewrite !(check_expires_at_absent _ _ _ Habs).
    rewrite (check_issued_at_ext (with_claim "exp" c v) v),
      (check_not_before_ext (with_claim "exp" c v) v); try done;
      cbn [with_claim claims]; by rewrite lookup_insert_ne.
  - rewrite !(check_issued_at_absent _ _ _ Habs).
    rewrite (check_expires_at_ext (with_claim "iat" c v) v),
      (check_not_before_ext (with_claim "iat" c v) v); try done;
      cbn [with_claim claims]; by rewrite lookup_insert_ne.
  - rewrite !(check_not_before_absent _ _ _ Habs).
    rewrite (check_expires_at_ext (with_claim "nbf" c v) v),
      (check_issued_at_ext (with_claim "nbf" c v) v); try done;
      cbn [with_claim claims]; by rewrite lookup_insert_ne.
Qed.

(** C10: required claims and leeway overrides live in the one map
    [claims].  [expires_at_leeway], [not_before_leeway] and
    [issued_at_leeway] are [with_claim] on "exp", "nbf" and "iat"; a claim
    stored under one of these names by [with_claim] is read as a date and
    its seconds are the leeway of the matching time check; the loop over
    the required claims does nothing for these names, so its outcome is
    that of the map without them, and a token that lacks such a claim is
    accepted or refused as if nothing had been stored. *)
Theorem C10_time_names_are_leeways_not_requirements (v : verifier)
    (time : time_point) (jwt : decoded_jwt) :
  (∀ m, iteration m ≡ₚ map_to_list m) →
  (∀ l, expires_at_leeway l v = with_claim "exp" (claim_of_date (from_time_t (to_int64 l))) v
        ∧ not_before_leeway l v
          = with_claim "nbf" (claim_of_date (from_time_t (to_int64 l))) v
        ∧ issued_at_leeway l v
          = with_claim "iat" (claim_of_date (from_time_t (to_int64 l))) v)
  ∧ (∀ name c,
        claimed_leeway (with_claim name c v) name
        = (d ← as_date c; Ok (to_size_t (to_time_t d))))
  ∧ (∀ name c, time_name name → check_claim jwt (name, c) = Ok tt)
  ∧ (check_claims jwt (iteration (claims v)) = Ok tt
     ↔ check_claims jwt (iteration (delete "exp" (delete "nbf" (delete "iat" (claims v)))))
       = Ok tt)
  ∧ (∀ name c, time_name name → payload_claims jwt !! name = None →
               verifier_verify (with_claim name c v) time jwt = Ok tt
               ↔ verifier_verify v time jwt = Ok tt)
  ∧ (∀ c e, payload_claims jwt !! "exp" = Some (Claim (Int64 e)) →
            check_expires_at (with_claim "exp" c v) time jwt
            = (d ← as_date c;
               if time >? time_point_plus (from_time_t e)
                            (seconds (to_int64 (to_size_t (to_time_t d))))
               then Err expired else Ok tt))
  ∧ (∀ c e, payload_claims jwt !! "nbf" = Some (Claim (Int64 e)) →
            check_not_before (with_claim "nbf" c v) time jwt
            = (d ← as_date c;
               if time <? time_point_minus (from_time_t e)
                            (seconds (to_int64 (to_size_t (to_time_t d))))
               then Err expired else Ok tt))
  ∧ (∀ c e, payload_claims jwt !! "iat" = Some (Claim (Int64 e)) →
            check_issued_at (with_claim "iat" c v) time jwt
            = (d ← as_date c;
               if time <? time_point_minus (from_time_t e)
                            (seconds (to_int64 (to_size_t (to_time_t d))))
               then Err expired else Ok tt)).
Proof.
  intros Hperm. split_and!.
  - done.
  - intros name c. unfold claimed_leeway. cbn [with_claim claims].
    by rewrite lookup_insert_eq.
  - intros name c. apply check_claim_time_name.
  - by apply check_claims_delete_time_names.
  - intros name c. by apply verifier_verify_with_time_claim.
  - intros c e He. unfold check_expires_at, has_expires_at, get_expires_at, claimed_leeway.
    rewrite (has_payload_claim_true _ _ _ He), (get_payload_claim_Some _ _ _ He).
    cbn [with_claim claims]. rewrite lookup_insert_eq.
    destruct (as_date c) as [d|]; done.
  - intros c e He. unfold check_not_before, has_not_before, get_not_before, claimed_leeway.
    rewrite (has_payload_claim_true _ _ _ He), (get_payload_claim_Some _ _ _ He).
    cbn [with_claim claims]. rewrite lookup_insert_eq.
    destruct (as_date c) as [d|]; done.
  - intros c e He. unfold check_issued_at, has_issued_at, get_issued_at, claimed_leeway.
    rewrite (has_payload_claim_true _ _ _ He), (get_payload_claim_Some _ _ _ He).
    cbn [with_claim claims]. rewrite lookup_insert_eq.
    destruct (as_date c) as [d|]; done.
Qed.
End verifier_facts.

(** * The reference base64url codec

    The executable codec of [Reference] keeps [base64url_round_trip] for
    every text: the contract that the round trip of a token relies on is
    not an empty one. *)

Section reference_base64url.
Import Reference.
#[local] Existing Instance base64url.
#[local] Open Scope N_scope.

Lemma no_fill_in_body (body rest : string) :
  count_char "=" body = 0%nat →
  ∀ i, (i < String.length body)%nat → String.substring i 1 (body +:+ rest) ≠ "=".
Proof.
  induction body as [|a body IH]; intros Hcount i Hi; simpl in *; [lia|].
  destruct (Ascii.eqb_spec a "=") as [->|Hne]; [done|].
  destruct i as [|i].
  - destruct (body +:+ rest); intros [= ?]; done.
  - apply IH; [done|lia].
Qed.

Lemma digit_char (k : N) :
  k < 64 →
  ∃ ch, digit k = String ch "" ∧ value_of ch = Some k ∧ ch ≠ "="%char ∧ ch ≠ "."%char.
Proof.
  intros Hk. rewrite <- (N2Nat.id k).
  assert (N.to_nat k < 64)%nat as Hn by lia. revert Hn. generalize (N.to_nat k) as n.
  intros n Hn.
  do 64 (destruct n as [|n];
         [eexists; split_and!; [reflexivity|reflexivity|discriminate|discriminate]|]).
  lia.
Qed.

Lemma chunk_of_three (a b c : N) :
  a < 256 → b < 256 → c < 256 →
  let n := a * 65536 + b * 256 + c in
  n / 262144 < 64 ∧ n / 4096 mod 64 < 64 ∧ n / 64 mod 64 < 64 ∧ n mod 64 < 64
  ∧ (let m := n / 262144 * 262144 + n / 4096 mod 64 * 4096 + n / 64 mod 64 * 64 + n mod 64 in
     m / 65536 = a ∧ m / 256 mod 256 = b ∧ m mod 256 = c).
Proof. intros Ha Hb Hc n. subst n. cbv zeta. zify. Z.to_euclidean_division_equations. lia. Qed.

Lemma chunk_of_two (a b : N) :
  a < 256 → b < 256 →
  let n := a * 65536 + b * 256 in
  n / 262144 < 64 ∧ n / 4096 mod 64 < 64 ∧ n / 64 mod 64 < 64
  ∧ (let m := n / 262144 * 262144 + n / 4096 mod 64 * 4096 + n / 64 mod 64 * 64 in
     m / 65536 = a ∧ m / 256 mod 256 = b).
Proof. intros Ha Hb n. subst n. cbv zeta. zify. Z.to_euclidean_division_equations. lia. Qed.

Lemma chunk_of_one (a : N) :
  a < 256 →
  let n := a * 65536 in
  n / 262144 < 64 ∧ n / 4096 mod 64 < 64
  ∧ (let m := n / 262144 * 262144 + n / 4096 mod 64 * 4096 in m / 65536 = a).
Proof. intros Ha n. subst n. cbv zeta. zify. Z.to_euclidean_division_equations. lia. Qed.
Lemma list3_ind {A : Type} (P : list A → Prop) :
  P [] → (∀ a, P [a]) → (∀ a b, P [a; b]) →
  (∀ a b c l, P l → P (a :: b :: c :: l)) → ∀ l, P l.
Proof.
  intros H0 H1 H2 H3 l.
  assert (P l ∧ (∀ a, P (a :: l)) ∧ ∀ a b, P (a :: b :: l)) as [? _]; [|done].
  induction l as [|x l (IH0 & IH1 & IH2)]; [by auto|].
  split_and!; [apply IH1 | intros a; apply IH2 | intros a b; by apply H3].
Qed.

Lemma encode_bytes_one (a : ascii) :
  ∃ c1 c2,
    encode_bytes [N_of_ascii a] = String c1 (String c2 "==")
    ∧ decode_chars [c1; c2; "="%char; "="%char] = Some [a]
    ∧ count_char "." (String c1 (String c2 "")) = 0%nat
    ∧ count_char "=" (String c1 (String c2 "")) = 0%nat.
Proof.
  pose proof (N_ascii_bounded a) as Ha.
  destruct (chunk_of_one _ Ha) as (H1 & H2 & Hm).
  destruct (digit_char _ H1) as (c1 & D1 & V1 & E1 & P1).
  destruct (digit_char _ H2) as (c2 & D2 & V2 & E2 & P2).
  exists c1, c2. cbn [encode_bytes]. cbv zeta. rewrite D1, D2. split_and!.
  - done.
  - cbn [decode_chars]. rewrite V1, V2. cbn [mbind option_bind].
    unfold bytes_of. cbn [take]. cbv zeta in Hm. rewrite Hm.
    by rewrite ascii_N_embedding.
  - cbn [count_char].
    destruct (Ascii.eqb_spec c1 "."), (Ascii.eqb_spec c2 "."); done.
  - cbn [count_char].
    destruct (Ascii.eqb_spec c1 "="), (Ascii.eqb_spec c2 "="); done.
Qed.

Lemma encode_bytes_two (a b : ascii) :
  ∃ c1 c2 c3,
    encode_bytes [N_of_ascii a; N_of_ascii b] = String c1 (String c2 (String c3 "="))
    ∧ decode_chars [c1; c2; c3; "="%char] = Some [a; b]
    ∧ count_char "." (String c1 (String c2 (String c3 ""))) = 0%nat
    ∧ count_char "=" (String c1 (String c2 (String c3 ""))) = 0%nat.
Proof.
  pose proof (N_ascii_bounded a) as Ha. pose proof (N_ascii_bounded b) as Hb.
  destruct (chunk_of_two _ _ Ha Hb) as (H1 & H2 & H3 & Hm).
  destruct (digit_char _ H1) as (c1 & D1 & V1 & E1 & P1).
  destruct (digit_char _ H2) as (c2 & D2 & V2 & E2 & P2).
  destruct (digit_char _ H3) as (c3 & D3 & V3 & E3 & P3).
  exists c1, c2, c3. cbn [encode_bytes]. cbv zeta. rewrite D1, D2, D3. split_and!.
  - done.
  - cbn [decode_chars]. rewrite V1, V2. cbn [mbind option_bind].
    destruct (Ascii.eqb_spec c3 "=") as [|_]; [done|].
    rewrite V3. cbn [mbind option_bind].
    unfold bytes_of. cbn [take]. cbv zeta in Hm. destruct Hm as [-> ->].
    by rewrite !ascii_N_embedding.
  - cbn [count_char].
    destruct (Ascii.eqb_spec c1 "."), (Ascii.eqb_spec c2 "."), (Ascii.eqb_spec c3 ".");
      done.
  - cbn [count_char].
    destruct (Ascii.eqb_spec c1 "="), (Ascii.eqb_spec c2 "="), (Ascii.eqb_spec c3 "=");
      done.
Qed.

Lemma decode_chars_more (c1 c2 c3 c4 x : ascii) (rest : list ascii) :
  decode_chars (c1 :: c2 :: c3 :: c4 :: x :: rest)
  = (v1 ← value_of c1; v2 ← value_of c2; v3 ← value_of c3; v4 ← value_of c4;
     tl ← decode_chars (x :: rest);
     Some (bytes_of (v1 * 262144 + v2 * 4096 + v3 * 64 + v4) 3 ++ tl)).
Proof. reflexivity. Qed.

Lemma encode_bytes_three (a b c : ascii) (l : list ascii) :
  ∃ c1 c2 c3 c4,
    encode_bytes (N_of_ascii <$> (a :: b :: c :: l))
    = String c1 (String c2 (String c3 (String c4 (encode_bytes (N_of_ascii <$> l)))))
    ∧ (∀ rest tl, decode_chars rest = Some tl →
                  decode_chars (c1 :: c2 :: c3 :: c4 :: rest) = Some (a :: b :: c :: tl))
    ∧ count_char "." (String c1 (String c2 (String c3 (String c4 "")))) = 0%nat
    ∧ count_char "=" (String c1 (String c2 (String c3 (String c4 "")))) = 0%nat.
Proof.
  pose proof (N_ascii_bounded a) as Ha. pose proof (N_ascii_bounded b) as Hb.
  pose proof (N_ascii_bounded c) as Hc.
  destruct (chunk_of_three _ _ _ Ha Hb Hc) as (H1 & H2 & H3 & H4 & Hm).
  destruct (digit_char _ H1) as (c1 & D1 & V1 & E1 & P1).
  destruct (digit_char _ H2) as (c2 & D2 & V2 & E2 & P2).
  destruct (digit_char _ H3) as (c3 & D3 & V3 & E3 & P3).
  destruct (digit_char _ H4) as (c4 & D4 & V4 & E4 & P4).
  exists c1, c2, c3, c4. cbv zeta in Hm. destruct Hm as (Ma & Mb & Mc).
  split_and!.
  - cbn [fmap list_fmap encode_bytes]. cbv zeta. by rewrite D1, D2, D3, D4.
  - intros rest tl Hrest. destruct rest as [|x rest].
    + injection Hrest as <-. cbn [decode_chars]. rewrite V1, V2. cbn [mbind option_bind].
      destruct (Ascii.eqb_spec c4 "=") as [|_]; [done|].
      rewrite V3, V4. cbn [mbind option_bind].
      unfold bytes_of. cbn [take]. rewrite Ma, Mb, Mc.
      by rewrite !ascii_N_embedding.
    + rewrite decode_chars_more, V1, V2, V3, V4, Hrest. cbn [mbind option_bind].
      unfold bytes_of. cbn [take app]. rewrite Ma, Mb, Mc.
      by rewrite !ascii_N_embedding.
  - cbn [count_char].
    destruct (Ascii.eqb_spec c1 "."), (Ascii.eqb_spec c2 "."), (Ascii.eqb_spec c3 "."),
      (Ascii.eqb_spec c4 "."); done.
  - cbn [count_char].
    destruct (Ascii.eqb_spec c1 "="), (Ascii.eqb_spec c2 "="), (Ascii.eqb_spec c3 "="),
      (Ascii.eqb_spec c4 "="); done.
Qed.

Lemma decode_encode_bytes (l : list ascii) :
  decode_chars (list_ascii_of_string (encode_bytes (N_of_ascii <$> l))) = Some l.
Proof.
  induction l as [|a|a b|a b c l IH] using list3_ind.
  - done.
  - destruct (encode_bytes_one a) as (c1 & c2 & He & Hd & _).
    cbn [fmap list_fmap]. rewrite He. exact Hd.
  - destruct (encode_bytes_two a b) as (c1 & c2 & c3 & He & Hd & _).
    cbn [fmap list_fmap]. rewrite He. exact Hd.
  - destruct (encode_bytes_three a b c l) as (c1 & c2 & c3 & c4 & He & Hd & _).
    rewrite He. cbn [list_ascii_of_string]. by apply Hd.
Qed.

Lemma encode_bytes_shape (l : list ascii) :
  ∃ (body : string) (k : nat),
    encode_bytes (N_of_ascii <$> l) = body +:+ repeat_string k "="
    ∧ (k < 4)%nat
    ∧ count_char "." body = 0%nat
    ∧ count_char "=" body = 0%nat
    ∧ (String.length (encode_bytes (N_of_ascii <$> l)) mod 4 = 0)%nat.
Proof.
  induction l as [|a|a b|a b c l IH] using list3_ind.
  - exists "", 0%nat. split_and!; (done || lia).
  - destruct (encode_bytes_one a) as (c1 & c2 & He & _ & Hdot & Hfill).
    exists (String c1 (String c2 "")), 2%nat. cbn [fmap list_fmap]. rewrite He.
    split_and!; (done || lia).
  - destruct (encode_bytes_two a b) as (c1 & c2 & c3 & He & _ & Hdot & Hfill).
    exists (String c1 (String c2 (String c3 ""))), 1%nat. cbn [fmap list_fmap]. rewrite He.
    split_and!; (done || lia).
  - destruct (encode_bytes_three a b c l) as (c1 & c2 & c3 & c4 & He & _ & Hdot & Hfill).
    destruct IH as (body & k & Hb & Hk & Hdot' & Hfill' & Hlen).
    exists (String c1 (String c2 (String c3 (String c4 body)))), k. rewrite He.
    split_and!.
    + by rewrite Hb.
    + done.
    + change (String c1 (String c2 (String c3 (String c4 body))))
        with (String c1 (String c2 (String c3 (String c4 ""))) +:+ body).
      rewrite count_char_app. lia.
    + change (String c1 (String c2 (String c3 (String c4 body))))
        with (String c1 (String c2 (String c3 (String c4 ""))) +:+ body).
      rewrite count_char_app. lia.
    + cbn [String.length].
      replace (S (S (S (S (String.length (encode_bytes (N_of_ascii <$> l))))))) 
        with (String.length (encode_bytes (N_of_ascii <$> l)) + 1 * 4)%nat by lia.
      by rewrite Nat.Div0.mod_add.
Qed.

Lemma reference_base64url_round_trip (data : string) : base64url_round_trip data.
Proof.
  unfold base64url_round_trip.
  cbn [base_decode base_encode base64url fill].
  destruct (encode_bytes_shape (list_ascii_of_string data))
    as (body & k & Hb & Hk & Hdot & Hfill & Hlen).
  split_and!.
  - by rewrite decode_encode_bytes, string_of_list_ascii_of_string.
  - done.
  - exists body, k. split_and!; try done.
    rewrite Hb. by apply no_fill_in_body.
Qed.
End reference_base64url.

(** * The properties on concrete tokens *)

Section examples.
Import Reference.
#[local] Existing Instance nanosecond_clock.
#[local] Existing Instance key_order.
#[local] Existing Instance base64url.
#[local] Existing Instance picojson.
#[local] Existing Instance plain_tls.

(** [ecdsa::sign] on a concrete call: the primitive reports success with
    (r, s) = (1, 2), the raw serialization at the P-256 width has 64 bytes,
    and the function returns the empty string. *)
Lemma ecdsa_sign_example :
  (ecdsa_sign es256_example "a.b").1 = Ok ""
  ∧ String.length (spec_raw_signature 32 1 2) = 64%nat.
Proof. split; reflexivity. Qed.

(** C1 on a token naming HS384, for a verifier that registered "none" only
    and for one that registered HS256 only. *)
Lemma C1_witness :
  verifier_verify none_verifier 0 (unsigned_jwt (alg_header "HS384") ∅)
  = Err (token_verification "wrong algorithm")
  ∧ verifier_verify (allow_algorithm (hs256 "secret") new_verifier) 0
      (unsigned_jwt (alg_header "HS384") ∅)
    = Err (token_verification "wrong algorithm").
Proof.
  split.
  - destruct (C1_verify_resolves_algorithm_first none_verifier 0
                (unsigned_jwt (alg_header "HS384") ∅)) as (Hunregistered & _).
    apply (Hunregistered "HS384"); reflexivity.
  - destruct (C1_verify_resolves_algorithm_first new_verifier 0
                (unsigned_jwt (alg_header "HS384") ∅)) as (_ & _ & _ & _ & _ & Hhs256).
    apply (Hhs256 _ "secret" "HS384"); [reflexivity | reflexivity | discriminate].
Defined.


(** The two tokens of the next lemma: unsigned, with header
    [{"alg":"none"}] and payload [{"exp":100}], respectively [{"nbf":100}]. *)
Lemma decode_time_tokens :
  (∃ jwt, decode "eyJhbGciOiJub25lIn0.eyJleHAiOjEwMH0." = Ok jwt
          ∧ get_algorithm jwt = Ok "none"
          ∧ payload_claims jwt = {[ "exp" := Claim (Int64 100) ]})
  ∧ (∃ jwt, decode "eyJhbGciOiJub25lIn0.eyJuYmYiOjEwMH0." = Ok jwt
            ∧ get_algorithm jwt = Ok "none"
            ∧ payload_claims jwt = {[ "nbf" := Claim (Int64 100) ]}).
Proof. split; eexists; split_and!; vm_compute; reflexivity. Qed.

(** C4 (the claim as stated fails): no two distinct errors separate an
    expired token from one that is not valid yet.  Decoding the first token
    and verifying it 200 s after the epoch, and decoding the second and
    verifying it 50 s after the epoch, end in the same exception. *)
Lemma C4_not_yet_valid_is_not_a_distinct_error :
  ¬ ∃ ExpiredToken NotYetValid : exception,
      ExpiredToken ≠ NotYetValid
      ∧ (decode "eyJhbGciOiJub25lIn0.eyJleHAiOjEwMH0."
         ≫= verifier_verify none_verifier (from_time_t 200)) = Err ExpiredToken
      ∧ (decode "eyJhbGciOiJub25lIn0.eyJuYmYiOjEwMH0."
         ≫= verifier_verify none_verifier (from_time_t 50)) = Err NotYetValid.
Proof.
  intros (e1 & e2 & Hne & H1 & H2).
  vm_compute in H1, H2. congruence.
Qed.

(** Why C4 asks for representable tick counts.  The [size_t] leeway is
    converted to the signed count of [std::chrono::seconds], so a default
    leeway of [SIZE_MAX] acts as minus one second and a token is refused at
    the very second it expires. *)
Lemma leeway_of_size_max_is_negative :
  check_expires_at (leeway (2 ^ 64 - 1) none_verifier) (from_time_t 100)
    (unsigned_jwt (alg_header "none") {[ "exp" := Claim (Int64 100) ]})
  = Err expired.
Proof. vm_compute. reflexivity. Qed.

(** And an expiry so far ahead that its nanosecond count leaves the 64-bit
    range is read as a date in the past: the token is refused 200 s after
    the epoch. *)
Lemma far_expiry_is_refused :
  ¬ int64_range (9999999999 * period)
  ∧ from_time_t 9999999999 < 0
  ∧ check_expires_at none_verifier (from_time_t 200)
      (unsigned_jwt (alg_header "none") {[ "exp" := Claim (Int64 9999999999) ]})
    = Err expired.
Proof.
  split_and!; [|reflexivity|reflexivity].
  unfold int64_range. simpl. lia.
Qed.

(** C4 on a token that expired one second ago: refused with leeway 0,
    passed by the "exp" check with a leeway of 2. *)
Lemma C4_witness :
  check_expires_at none_verifier (from_time_t 101)
    (unsigned_jwt (alg_header "none") {[ "exp" := Claim (Int64 100) ]})
  = Err expired
  ∧ check_expires_at (expires_at_leeway 2 none_verifier) (from_time_t 101)
      (unsigned_jwt (alg_header "none") {[ "exp" := Claim (Int64 100) ]})
    = Ok tt.
Proof.
  pose proof (C4_time_checks_share_one_error none_verifier (from_time_t 101)
                (unsigned_jwt (alg_header "none") {[ "exp" := Claim (Int64 100) ]})
                eq_refl) as H.
  destruct H as (_ & _ & _ & _ & _ & _ & _ & _ & _ & _ & _ & _ & _ & H).
  destruct (H 100 eq_refl eq_refl) as [H0 H2]. split.
  - apply H0; [reflexivity|reflexivity|].
    unfold ticks_fit, int64_range. simpl. lia.
  - apply H2; [lia|]. unfold ticks_fit, int64_range. simpl. lia.
Defined.

(** C5 over the reference codecs, on two builders: one with a type and an
    issuer, signed with HS256 over the stand-in keyed digest, and one with a
    key id, a subject, an audience of two and an expiry, signed with
    "none". *)
Lemma C5_witness :
  (∃ token jwt,
     builder_sign (hs256 "secret") issuer_builder = Ok token
     ∧ decode token = Ok jwt
     ∧ header_claims jwt
       = <["alg" := claim_of_string "HS256"]> (builder_header_claims issuer_builder)
     ∧ payload_claims jwt = builder_payload_claims issuer_builder
     ∧ get_algorithm jwt = Ok "HS256"
     ∧ signature jwt
       = "secret:eyJhbGciOiJIUzI1NiIsInR5cCI6IkpXVCJ9.eyJpc3MiOiJhdXRoMCJ9"
     ∧ header_base64 jwt +:+ "." +:+ payload_base64 jwt
       = "eyJhbGciOiJIUzI1NiIsInR5cCI6IkpXVCJ9.eyJpc3MiOiJhdXRoMCJ9")
  ∧ (∃ token jwt,
       builder_sign none_algorithm audience_builder = Ok token
       ∧ decode token = Ok jwt
       ∧ header_claims jwt
         = <["alg" := claim_of_string "none"]> (builder_header_claims audience_builder)
       ∧ payload_claims jwt = builder_payload_claims audience_builder
       ∧ get_algorithm jwt = Ok "none"
       ∧ signature jwt = "").
Proof.
  split.
  - destruct (C5_decode_inverts_builder_sign (hs256 "secret") issuer_builder
                "secret:eyJhbGciOiJIUzI1NiIsInR5cCI6IkpXVCJ9.eyJpc3MiOiJhdXRoMCJ9")
      as (token & jwt & Hsign & Hdecode & Hh & Hp & Halg & Hsig & Hinput).
    all: try (lazymatch goal with
              | |- ex _ => fail
              | |- base64url_round_trip _ => apply reference_base64url_round_trip
              | _ => idtac
              end; vm_compute; reflexivity).
    exists token, jwt. split_and!; assumption.
  - destruct (C5_decode_inverts_builder_sign none_algorithm audience_builder "")
      as (token & jwt & Hsign & Hdecode & Hh & Hp & Halg & Hsig & Hinput).
    all: try (lazymatch goal with
              | |- ex _ => fail
              | |- base64url_round_trip _ => apply reference_base64url_round_trip
              | _ => idtac
              end; vm_compute; reflexivity).
    exists token, jwt. split_and!; assumption.
Defined.

(** C6 on the same builder: the compact token, and the fill cut off the
    encoding of an empty object. *)
Lemma C6_witness :
  builder_sign none_algorithm issuer_builder
  = Ok "eyJhbGciOiJub25lIiwidHlwIjoiSldUIn0.eyJpc3MiOiJhdXRoMCJ9."
  ∧ encode "{}" = "e30".
Proof.
  destruct (C6_builder_sign_assembles_compact_token none_algorithm issuer_builder)
    as (_ & Hsign & _ & Hstrip).
  split.
  - apply (Hsign ""). reflexivity.
  - apply (Hstrip "{}" "e30" 1%nat); [reflexivity|].
    intros [|[|[|i]]] Hi; [discriminate..|simpl in Hi; lia].
Defined.

(** C7 on tokens with no, one and three dots, on segments of length 1 and
    2, and on a header outside the base64url alphabet. *)
Lemma C7_witness :
  decode "abc" = Err (invalid_argument "invalid token supplied")
  ∧ decode "a.b" = Err (invalid_argument "invalid token supplied")
  ∧ decode "e30.e30.x.y" = decode_segments "e30.e30.x.y" "e30" "e30" "x.y"
  ∧ fix_padding "a" = "a==="
  ∧ (size (fix_padding "ab") mod 4 = 0)%nat
  ∧ decode "!!!.b.c" = Err (runtime_error "Invalid input").
Proof.
  destruct C7_decode_splits_at_first_two_dots
    as (Hsplit & _ & Hfew & _ & Hone & Hlen & Hbad).
  split_and!.
  - apply Hfew. vm_compute. lia.
  - apply Hfew. vm_compute. lia.
  - apply (Hsplit "e30" "e30" "x.y"); reflexivity.
  - apply (Hone "a"). reflexivity.
  - apply Hlen. reflexivity.
  - apply (Hbad "!!!" "b" "c"); reflexivity.
Defined.

(** C8 on the audiences {a, b, c} and {a} against the expected {a, b}. *)
Lemma C8_witness :
  check_claim (unsigned_jwt (alg_header "none") {[ "aud" := claim_of_set {[ "a"; "b"; "c" ]} ]})
    ("aud", claim_of_set {[ "a"; "b" ]})
  = Ok tt
  ∧ check_claim (unsigned_jwt (alg_header "none") {[ "aud" := claim_of_set {[ "a" ]} ]})
      ("aud", claim_of_set {[ "a"; "b" ]})
    = Err audience_missing.
Proof.
  split.
  - destruct (C8_audience_must_include_expected
                (unsigned_jwt (alg_header "none")
                   {[ "aud" := claim_of_set {[ "a"; "b"; "c" ]} ]})
                {[ "a"; "b" ]}) as (_ & _ & _ & _ & _ & _ & _ & H).
    apply (proj1 (H eq_refl)). reflexivity.
  - destruct (C8_audience_must_include_expected
                (unsigned_jwt (alg_header "none") {[ "aud" := claim_of_set {[ "a" ]} ]})
                {[ "a"; "b" ]}) as (_ & _ & _ & _ & _ & _ & _ & H).
    apply (proj2 (H eq_refl)). reflexivity.
Defined.

(** C9 on an unsigned token, and on a token whose header is a JSON array. *)
Lemma C9_witness :
  (∃ jwt o, decode "eyJhbGciOiJub25lIn0.e30." = Ok jwt
            ∧ picojson_parse (header jwt) = (Object o, "")
            ∧ header_claims jwt = Claim <$> o
            ∧ signature jwt = "")
  ∧ ∃ msg, decode "WzFd.e30." = Err (runtime_error msg).
Proof.
  destruct C9_decoded_header_and_payload_are_objects as (Hobj & Hfail & _ & _).
  split.
  - destruct (decode "eyJhbGciOiJub25lIn0.e30.") as [jwt|] eqn:Hd; [|by vm_compute in Hd].
    destruct (Hobj _ jwt Hd) as ((o & Ho & Hc) & _ & Hs).
    exists jwt, o. split_and!; try done.
    vm_compute in Hd. by injection Hd as <-.
  - apply (Hfail "WzFd" "e30" "" "[1]" "{}" ""); try reflexivity.
    left. intros [o Ho]. vm_compute in Ho. discriminate.
Defined.

(** C10 on a requirement stored under "exp": no content check, no effect on
    a token without "exp", and an integer stored there is the leeway. *)
Lemma C10_witness :
  check_claim (unsigned_jwt (alg_header "none") ∅) ("exp", claim_of_string "soon") = Ok tt
  ∧ (verifier_verify (with_claim "exp" (claim_of_string "soon") none_verifier) 0
       (unsigned_jwt (alg_header "none") ∅) = Ok tt
     ↔ verifier_verify none_verifier 0 (unsigned_jwt (alg_header "none") ∅) = Ok tt)
  ∧ claimed_leeway (with_claim "exp" (Claim (Int64 7)) none_verifier) "exp" = Ok 7.
Proof.
  destruct (C10_time_names_are_leeways_not_requirements none_verifier 0
              (unsigned_jwt (alg_header "none") ∅) (λ m, Permutation_refl (map_to_list m)))
    as (_ & Hleeway & Hskip & _ & Hsame & _ & _ & _).
  split_and!.
  - apply Hskip. by left.
  - apply Hsame; [by left | reflexivity].
  - rewrite Hleeway. reflexivity.
Defined.
End examples.

(** * Further properties of the code *)

(** ** Claims *)

Section claim_facts.
Context {Clock : SystemClock}.

Lemma as_set_loop_Ok_inv (a : list value) (res s : gset string) :
  as_set_loop a res = Ok s → ∃ l, a = Str <$> l ∧ s = list_to_set l ∪ res.
Proof.
  revert res. induction a as [|x a IH]; intros res; simpl.
  - intros [= <-]. exists []. split; [done|]. set_solver.
  - destruct x; try done. intros (l & -> & ->)%IH.
    exists (s0 :: l). split; [done|]. set_solver.
Qed.

Lemma as_set_loop_not_string (a : list value) (res : gset string) :
  (∃ x, x ∈ a ∧ ∀ s, x ≠ Str s) → as_set_loop a res = Err bad_cast.
Proof.
  revert res. induction a as [|y a IH]; intros res (x & Hin & Hx).
  - by apply elem_of_nil in Hin.
  - simpl. destruct y; try done.
    apply IH. exists x. split; [|done].
    apply elem_of_cons in Hin as [->|Hin]; [by destruct (Hx s)|done].
Qed.

Lemma as_set_Ok_inv (c : claim) (s : gset string) :
  as_set c = Ok s → ∃ l, to_json c = Array (Str <$> l) ∧ s = list_to_set l.
Proof.
  destruct c as [v]. unfold as_set, as_array. cbn [to_json].
  destruct v; try done. cbn [mbind result_bind].
  intros (l & -> & ->)%as_set_loop_Ok_inv. exists l. split; [done|]. set_solver.
Qed.


(** X2: [as_set] succeeds exactly on an array whose elements are all
    strings and returns the set of these strings, so that repetitions and
    the order of the elements do not matter; an element of another type, or
    a claim that is no array, gives [std::bad_cast]. *)
Theorem X2_as_set_is_the_set_of_an_array_of_strings (c : claim) :
  (∀ l, to_json c = Array (Str <$> l) → as_set c = Ok (list_to_set l))
  ∧ (∀ s, as_set c = Ok s → ∃ l, to_json c = Array (Str <$> l) ∧ s = list_to_set l)
  ∧ (∀ a, to_json c = Array a → (∃ x, x ∈ a ∧ ∀ s, x ≠ Str s) →
          as_set c = Err bad_cast)
  ∧ (∀ l l' : list string,
        (∀ x, x ∈ l ↔ x ∈ l') →
        as_set (Claim (Array (Str <$> l))) = as_set (Claim (Array (Str <$> l')))).
Proof.
  destruct c as [v]. unfold as_set, as_array. cbn [to_json]. split_and!.
  - intros l ->. cbn [mbind result_bind]. rewrite as_set_loop_strings.
    f_equal. set_solver.
  - intros s. apply (as_set_Ok_inv (Claim v)).
  - intros a -> Hx. cbn [mbind result_bind]. by apply as_set_loop_not_string.
  - intros l l' Hll. cbn [mbind result_bind]. rewrite !as_set_loop_strings.
    f_equal. set_solver.
Qed.

Lemma to_time_t_bounds (d : date) :
  0 < period → int64_range d →
  int64_range (to_time_t d) ∧ int64_range (to_time_t d * period)
  ∧ (to_time_t d * period = d ↔ Z.rem d period = 0).
Proof.
  intros Hp [Hl Hu]. unfold to_time_t, int64_range.
  assert (period ≠ 0) as Hne by lia.
  pose proof (Z.quot_rem d period Hne) as Hqr.
  destruct (Z.le_gt_cases 0 d) as [Hpos|Hneg].
  - pose proof (Z.rem_bound_pos d period Hpos Hp).
    pose proof (Z.quot_pos d period Hpos Hp).
    assert (d ÷ period ≤ d ÷ period * period) by nia. split_and!; lia.
  - pose proof (Z.rem_bound_pos_neg d period Hp ltac:(lia)).
    assert (d ÷ period ≤ 0) by nia.
    assert (d ÷ period * period ≤ d ÷ period) by nia. split_and!; lia.
Qed.

(** X3: what a [claim] constructor stores is what the matching accessor
    gives back: a string and a set of strings unchanged, a date (a 64-bit
    tick count) at the precision of one second, the sub-second part being
    dropped.  A date made by [from_time_t] reads back unchanged when its
    tick count is representable. *)
Theorem X3_claim_constructors_round_trip :
  0 < period →
  (∀ s, as_string (claim_of_string s) = Ok s)
  ∧ (∀ s : gset string, as_set (claim_of_set s) = Ok s)
  ∧ (∀ d : date, as_date (claim_of_date d) = Ok (from_time_t (to_int64 (to_time_t d))))
  ∧ (∀ d : date, int64_range d →
        as_date (claim_of_date d) = Ok (to_time_t d * period)
        ∧ (as_date (claim_of_date d) = Ok d ↔ Z.rem d period = 0))
  ∧ (∀ t, int64_range (t * period) →
        from_time_t t = t * period
        ∧ as_date (claim_of_date (from_time_t t)) = Ok (from_time_t t)).
Proof.
  intros Hp.
  assert (∀ z, int64_range z → to_int64 z = z) as Hint.
  { intros z [? ?]. unfold to_int64. rewrite Z.mod_small; lia. }
  assert (∀ d : date, as_date (claim_of_date d)
                      = Ok (from_time_t (to_int64 (to_time_t d)))) as Hdate by done.
  assert (∀ d : date, int64_range d →
                      as_date (claim_of_date d) = Ok (to_time_t d * period)) as Hexact.
  { intros d Hd. destruct (to_time_t_bounds d Hp Hd) as (Hs & Ht & _).
    rewrite Hdate. unfold from_time_t. by rewrite (Hint _ Hs), (Hint _ Ht). }
  split_and!.
  - done.
  - apply as_set_claim_of_set.
  - done.
  - intros d Hd. split; [by apply Hexact|]. rewrite Hexact by done.
    destruct (to_time_t_bounds d Hp Hd) as (_ & _ & Hrem). rewrite <- Hrem.
    split; [by intros [= ?]|by intros ->].
  - intros t Ht. assert (from_time_t t = t * period) as Hfrom.
    { unfold from_time_t. by apply Hint. }
    split; [done|]. rewrite Hexact by (by rewrite Hfrom).
    rewrite Hfrom. unfold to_time_t. rewrite Z.quot_mul by lia. done.
Qed.
End claim_facts.

(** ** Accessors of a decoded token *)

Section accessor_facts.
Context {Clock : SystemClock}.

Lemma has_header_claim_true jwt name c :
  header_claims jwt !! name = Some c → has_header_claim jwt name = true.
Proof. intros Hc. unfold has_header_claim. rewrite Hc. by apply bool_decide_eq_true_2. Qed.

Lemma has_header_claim_false jwt name :
  header_claims jwt !! name = None → has_header_claim jwt name = false.
Proof.
  intros Hc. unfold has_header_claim. rewrite Hc.
  apply bool_decide_eq_false_2. by intros [? ?].
Qed.

Lemma get_payload_claim_cases jwt name :
  get_payload_claim jwt name
  = match payload_claims jwt !! name with
    | Some c => Ok c
    | None => Err (runtime_error "claim not found")
    end.
Proof.
  destruct (payload_claims jwt !! name) as [c|] eqn:Hc.
  - by apply get_payload_claim_Some.
  - unfold get_payload_claim. by rewrite has_payload_claim_false.
Qed.

Lemma get_header_claim_cases jwt name :
  get_header_claim jwt name
  = match header_claims jwt !! name with
    | Some c => Ok c
    | None => Err (runtime_error "claim not found")
    end.
Proof.
  unfold get_header_claim. destruct (header_claims jwt !! name) as [c|] eqn:Hc.
  - by rewrite (has_header_claim_true _ _ _ Hc).
  - by rewrite has_header_claim_false.
Qed.

(** X4: the [get_...] accessors never make a value up.  A string accessor
    returns [s] exactly when the claim of its name is stored as the string
    [s]; when the claim is missing it throws
    [std::runtime_error("claim not found")], which is the case exactly when
    the matching [has_...] is false, and when the claim has another type it
    throws [std::bad_cast].  The date accessors do the same with integer
    claims, read as seconds since the epoch. *)
Theorem X4_getters_return_stored_claims_only (jwt : decoded_jwt) :
  Forall (λ '(get, has, name),
            (∀ s, get jwt = Ok s ↔ payload_claims jwt !! name = Some (Claim (Str s)))
            ∧ (get jwt = Err (runtime_error "claim not found")
               ↔ payload_claims jwt !! name = None)
            ∧ (has jwt = false ↔ payload_claims jwt !! name = None)
            ∧ (∀ c, payload_claims jwt !! name = Some c → get_type c ≠ type_string →
                    get jwt = Err bad_cast))
    [(get_issuer, has_issuer, "iss"); (get_subject, has_subject, "sub");
     (get_id, has_id, "jti")]
  ∧ Forall (λ '(get, has, name),
            (∀ s, get jwt = Ok s ↔ header_claims jwt !! name = Some (Claim (Str s)))
            ∧ (get jwt = Err (runtime_error "claim not found")
               ↔ header_claims jwt !! name = None)
            ∧ (has jwt = false ↔ header_claims jwt !! name = None)
            ∧ (∀ c, header_claims jwt !! name = Some c → get_type c ≠ type_string →
                    get jwt = Err bad_cast))
    [(get_algorithm, has_algorithm, "alg"); (header_get_type, has_type, "typ");
     (get_content_type, has_content_type, "cty"); (get_key_id, has_key_id, "kid")]
  ∧ Forall (λ '(get, has, name),
            (∀ d, get jwt = Ok d
                  ↔ ∃ i, payload_claims jwt !! name = Some (Claim (Int64 i))
                         ∧ d = from_time_t i)
            ∧ (get jwt = Err (runtime_error "claim not found")
               ↔ payload_claims jwt !! name = None)
            ∧ (has jwt = false ↔ payload_claims jwt !! name = None)
            ∧ (∀ c, payload_claims jwt !! name = Some c → get_type c ≠ type_int64 →
                    get jwt = Err bad_cast))
    [(get_expires_at, has_expires_at, "exp"); (get_not_before, has_not_before, "nbf");
     (get_issued_at, has_issued_at, "iat")].
Proof.
  assert (∀ name,
    (∀ s, (c ← get_payload_claim jwt name; as_string c) = Ok s
          ↔ payload_claims jwt !! name = Some (Claim (Str s)))
    ∧ ((c ← get_payload_claim jwt name; as_string c) = Err (runtime_error "claim not found")
       ↔ payload_claims jwt !! name = None)
    ∧ (has_payload_claim jwt name = false ↔ payload_claims jwt !! name = None)
    ∧ (∀ c, payload_claims jwt !! name = Some c → get_type c ≠ type_string →
            (c ← get_payload_claim jwt name; as_string c) = Err bad_cast)) as Hp.
  { intros name. rewrite get_payload_claim_cases. unfold has_payload_claim.
    destruct (payload_claims jwt !! name) as [[v]|]; cbn [mbind result_bind].
    - rewrite bool_decide_eq_true_2 by eauto. unfold as_string, get_type. cbn [to_json].
      split_and!; try done.
      + intros s. unfold throw. destruct v; split; congruence.
      + destruct v; done.
      + intros c [= <-]. destruct v; done.
    - rewrite bool_decide_eq_false_2 by (by intros [? ?]). done. }
  assert (∀ name,
    (∀ s, (c ← get_header_claim jwt name; as_string c) = Ok s
          ↔ header_claims jwt !! name = Some (Claim (Str s)))
    ∧ ((c ← get_header_claim jwt name; as_string c) = Err (runtime_error "claim not found")
       ↔ header_claims jwt !! name = None)
    ∧ (has_header_claim jwt name = false ↔ header_claims jwt !! name = None)
    ∧ (∀ c, header_claims jwt !! name = Some c → get_type c ≠ type_string →
            (c ← get_header_claim jwt name; as_string c) = Err bad_cast)) as Hh.
  { intros name. rewrite get_header_claim_cases. unfold has_header_claim.
    destruct (header_claims jwt !! name) as [[v]|]; cbn [mbind result_bind].
    - rewrite bool_decide_eq_true_2 by eauto. unfold as_string, get_type. cbn [to_json].
      split_and!; try done.
      + intros s. unfold throw. destruct v; split; congruence.
      + destruct v; done.
      + intros c [= <-]. destruct v; done.
    - rewrite bool_decide_eq_false_2 by (by intros [? ?]). done. }
  assert (∀ name,
    (∀ d, (c ← get_payload_claim jwt name; as_date c) = Ok d
          ↔ ∃ i, payload_claims jwt !! name = Some (Claim (Int64 i)) ∧ d = from_time_t i)
    ∧ ((c ← get_payload_claim jwt name; as_date c) = Err (runtime_error "claim not found")
       ↔ payload_claims jwt !! name = None)
    ∧ (has_payload_claim jwt name = false ↔ payload_claims jwt !! name = None)
    ∧ (∀ c, payload_claims jwt !! name = Some c → get_type c ≠ type_int64 →
            (c ← get_payload_claim jwt name; as_date c) = Err bad_cast)) as Hd.
  { intros name. rewrite get_payload_claim_cases. unfold has_payload_claim.
    destruct (payload_claims jwt !! name) as [[v]|]; cbn [mbind result_bind].
    - rewrite bool_decide_eq_true_2 by eauto. unfold as_date, as_int, get_type.
      cbn [to_json].
      split_and!; try done.
      + intros d. destruct v; cbn [mbind result_bind mret result_ret];
          (split; [try done; intros [= <-]; by eauto | by intros (j & [= <-] & ->)]).
      + destruct v; done.
      + intros c [= <-]. destruct v; done.
    - rewrite bool_decide_eq_false_2 by (by intros [? ?]).
      split_and!; try done. intros d. split; [done|]. by intros (? & ? & _). }
  split_and!; repeat constructor; first [apply Hp | apply Hh | apply Hd].
Qed.
End accessor_facts.

Section audience_facts.
Context {Clock : SystemClock}.

(** X5: [get_audience] gives the singleton of a string "aud" claim and the
    element set of an "aud" claim that is an array of strings, and nothing
    else: a missing claim throws [std::runtime_error("claim not found")],
    any other stored value [std::bad_cast].  A single audience stored as a
    string and the same audience stored as a one-element set read the same. *)
Theorem X5_get_audience_of_string_or_array (jwt : decoded_jwt) :
  (∀ aud, get_audience jwt = Ok aud ↔
      (∃ s, payload_claims jwt !! "aud" = Some (Claim (Str s)) ∧ aud = {[ s ]})
      ∨ (∃ l, payload_claims jwt !! "aud" = Some (Claim (Array (Str <$> l)))
              ∧ aud = list_to_set l))
  ∧ (payload_claims jwt !! "aud" = None →
     get_audience jwt = Err (runtime_error "claim not found"))
  ∧ (∀ c, payload_claims jwt !! "aud" = Some c →
          get_type c ≠ type_string → get_type c ≠ type_array →
          get_audience jwt = Err bad_cast)
  ∧ (∀ s, payload_claims jwt !! "aud" = Some (claim_of_string s)
          ∨ payload_claims jwt !! "aud" = Some (claim_of_set {[ s ]}) →
          get_audience jwt = Ok {[ s ]}).
Proof.
  split_and!.
  - intros aud. split.
    + unfold get_audience. rewrite get_payload_claim_cases.
      destruct (payload_claims jwt !! "aud") as [[v]|]; [|done]. cbn [mbind result_bind].
      destruct (decide _) as [Hs|Hs].
      * destruct v; try done. cbn. intros [= <-]. left. eauto.
      * intros Hset.
        destruct (as_set_Ok_inv _ _ Hset) as (l & Hl & ->). cbn in Hl. subst v.
        right. eauto.
    + intros [(s & Hs & ->)|(l & Hl & ->)].
      * by apply get_audience_string.
      * by apply get_audience_array.
  - intros Hn. unfold get_audience. by rewrite get_payload_claim_cases, Hn.
  - intros [v] Hc Hs Ha. unfold get_audience. rewrite get_payload_claim_cases, Hc.
    cbn [mbind result_bind]. rewrite decide_False by done.
    destruct v; done.
  - intros s [Hs|Hs].
    + by apply get_audience_string.
    + unfold claim_of_set in Hs. rewrite (get_audience_array _ _ Hs). f_equal.
      apply set_eq. intros e. rewrite elem_of_list_to_set, elem_of_set_iteration. done.
Qed.
End audience_facts.

(** ** The decoder, again *)

Section decode_more.
Context {B64 : Base64Url} {Json : PicoJson}.
#[local] Open Scope nat_scope.

Lemma decode_segments_Ok_inv (tok h p s : string) (jwt : decoded_jwt) :
  decode_segments tok h p s = Ok jwt →
  token jwt = tok ∧ header_base64 jwt = h ∧ payload_base64 jwt = p
  ∧ signature_base64 jwt = s.
Proof.
  unfold decode_segments.
  destruct (base_decode (fix_padding h)) as [hd|]; [|done].
  destruct (base_decode (fix_padding p)) as [pl|]; [|done].
  destruct (base_decode (fix_padding s)) as [sg|]; [|done].
  cbn [mbind result_bind].
  destruct (parse_claims hd) as [hc|]; [|done].
  destruct (parse_claims pl) as [pc|]; [|done].
  cbn [mbind result_bind]. by intros [= <-].
Qed.


(** X6: a decoded token keeps the string it was made from, and its three
    raw segments are that string cut at its first two dots: joined by dots
    they give the token back, and neither the header nor the payload
    segment holds a dot. *)
Theorem X6_raw_segments_reassemble_the_token (tok : string) (jwt : decoded_jwt) :
  decode tok = Ok jwt →
  token jwt = tok
  ∧ tok = header_base64 jwt +:+ "." +:+ payload_base64 jwt +:+ "." +:+ signature_base64 jwt
  ∧ count_char "." (header_base64 jwt) = 0
  ∧ count_char "." (payload_base64 jwt) = 0
  ∧ count_char "." tok = 2 + count_char "." (signature_base64 jwt).
Proof.
  intros Hd.
  destruct (decide (count_char "." tok < 2)) as [Hfew|Hmany].
  { rewrite decode_few_dots in Hd by done. done. }
  destruct (split_two_dots tok) as (h & p & s & -> & Hh & Hp); [lia|].
  rewrite decode_three_segments in Hd by done.
  apply decode_segments_Ok_inv in Hd as (Ht & -> & -> & ->).
  split_and!; try done.
  rewrite !count_char_app. simpl. lia.
Qed.

End decode_more.

Section padding_facts.
Context {Clock : SystemClock} {B64 : Base64Url} {Json : PicoJson}.
#[local] Open Scope nat_scope.

(** X8: the padding the decoder adds is the padding the builder cut off.
    When the fill is one byte and the codec's encoding of [data] is a
    fill-free body followed by at most three fills, of a total length that
    is a multiple of 4, then [fix_padding (encode data)] is that encoding
    again. *)
Theorem X8_fix_padding_restores_what_encode_strips (data body : string) (k : nat) :
  String.length fill = 1 →
  base_encode data = body +:+ repeat_string k fill →
  k < 4 →
  String.length (base_encode data) mod 4 = 0 →
  (∀ i, i < String.length body →
        String.substring i (String.length fill) (base_encode data) ≠ fill) →
  encode data = body ∧ fix_padding (encode data) = base_encode data.
Proof.
  intros Hfill Hbase Hk Hlen Hbody.
  assert (encode data = body) as Henc by by eapply encode_strips_trailing_fill.
  split; [done|]. rewrite Henc, fix_padding_repeat, Hbase. do 2 f_equal.
  rewrite Hbase, string_length_app, length_repeat_string, Hfill, Nat.mul_1_r in Hlen.
  unfold size. rewrite Nat.Div0.add_mod in Hlen.
  assert (String.length body mod 4 < 4) as Hr by (apply Nat.mod_upper_bound; lia).
  rewrite (Nat.mod_small k) in Hlen by done.
  destruct (String.length body mod 4) as [|[|[|[|r]]]]; [| | | |lia];
    destruct k as [|[|[|[|k]]]]; try lia; try done.
Qed.
End padding_facts.

(** ** The builder, again *)

Section builder_more.
Context {Clock : SystemClock} {B64 : Base64Url} {Json : PicoJson}.
Context {T : Type} {Alg : Algorithm T}.
#[local] Open Scope nat_scope.



End builder_more.

(** ** Failures of [verify] *)

Section failure_facts.
Context {Clock : SystemClock} {Buckets : UnorderedMap}.

Lemma get_header_claim_Err jwt name e :
  get_header_claim jwt name = Err e → access_error e.
Proof.
  unfold get_header_claim. destruct (negb _); [intros [= <-]; right; by eexists|].
  destruct (header_claims jwt !! name); [done|]. intros [= <-]. right. by eexists.
Qed.

Lemma get_algorithm_Err jwt e : get_algorithm jwt = Err e → access_error e.
Proof.
  unfold get_algorithm. destruct (get_header_claim jwt "alg") as [c|e'] eqn:Hc.
  - cbn [mbind result_bind]. apply as_string_Err.
  - intros [= <-]. by eapply get_header_claim_Err.
Qed.

Lemma claimed_leeway_Err v name e : claimed_leeway v name = Err e → access_error e.
Proof.
  unfold claimed_leeway. destruct (claims v !! name) as [c|]; [|done].
  destruct (as_date c) as [d|e'] eqn:Hd; [done|]. intros [= <-]. by eapply as_date_Err.
Qed.

Lemma get_date_Err jwt name e :
  (c ← get_payload_claim jwt name; as_date c) = Err e → access_error e.
Proof.
  destruct (get_payload_claim jwt name) as [c|e'] eqn:Hc.
  - cbn [mbind result_bind]. apply as_date_Err.
  - intros [= <-]. by eapply get_payload_claim_Err.
Qed.

Lemma check_expires_at_Err v time jwt e :
  check_expires_at v time jwt = Err e → access_error e ∨ e = expired.
Proof.
  unfold check_expires_at. destruct (has_expires_at jwt); [|done].
  destruct (claimed_leeway v "exp") as [l|e'] eqn:Hl;
    [|intros [= <-]; left; by eapply claimed_leeway_Err].
  cbn [mbind result_bind].
  destruct (get_expires_at jwt) as [x|e'] eqn:Hx;
    [|intros [= <-]; left; by eapply get_date_Err].
  cbn [mbind result_bind]. destruct (_ >? _); [|done]. intros [= <-]. by right.
Qed.

Lemma check_issued_at_Err v time jwt e :
  check_issued_at v time jwt = Err e → access_error e ∨ e = expired.
Proof.
  unfold check_issued_at. destruct (has_issued_at jwt); [|done].
  destruct (claimed_leeway v "iat") as [l|e'] eqn:Hl;
    [|intros [= <-]; left; by eapply claimed_leeway_Err].
  cbn [mbind result_bind].
  destruct (get_issued_at jwt) as [x|e'] eqn:Hx;
    [|intros [= <-]; left; by eapply get_date_Err].
  cbn [mbind result_bind]. destruct (_ <? _); [|done]. intros [= <-]. by right.
Qed.

Lemma check_not_before_Err v time jwt e :
  check_not_before v time jwt = Err e → access_error e ∨ e = expired.
Proof.
  unfold check_not_before. destruct (has_not_before jwt); [|done].
  destruct (claimed_leeway v "nbf") as [l|e'] eqn:Hl;
    [|intros [= <-]; left; by eapply claimed_leeway_Err].
  cbn [mbind result_bind].
  destruct (get_not_before jwt) as [x|e'] eqn:Hx;
    [|intros [= <-]; left; by eapply get_date_Err].
  cbn [mbind result_bind]. destruct (_ <? _); [|done]. intros [= <-]. by right.
Qed.

Lemma assert_claim_eq_Err jwt key c e :
  assert_claim_eq jwt key c = Err e → access_error e ∨ ∃ msg, e = token_verification msg.
Proof.
  unfold assert_claim_eq. destruct (negb (has_payload_claim jwt key)).
  { intros [= <-]. right. by eexists. }
  destruct (get_payload_claim jwt key) as [jc|e'] eqn:Hjc;
    [|intros [= <-]; left; by eapply get_payload_claim_Err].
  cbn [mbind result_bind].
  destruct (negb (bool_decide (get_type jc = get_type c))).
  { intros [= <-]. right. by eexists. }
  destruct (bool_decide (get_type c = type_int64)).
  { destruct (as_date c) as [d1|e'] eqn:H1; [|intros [= <-]; left; by eapply as_date_Err].
    destruct (as_date jc) as [d2|e'] eqn:H2; [|intros [= <-]; left; by eapply as_date_Err].
    cbn [mbind result_bind]. destruct (negb _); [|done].
    intros [= <-]. right. by eexists. }
  destruct (bool_decide (get_type c = type_array)).
  { destruct (as_set c) as [s1|e'] eqn:H1; [|intros [= <-]; left; by eapply as_set_Err].
    destruct (as_set jc) as [s2|e'] eqn:H2; [|intros [= <-]; left; by eapply as_set_Err].
    cbn [mbind result_bind]. destruct (negb _).
    { intros [= <-]. right. by eexists. }
    destruct (compare_sets_cases key (set_iteration s1) (set_iteration s2)) as [->| ->];
      [done|].
    intros [= <-]. right. by eexists. }
  destruct (bool_decide (get_type c = type_string)).
  { destruct (as_string c) as [s1|e'] eqn:H1;
      [|intros [= <-]; left; by eapply as_string_Err].
    destruct (as_string jc) as [s2|e'] eqn:H2;
      [|intros [= <-]; left; by eapply as_string_Err].
    cbn [mbind result_bind]. destruct (negb _); [|done].
    intros [= <-]. right. by eexists. }
  intros [= <-]. right. by eexists.
Qed.

Lemma check_claim_Err jwt c e :
  check_claim jwt c = Err e → access_error e ∨ ∃ msg, e = token_verification msg.
Proof.
  unfold check_claim. destruct (_ || _)%bool; [done|].
  destruct (String.eqb c.1 "aud"); [|apply assert_claim_eq_Err].
  destruct (negb (has_audience jwt)).
  { intros [= <-]. right. by eexists. }
  destruct (get_audience jwt) as [aud|e'] eqn:Ha;
    [|intros [= <-]; left; by eapply get_audience_Err].
  cbn [mbind result_bind].
  destruct (as_set c.2) as [x|e'] eqn:Hx; [|intros [= <-]; left; by eapply as_set_Err].
  cbn [mbind result_bind].
  destruct (check_expected_cases aud (set_iteration x)) as [->| ->]; [done|].
  intros [= <-]. right. by eexists.
Qed.

(** X10: [verify] fails in three ways only.  The error is the one the
    registered algorithm raised on the signature, or a
    [token_verification_exception], or the [std::bad_cast] or
    [std::runtime_error] of an accessor that met a missing or wrongly typed
    claim.  When no registered algorithm accepts the signature, the
    failure is that of reading "alg", the "wrong algorithm" error of an
    unregistered name, or the algorithm's own error: no claim is looked at
    before the signature is accepted. *)
Theorem X10_verify_failures (v : verifier) (time : time_point) (jwt : decoded_jwt)
    (e : exception) :
  (verifier_verify v time jwt = Err e →
     (∃ alg a, get_algorithm jwt = Ok alg ∧ algs v !! alg = Some a
               ∧ algo_verify a (signing_input jwt) (signature jwt) = Err e)
     ∨ access_error e
     ∨ ∃ msg, e = token_verification msg)
  ∧ (verifier_verify v time jwt = Err e →
     (∀ alg a, get_algorithm jwt = Ok alg → algs v !! alg = Some a →
               algo_verify a (signing_input jwt) (signature jwt) ≠ Ok tt) →
     (get_algorithm jwt = Err e ∧ access_error e)
     ∨ (∃ alg, get_algorithm jwt = Ok alg ∧ algs v !! alg = None
               ∧ e = token_verification "wrong algorithm")
     ∨ (∃ alg a, get_algorithm jwt = Ok alg ∧ algs v !! alg = Some a
                 ∧ algo_verify a (signing_input jwt) (signature jwt) = Err e)).
Proof.
  split.
  - unfold verifier_verify.
    destruct (get_algorithm jwt) as [alg|e'] eqn:Halg;
      [|intros [= <-]; right; left; by eapply get_algorithm_Err].
    cbn [mbind result_bind].
    destruct (algs v !! alg) as [a|] eqn:Ha; [|intros [= <-]; right; right; by eexists].
    fold (signing_input jwt).
    destruct (algo_verify a _ _) as [[]|e'] eqn:Hsig;
      [|intros [= <-]; left; by exists alg, a].
    cbn [mbind result_bind].
    destruct (check_expires_at v time jwt) as [[]|e'] eqn:He.
    2:{ intros [= <-]. apply check_expires_at_Err in He as [?| ->]; [by right; left|].
        right; right. by eexists. }
    cbn [mbind result_bind].
    destruct (check_issued_at v time jwt) as [[]|e'] eqn:Hi.
    2:{ intros [= <-]. apply check_issued_at_Err in Hi as [?| ->]; [by right; left|].
        right; right. by eexists. }
    cbn [mbind result_bind].
    destruct (check_not_before v time jwt) as [[]|e'] eqn:Hn.
    2:{ intros [= <-]. apply check_not_before_Err in Hn as [?| ->]; [by right; left|].
        right; right. by eexists. }
    cbn [mbind result_bind]. intros Hc.
    apply check_claims_Err in Hc as (c & _ & Hc). right. by eapply check_claim_Err.
  - unfold verifier_verify.
    destruct (get_algorithm jwt) as [alg|e'] eqn:Halg.
    2:{ intros [= <-] _. left. split; [done|]. by eapply get_algorithm_Err. }
    cbn [mbind result_bind].
    destruct (algs v !! alg) as [a|] eqn:Ha.
    2:{ intros [= <-] _. right; left. by exists alg. }
    fold (signing_input jwt).
    destruct (algo_verify a _ _) as [[]|e'] eqn:Hsig.
    { intros _ Hnever. by destruct (Hnever alg a). }
    intros [= <-] _. right; right. by exists alg, a.
Qed.
End failure_facts.

(** ** Required claims *)

Section requirement_facts.
Context {Clock : SystemClock} {Buckets : UnorderedMap}.

Lemma check_claim_other jwt key c :
  ¬ time_name key → key ≠ "aud" →
  check_claim jwt (key, c) = assert_claim_eq jwt key c.
Proof.
  intros Ht Ha. unfold check_claim. cbn [fst snd].
  destruct (String.eqb_spec key "exp") as [->|_]; [destruct Ht; by left|].
  destruct (String.eqb_spec key "iat") as [->|_]; [destruct Ht; right; by left|].
  destruct (String.eqb_spec key "nbf") as [->|_]; [destruct Ht; right; by right|].
  destruct (String.eqb_spec key "aud") as [->|_]; done.
Qed.

Lemma assert_claim_eq_missing jwt key c :
  payload_claims jwt !! key = None →
  assert_claim_eq jwt key c
  = Err (token_verification ("decoded_jwt is missing " +:+ key +:+ " claim")).
Proof.
  intros Hk. unfold assert_claim_eq. by rewrite (has_payload_claim_false _ _ Hk).
Qed.

Lemma assert_claim_eq_present jwt key c jc :
  payload_claims jwt !! key = Some jc →
  assert_claim_eq jwt key c
  = if negb (bool_decide (get_type jc = get_type c))
    then Err (token_verification ("claim " +:+ key +:+ " type mismatch"))
    else if bool_decide (get_type c = type_int64) then
      d1 ← as_date c;
      d2 ← as_date jc;
      if negb (d1 =? d2)
      then Err (token_verification ("claim " +:+ key +:+ " does not match expected"))
      else Ok tt
    else if bool_decide (get_type c = type_array) then
      s1 ← as_set c;
      s2 ← as_set jc;
      if negb (stdpp.base.size s1 =? stdpp.base.size s2)%nat
      then Err (token_verification ("claim " +:+ key +:+ " does not match expected"))
      else compare_sets key (set_iteration s1) (set_iteration s2)
    else if bool_decide (get_type c = type_string) then
      s1 ← as_string c;
      s2 ← as_string jc;
      if negb (String.eqb s1 s2)
      then Err (token_verification ("claim " +:+ key +:+ " does not match expected"))
      else Ok tt
    else Err (token_verification "internal error").
Proof.
  intros Hk. unfold assert_claim_eq.
  by rewrite (has_payload_claim_true _ _ _ Hk), (get_payload_claim_Some _ _ _ Hk).
Qed.

Lemma assert_claim_eq_type_mismatch jwt key c jc :
  payload_claims jwt !! key = Some jc → get_type jc ≠ get_type c →
  assert_claim_eq jwt key c
  = Err (token_verification ("claim " +:+ key +:+ " type mismatch")).
Proof.
  intros Hk Hne. rewrite (assert_claim_eq_present _ _ _ _ Hk).
  by rewrite bool_decide_eq_false_2.
Qed.

Lemma assert_claim_eq_string jwt key s s' :
  payload_claims jwt !! key = Some (Claim (Str s')) →
  assert_claim_eq jwt key (Claim (Str s))
  = if String.eqb s s' then Ok tt
    else Err (token_verification ("claim " +:+ key +:+ " does not match expected")).
Proof.
  intros Hk. rewrite (assert_claim_eq_present _ _ _ _ Hk).
  cbn -[String.append]. by destruct (String.eqb s s').
Qed.

Lemma assert_claim_eq_Ok_present jwt key c :
  assert_claim_eq jwt key c = Ok tt →
  ∃ jc, payload_claims jwt !! key = Some jc ∧ get_type jc = get_type c.
Proof.
  intros Hok. destruct (payload_claims jwt !! key) as [jc|] eqn:Hk.
  - exists jc. split; [done|].
    destruct (decide (get_type jc = get_type c)) as [|Hne]; [done|].
    by rewrite (assert_claim_eq_type_mismatch _ _ _ _ Hk Hne) in Hok.
  - by rewrite (assert_claim_eq_missing _ _ _ Hk) in Hok.
Qed.

Lemma verifier_verify_required v time jwt key c :
  (∀ m, iteration m ≡ₚ map_to_list m) →
  ¬ time_name key → key ≠ "aud" →
  claims v !! key = Some c →
  verifier_verify v time jwt = Ok tt →
  assert_claim_eq jwt key c = Ok tt.
Proof.
  intros Hperm Ht Ha Hc Hok.
  apply verifier_verify_Ok_iff in Hok as (_ & _ & _ & _ & Hcs).
  rewrite (check_claims_iteration_Ok _ _ Hperm) in Hcs.
  rewrite <- (check_claim_other _ _ _ Ht Ha). by apply Hcs.
Qed.

Lemma string_requirement_Ok jwt key s :
  assert_claim_eq jwt key (claim_of_string s) = Ok tt
  ↔ payload_claims jwt !! key = Some (Claim (Str s)).
Proof.
  split.
  - intros Hok. destruct (assert_claim_eq_Ok_present _ _ _ Hok) as ([jv] & Hk & Hty).
    destruct jv; try done. unfold claim_of_string in Hok.
    rewrite (assert_claim_eq_string _ _ _ _ Hk) in Hok.
    destruct (String.eqb_spec s s0) as [->|]; done.
  - intros Hk. unfold claim_of_string. rewrite (assert_claim_eq_string _ _ _ _ Hk).
    by rewrite String.eqb_refl.
Qed.

(** X11: a required string claim (as [with_issuer], [with_subject],
    [with_id] and [with_claim] with a string register it) is met exactly by
    a token that stores that very string under the name.  A missing claim,
    a claim of another type and a different string each have their own
    message.  A verifier that accepts a token has found every required
    string in it. *)
Theorem X11_required_strings_must_be_equal (jwt : decoded_jwt) (key s : string) :
  (assert_claim_eq jwt key (claim_of_string s) = Ok tt
   ↔ payload_claims jwt !! key = Some (Claim (Str s)))
  ∧ (payload_claims jwt !! key = None →
     assert_claim_eq jwt key (claim_of_string s)
     = Err (token_verification ("decoded_jwt is missing " +:+ key +:+ " claim")))
  ∧ (∀ jc, payload_claims jwt !! key = Some jc → get_type jc ≠ type_string →
           assert_claim_eq jwt key (claim_of_string s)
           = Err (token_verification ("claim " +:+ key +:+ " type mismatch")))
  ∧ (∀ s', payload_claims jwt !! key = Some (Claim (Str s')) → s' ≠ s →
           assert_claim_eq jwt key (claim_of_string s)
           = Err (token_verification ("claim " +:+ key +:+ " does not match expected")))
  ∧ (∀ v time,
        (∀ m, iteration m ≡ₚ map_to_list m) →
        ¬ time_name key → key ≠ "aud" →
        claims v !! key = Some (claim_of_string s) →
        verifier_verify v time jwt = Ok tt →
        payload_claims jwt !! key = Some (Claim (Str s)))
  ∧ (∀ v time,
        (∀ m, iteration m ≡ₚ map_to_list m) →
        (verifier_verify (with_issuer s v) time jwt = Ok tt → get_issuer jwt = Ok s)
        ∧ (verifier_verify (with_subject s v) time jwt = Ok tt → get_subject jwt = Ok s)
        ∧ (verifier_verify (with_id s v) time jwt = Ok tt → get_id jwt = Ok s)).
Proof.
  assert (∀ v time key',
             (∀ m, iteration m ≡ₚ map_to_list m) →
             ¬ time_name key' → key' ≠ "aud" →
             claims v !! key' = Some (claim_of_string s) →
             verifier_verify v time jwt = Ok tt →
             payload_claims jwt !! key' = Some (Claim (Str s))) as Hverify.
  { intros v time key' Hperm Ht Ha Hc Hok. apply string_requirement_Ok.
    by eapply verifier_verify_required. }
  split_and!.
  - apply string_requirement_Ok.
  - apply assert_claim_eq_missing.
  - intros jc Hk Hty. by apply (assert_claim_eq_type_mismatch _ _ _ _ Hk).
  - intros s' Hk Hne. unfold claim_of_string.
    rewrite (assert_claim_eq_string _ _ _ _ Hk).
    destruct (String.eqb_spec s s') as [->|]; done.
  - intros v time. apply Hverify.
  - intros v time Hperm. split_and!; intros Hok.
    + unfold get_issuer.
      rewrite (get_payload_claim_Some jwt "iss" (Claim (Str s))); [done|].
      apply (Hverify (with_issuer s v) time "iss"); [done| |done| |done].
      * by intros [?|[?|?]].
      * unfold with_issuer, with_claim. cbn [claims]. apply lookup_insert_eq.
    + unfold get_subject.
      rewrite (get_payload_claim_Some jwt "sub" (Claim (Str s))); [done|].
      apply (Hverify (with_subject s v) time "sub"); [done| |done| |done].
      * by intros [?|[?|?]].
      * unfold with_subject, with_claim. cbn [claims]. apply lookup_insert_eq.
    + unfold get_id.
      rewrite (get_payload_claim_Some jwt "jti" (Claim (Str s))); [done|].
      apply (Hverify (with_id s v) time "jti"); [done| |done| |done].
      * by intros [?|[?|?]].
      * unfold with_id, with_claim. cbn [claims]. apply lookup_insert_eq.
Qed.






Lemma compare_sets_refl key (l : list string) : compare_sets key l l = Ok tt.
Proof. induction l as [|x l IH]; simpl; [done|]. by rewrite String.eqb_refl. Qed.

Lemma compare_sets_Ok_eq key (l1 l2 : list string) :
  length l1 = length l2 → compare_sets key l1 l2 = Ok tt → l1 = l2.
Proof.
  revert l2. induction l1 as [|x1 l1 IH]; intros [|x2 l2] Hlen; try done.
  cbn -[String.append]. destruct (String.eqb_spec x1 x2) as [->|]; [|done].
  cbn [negb]. intros Hok. f_equal. apply IH; [|done]. simpl in Hlen. lia.
Qed.

Lemma length_set_iteration (s : gset string) :
  length (set_iteration s) = stdpp.base.size s.
Proof. unfold set_iteration. by rewrite merge_sort_Permutation. Qed.

Lemma set_iteration_inj (s1 s2 : gset string) :
  set_iteration s1 = set_iteration s2 → s1 = s2.
Proof.
  intros Heq. apply set_eq. intros x.
  by rewrite <- !elem_of_set_iteration, Heq.
Qed.

Lemma as_set_strings (l : list string) :
  as_set (Claim (Array (Str <$> l))) = Ok (list_to_set l).
Proof.
  unfold as_set. cbn [as_array to_json mbind result_bind].
  by rewrite as_set_loop_strings, union_empty_r_L.
Qed.

Lemma assert_claim_eq_set jwt key (s : gset string) (l : list string) :
  payload_claims jwt !! key = Some (Claim (Array (Str <$> l))) →
  assert_claim_eq jwt key (claim_of_set s)
  = if bool_decide (list_to_set l = s) then Ok tt
    else Err (token_verification ("claim " +:+ key +:+ " does not match expected")).
Proof.
  intros Hk. rewrite (assert_claim_eq_present _ _ _ _ Hk).
  rewrite as_set_claim_of_set, as_set_strings.
  cbn -[String.append set_iteration stdpp.base.size].
  rewrite (bool_decide_eq_true_2 (type_array = type_array)) by done.
  rewrite (bool_decide_eq_false_2 (type_array = type_int64)) by done.
  cbn [negb].
  case_bool_decide as Heq.
  - subst s. by rewrite Nat.eqb_refl, compare_sets_refl.
  - destruct (Nat.eqb_spec (stdpp.base.size s) (stdpp.base.size (list_to_set l : gset string)))
      as [Hsz|]; [|done].
    cbn [negb].
    destruct (compare_sets_cases key (set_iteration s) (set_iteration (list_to_set l)))
      as [Hok|Herr]; [|done].
    apply compare_sets_Ok_eq in Hok; [|by rewrite !length_set_iteration].
    by apply set_iteration_inj in Hok.
Qed.

(** X13: a required array claim (a set of strings given to [with_claim])
    is compared with the token's array as a set: it is met exactly when the
    token's claim is an array of strings with the same elements, in whatever
    order and with whatever repetitions.  A token array that holds anything
    but strings makes the check throw [std::bad_cast], not a verification
    error. *)
Theorem X13_required_arrays_are_compared_as_sets
    (jwt : decoded_jwt) (key : string) (s : gset string) :
  (assert_claim_eq jwt key (claim_of_set s) = Ok tt
   ↔ ∃ l, payload_claims jwt !! key = Some (Claim (Array (Str <$> l)))
          ∧ list_to_set l = s)
  ∧ (∀ l, payload_claims jwt !! key = Some (Claim (Array (Str <$> l))) →
          list_to_set l ≠ s →
          assert_claim_eq jwt key (claim_of_set s)
          = Err (token_verification ("claim " +:+ key +:+ " does not match expected")))
  ∧ (∀ a, payload_claims jwt !! key = Some (Claim (Array a)) →
          (∃ x, x ∈ a ∧ ∀ s', x ≠ Str s') →
          assert_claim_eq jwt key (claim_of_set s) = Err bad_cast)
  ∧ (∀ x, payload_claims jwt !! key = Some (Claim (Str x)) →
          assert_claim_eq jwt key (claim_of_set s)
          = Err (token_verification ("claim " +:+ key +:+ " type mismatch"))).
Proof.
  split_and!.
  - split.
    + intros Hok. destruct (assert_claim_eq_Ok_present _ _ _ Hok) as ([jv] & Hk & Hty).
      destruct jv as [| | | | |a|]; try done.
      pose proof Hok as Hok'.
      rewrite (assert_claim_eq_present _ _ _ _ Hk) in Hok'.
      cbn -[String.append set_iteration stdpp.base.size as_set] in Hok'.
      rewrite as_set_claim_of_set in Hok'.
      destruct (as_set (Claim (Array a))) as [s2|] eqn:Hs2; [|done].
      apply as_set_Ok_inv in Hs2 as (l & [= ->] & ->).
      exists l. split; [done|].
      rewrite (assert_claim_eq_set _ _ _ _ Hk) in Hok.
      destruct (decide (list_to_set l = s)) as [|Hne]; [done|].
      by rewrite bool_decide_eq_false_2 in Hok.
    + intros (l & Hk & Heq). rewrite (assert_claim_eq_set _ _ _ _ Hk).
      by rewrite bool_decide_eq_true_2.
  - intros l Hk Hne. rewrite (assert_claim_eq_set _ _ _ _ Hk).
    by rewrite bool_decide_eq_false_2.
  - intros a Hk Hbad. rewrite (assert_claim_eq_present _ _ _ _ Hk).
    cbn -[String.append set_iteration stdpp.base.size as_set].
    rewrite as_set_claim_of_set. unfold as_set.
    cbn [as_array to_json mbind result_bind].
    by rewrite (as_set_loop_not_string _ _ Hbad).
  - intros x Hk. by apply (assert_claim_eq_type_mismatch _ _ _ _ Hk).
Qed.

(** X14: only integers, arrays and strings can be required.  A required
    claim that is a boolean, a double, null or an object is met by no
    token: when the token holds a claim of the same type the check ends in
    the "internal error" branch, and a verifier that holds such a
    requirement accepts nothing. *)
Theorem X14_other_requirements_are_never_met
    (jwt : decoded_jwt) (key : string) (c : claim) :
  get_type c ≠ type_int64 → get_type c ≠ type_array → get_type c ≠ type_string →
  assert_claim_eq jwt key c ≠ Ok tt
  ∧ (∀ jc, payload_claims jwt !! key = Some jc → get_type jc = get_type c →
           assert_claim_eq jwt key c = Err (token_verification "internal error"))
  ∧ (∀ v time,
        (∀ m, iteration m ≡ₚ map_to_list m) →
        ¬ time_name key → key ≠ "aud" →
        claims v !! key = Some c →
        verifier_verify v time jwt ≠ Ok tt).
Proof.
  intros Hi Ha Hs.
  assert (∀ jc, payload_claims jwt !! key = Some jc → get_type jc = get_type c →
                assert_claim_eq jwt key c = Err (token_verification "internal error"))
    as Hinternal.
  { intros jc Hk Hty. rewrite (assert_claim_eq_present _ _ _ _ Hk).
    rewrite bool_decide_eq_true_2 by done. cbn [negb].
    by rewrite !bool_decide_eq_false_2 by done. }
  assert (assert_claim_eq jwt key c ≠ Ok tt) as Hnever.
  { intros Hok. destruct (assert_claim_eq_Ok_present _ _ _ Hok) as (jc & Hk & Hty).
    by rewrite (Hinternal _ Hk Hty) in Hok. }
  split_and!; [done|done|].
  intros v time Hperm Ht Hau Hc Hok. apply Hnever.
  by eapply verifier_verify_required.
Qed.
End requirement_facts.

(** ** Registered algorithms *)

Section registry_facts.
Context {Clock : SystemClock} {Buckets : UnorderedMap}.
Context {T : Type} {Alg : Algorithm T}.

Lemma verifier_verify_ext v v' time jwt :
  claims v = claims v' → default_leeway v = default_leeway v' →
  (∀ alg, get_algorithm jwt = Ok alg → algs v !! alg = algs v' !! alg) →
  verifier_verify v time jwt = verifier_verify v' time jwt.
Proof.
  intros Hc Hd Ha. unfold verifier_verify.
  destruct (get_algorithm jwt) as [alg|] eqn:Halg; [|done].
  cbn [mbind result_bind]. rewrite (Ha alg eq_refl), Hc.
  rewrite (check_expires_at_ext v v'), (check_issued_at_ext v v'),
    (check_not_before_ext v v') by by rewrite ?Hc.
  done.
Qed.

(** X15: [allow_algorithm] files the algorithm under its name and touches
    nothing else.  A token whose header names it is checked by that
    algorithm's [verify]; a token that names another algorithm is verified
    as before.  Registering a second algorithm of the same name, of
    whatever type, replaces the first, and algorithms of different names
    can be registered in either order. *)
Theorem X15_allow_algorithm_registers_by_name (alg : T) (v : verifier)
    (time : time_point) (jwt : decoded_jwt) :
  claims (allow_algorithm alg v) = claims v
  ∧ default_leeway (allow_algorithm alg v) = default_leeway v
  ∧ (get_algorithm jwt = Ok (name alg) →
     verifier_verify (allow_algorithm alg v) time jwt
     = (_ ← verify alg (signing_input jwt) (signature jwt);
        _ ← check_expires_at v time jwt;
        _ ← check_issued_at v time jwt;
        _ ← check_not_before v time jwt;
        check_claims jwt (iteration (claims v))))
  ∧ (∀ n, get_algorithm jwt = Ok n → n ≠ name alg →
          verifier_verify (allow_algorithm alg v) time jwt = verifier_verify v time jwt)
  ∧ (∀ (T' : Type) (Alg' : Algorithm T') (alg' : T'),
        name alg' = name alg →
        allow_algorithm alg (allow_algorithm alg' v) = allow_algorithm alg v)
  ∧ (∀ (T' : Type) (Alg' : Algorithm T') (alg' : T'),
        name alg' ≠ name alg →
        allow_algorithm alg (allow_algorithm alg' v)
        = allow_algorithm alg' (allow_algorithm alg v)).
Proof.
  split_and!; try done.
  - intros Halg. unfold verifier_verify. rewrite Halg. cbn [mbind result_bind].
    unfold allow_algorithm at 1. cbn [algs]. by rewrite lookup_insert_eq.
  - intros n Halg Hne. apply verifier_verify_ext; try done.
    intros n' Hn'. assert (n' = n) as -> by congruence.
    unfold allow_algorithm. cbn [algs]. by rewrite lookup_insert_ne.
  - intros T' Alg' alg' Hname. unfold allow_algorithm. cbn [algs claims default_leeway].
    by rewrite Hname, insert_insert_eq.
  - intros T' Alg' alg' Hname. unfold allow_algorithm. cbn [algs claims default_leeway].
    by rewrite insert_insert_ne.
Qed.
End registry_facts.

Section iteration_facts.
Context {Clock : SystemClock}.

(** X16: whether [verify] accepts a token does not depend on the order in
    which the [unordered_map] of required claims is visited.  The order can
    only change which error is reported: a failure is either the same under
    both orders or each order reports the failure of some required claim. *)
Theorem X16_acceptance_is_independent_of_iteration_order
    (B1 B2 : UnorderedMap) (v : verifier) (time : time_point) (jwt : decoded_jwt) :
  (∀ m, @iteration B1 m ≡ₚ map_to_list m) →
  (∀ m, @iteration B2 m ≡ₚ map_to_list m) →
  (@verifier_verify Clock B1 v time jwt = Ok tt
   ↔ @verifier_verify Clock B2 v time jwt = Ok tt)
  ∧ (∀ e1, @verifier_verify Clock B1 v time jwt = Err e1 →
       @verifier_verify Clock B2 v time jwt = Err e1
       ∨ ∃ k1 c1 k2 c2 e2,
           claims v !! k1 = Some c1 ∧ check_claim jwt (k1, c1) = Err e1
           ∧ claims v !! k2 = Some c2 ∧ check_claim jwt (k2, c2) = Err e2
           ∧ @verifier_verify Clock B2 v time jwt = Err e2).
Proof.
  intros H1 H2.
  assert (@check_claims Clock jwt (@iteration B1 (claims v)) = Ok tt
          ↔ @check_claims Clock jwt (@iteration B2 (claims v)) = Ok tt) as Hloops.
  { by rewrite (@check_claims_iteration_Ok Clock B1 _ _ H1),
      (@check_claims_iteration_Ok Clock B2 _ _ H2). }
  split.
  - rewrite (@verifier_verify_Ok_iff Clock B1), (@verifier_verify_Ok_iff Clock B2).
    unfold check_expires_at, check_issued_at, check_not_before in *. by rewrite Hloops.
  - intros e1. unfold verifier_verify.
    destruct (get_algorithm jwt) as [alg|]; [|by left]. cbn [mbind result_bind].
    destruct (algs v !! alg) as [a|]; [|by left].
    destruct (algo_verify a _ _) as [[]|]; [|by left]. cbn [mbind result_bind].
    destruct (check_expires_at v time jwt) as [[]|]; [|by left]. cbn [mbind result_bind].
    destruct (check_issued_at v time jwt) as [[]|]; [|by left]. cbn [mbind result_bind].
    destruct (check_not_before v time jwt) as [[]|]; [|by left]. cbn [mbind result_bind].
    intros Herr. right.
    destruct (@check_claims Clock jwt (@iteration B2 (claims v))) as [[]|e2] eqn:Hloop2.
    { assert (@check_claims Clock jwt (@iteration B1 (claims v)) = Ok tt) as Hl1
        by by apply Hloops.
      by rewrite Hl1 in Herr. }
    apply check_claims_Err in Herr as ([k1 c1] & Hin1 & Hc1).
    rewrite H1 in Hin1. apply elem_of_map_to_list in Hin1.
    apply check_claims_Err in Hloop2 as ([k2 c2] & Hin2 & Hc2).
    rewrite H2 in Hin2. apply elem_of_map_to_list in Hin2.
    by exists k1, c1, k2, c2, e2.
Qed.
End iteration_facts.

Section none_facts.
Context {Clock : SystemClock} {Buckets : UnorderedMap}.
Context {B64 : Base64Url} {Json : PicoJson}.

(** X17: the "none" algorithm signs with the empty string and accepts
    the empty signature only.  A verifier that allows it refuses, with the
    signature error, a token that names "none" and carries any signature
    bytes; a builder that signs with it returns header and payload followed
    by a dot and the encoding of the empty string. *)
Theorem X17_none_accepts_the_empty_signature_only (a : none) (data sig : string) :
  name a = "none"
  ∧ sign a data = Ok ""
  ∧ (verify a data sig = Ok tt ↔ sig = "")
  ∧ (sig ≠ "" → verify a data sig = Err signature_verification_failed)
  ∧ verify a data (none_sign a data) = Ok tt
  ∧ (∀ v time jwt,
        get_algorithm jwt = Ok "none" → signature jwt ≠ "" →
        verifier_verify (allow_algorithm a v) time jwt
        = Err signature_verification_failed)
  ∧ (∀ b, ∃ input, builder_sign a b = Ok (input +:+ "." +:+ encode "")).
Proof.
  assert (∀ d s, s ≠ "" → none_verify a d s = Err signature_verification_failed)
    as Hrefuse.
  { intros d s Hs. unfold none_verify. destruct s; done. }
  split_and!; try done.
  - split.
    + intros Hok. destruct (decide (sig = "")) as [|Hne]; [done|].
      cbn [verify Algorithm_none] in Hok. by rewrite (Hrefuse _ _ Hne) in Hok.
    + by intros ->.
  - apply Hrefuse.
  - intros v time jwt Halg Hsig. unfold verifier_verify. rewrite Halg.
    cbn [mbind result_bind]. unfold allow_algorithm. cbn [algs name Algorithm_none none_name].
    rewrite lookup_insert_eq. cbn [algo algo_verify verify Algorithm_none].
    by rewrite (Hrefuse _ _ Hsig).
  - intros b. eexists. reflexivity.
Qed.
End none_facts.

(** ** Sign, decode, verify *)

Section round_trip_facts.
Context {Clock : SystemClock} {Buckets : UnorderedMap}.
Context {B64 : Base64Url} {Json : PicoJson} {Tls : MbedTls}.
#[local] Open Scope nat_scope.

Lemma hmacsha_verify_cases (a : hmacsha) (data sig : string) :
  hmacsha_verify a data sig
  = if decide (sig = hmacsha_sign a data) then Ok tt
    else Err signature_verification_failed.
Proof.
  destruct (decide (sig = hmacsha_sign a data)) as [Heq|Hne].
  { by apply hmacsha_verify_Ok. }
  destruct (hmacsha_verify a data sig) as [[]|e] eqn:Hv.
  { by apply hmacsha_verify_Ok in Hv. }
  revert Hv. unfold hmacsha_verify.
  destruct (hmacsha_verify_loop _ _ _ _ _) as [i matched].
  destruct (negb (if negb _ then false else matched)); [|done].
  by intros [= <-].
Qed.

Lemma iteration_empty :
  (∀ m, iteration m ≡ₚ map_to_list m) → iteration ∅ = [].
Proof.
  intros Hperm. apply Permutation_nil_r. by rewrite Hperm, map_to_list_empty.
Qed.

(** X18: a token signed with an HMAC key is accepted by the verifier that
    allows the same algorithm and key, at any time when the builder set no
    time claim; a verifier that also requires the issuer the builder set
    accepts it as well.  A verifier holding the same algorithm name with a
    key whose digest differs refuses the signature, and one holding another
    algorithm name reports a wrong algorithm.  The codecs are taken to
    invert each other on the three texts at hand, as a real base64url and
    JSON codec do. *)
Theorem X18_hmac_tokens_verify_under_their_key (a : hmacsha) (b : builder)
    (time : time_point) :
  let header_claims' := <["alg" := claim_of_string (name a)]> (builder_header_claims b) in
  let header_json := serialize (Object (to_json <$> header_claims')) in
  let payload_json := serialize (Object (to_json <$> builder_payload_claims b)) in
  let signing_input := encode header_json +:+ "." +:+ encode payload_json in
  let sig := hmacsha_sign a signing_input in
  count_char "." (encode header_json) = 0 →
  count_char "." (encode payload_json) = 0 →
  base_decode (fix_padding (encode header_json)) = Ok header_json →
  base_decode (fix_padding (encode payload_json)) = Ok payload_json →
  base_decode (fix_padding (encode sig)) = Ok sig →
  picojson_parse header_json = (Object (to_json <$> header_claims'), "") →
  picojson_parse payload_json = (Object (to_json <$> builder_payload_claims b), "") →
  (∀ m, iteration m ≡ₚ map_to_list m) →
  builder_payload_claims b !! "exp" = None →
  builder_payload_claims b !! "iat" = None →
  builder_payload_claims b !! "nbf" = None →
  ∃ token jwt,
    builder_sign a b = Ok token
    ∧ decode token = Ok jwt
    ∧ verifier_verify (allow_algorithm a new_verifier) time jwt = Ok tt
    ∧ (∀ iss, builder_payload_claims b !! "iss" = Some (claim_of_string iss) →
              verifier_verify (with_issuer iss (allow_algorithm a new_verifier)) time jwt
              = Ok tt)
    ∧ (∀ a' : hmacsha,
          name a' = name a → hmacsha_sign a' signing_input ≠ sig →
          verifier_verify (allow_algorithm a' new_verifier) time jwt
          = Err signature_verification_failed)
    ∧ (∀ a' : hmacsha,
          name a' ≠ name a →
          verifier_verify (allow_algorithm a' new_verifier) time jwt
          = Err (token_verification "wrong algorithm")).
Proof.
  intros hc hj pj input sig Hh Hp Dh Dp Ds Ph Pp Hperm Hexp Hiat Hnbf.
  destruct (decode_builder_sign a b sig) as
    (tok & jwt & Hsign & Hdec & Hhc & Hpc & Halg & Hsg & Hin); try done.
  exists tok, jwt. rewrite <- Hpc in Hexp, Hiat, Hnbf.
  assert (∀ v, claims v = ∅ ∨ (∃ iss, claims v = {[ "iss" := claim_of_string iss ]}
                                ∧ payload_claims jwt !! "iss" = Some (claim_of_string iss)) →
               algs v !! name a = Some (algo a) →
               verifier_verify v time jwt = Ok tt) as Haccept.
  { intros v Hclaims Ha.
    rewrite (verifier_verify_after_signature v time jwt (name a) (algo a)); try done.
    - rewrite check_expires_at_absent, check_issued_at_absent, check_not_before_absent
        by done.
      cbn [mbind result_bind].
      destruct Hclaims as [->|(iss & -> & Hiss)]; [by rewrite iteration_empty|].
      apply (check_claims_iteration_Ok _ _ Hperm). intros k c Hk.
      apply lookup_singleton_Some in Hk as [<- <-].
      rewrite check_claim_other; [|by intros [?|[?|?]]|done].
      by apply string_requirement_Ok.
    - cbn [algo algo_verify verify Algorithm_hmacsha]. rewrite Hin, Hsg.
      by apply hmacsha_verify_Ok. }
  split_and!; try done.
  - apply Haccept; [by left|]. unfold allow_algorithm. cbn [algs]. apply lookup_insert_eq.
  - intros iss Hiss. apply Haccept.
    + right. exists iss. split; [|by rewrite Hpc].
      unfold with_issuer, with_claim, allow_algorithm. cbn [claims new_verifier].
      by rewrite insert_empty.
    + unfold with_issuer, with_claim, allow_algorithm. cbn [algs]. apply lookup_insert_eq.
  - intros a' Hname Hdiff.
    apply (verifier_verify_bad_signature _ _ _ (name a) (algo a')); [done| |].
    + unfold allow_algorithm. cbn [algs]. rewrite Hname. apply lookup_insert_eq.
    + cbn [algo algo_verify verify Algorithm_hmacsha]. rewrite Hin, Hsg.
      rewrite hmacsha_verify_cases. by rewrite decide_False.
  - intros a' Hname. apply (verifier_verify_unregistered _ _ _ (name a)); [done|].
    unfold allow_algorithm. cbn [algs new_verifier]. by rewrite lookup_insert_ne.
Qed.
End round_trip_facts.

(** ** ECDSA verification *)

Section ecdsa_more.
Context {Tls : MbedTls}.
#[local] Open Scope nat_scope.

Lemma read_binary_zero_prefix (buf : string) :
  mbedtls_mpi_read_binary (String "000" buf) = mbedtls_mpi_read_binary buf.
Proof. done. Qed.

Lemma raw2bn_reads (data : string) (n : nat) :
  raw2bn data n = mbedtls_mpi_read_binary (substr data 0 (Some n)).
Proof.
  unfold raw2bn. destruct (128 <=? at_byte data 0)%Z; [|done].
  apply read_binary_zero_prefix.
Qed.

Lemma half_size (n e : nat) : e ≤ 1 → (n + (n + e)) / 2 = n.
Proof. intros He. symmetry. apply (Nat.div_unique _ 2 n e); lia. Qed.

Lemma ecdsa_verify_halves (a : ecdsa) (data rb sb extra : string) :
  String.length rb = String.length sb → String.length extra ≤ 1 →
  ecdsa_verify a data (rb +:+ sb +:+ extra)
  = if (mbedtls_ecdsa_verify (grp (ecdsa_ctx a)) (generate_hash data (ecdsa_md_type a))
          (size (generate_hash data (ecdsa_md_type a)) * 8) (Q (ecdsa_ctx a))
          (mbedtls_mpi_read_binary rb) (mbedtls_mpi_read_binary sb) =? 0)%Z
    then Ok tt else Err (signature_verification_exception "Invalid signature").
Proof.
  intros Hlen Hextra. unfold ecdsa_verify. cbv zeta. rewrite !raw2bn_reads.
  unfold size at 2 3 4 5. rewrite !string_length_app, <- Hlen, half_size by done.
  unfold substr at 1 3. unfold substr. rewrite substring_app_l.
  unfold size. rewrite !string_length_app.
  rewrite <- (Nat.add_0_r (String.length rb)) at 2. rewrite substring_skip.
  replace (String.length rb + (String.length sb + String.length extra) - String.length rb)
    with (String.length (sb +:+ extra)) by (rewrite string_length_app; lia).
  rewrite substring_all, Hlen, substring_app_l.
  by destruct (_ =? 0)%Z.
Qed.

(** X19: [ecdsa::verify] cuts the signature into two halves of
    [size / 2] bytes, reads each as a big-endian integer and reports what
    [mbedtls_ecdsa_verify] says about that pair, with the message "Invalid
    signature" on refusal.  The zero byte that [raw2bn] puts before a
    buffer starting with a byte of 0x80 or more does not change the integer
    read.  The last byte of a signature of odd length is never read: such a
    signature is judged like the one without it.  And the signature that
    [ecdsa::sign] returns is judged as the pair (0, 0). *)
Theorem X19_ecdsa_verify_reads_two_halves (a : ecdsa) (data rb sb extra : string) :
  let hash := generate_hash data (ecdsa_md_type a) in
  let verdict (r s : Z) :=
    mbedtls_ecdsa_verify (grp (ecdsa_ctx a)) hash (size hash * 8) (Q (ecdsa_ctx a)) r s in
  String.length rb = String.length sb →
  String.length extra ≤ 1 →
  ecdsa_verify a data (rb +:+ sb +:+ extra)
  = (if (verdict (mbedtls_mpi_read_binary rb) (mbedtls_mpi_read_binary sb) =? 0)%Z
     then Ok tt else Err (signature_verification_exception "Invalid signature"))
  ∧ ecdsa_verify a data (rb +:+ sb +:+ extra) = ecdsa_verify a data (rb +:+ sb)
  ∧ (∀ buf n, raw2bn buf n = mbedtls_mpi_read_binary (substr buf 0 (Some n)))
  ∧ (∀ sig, (ecdsa_sign a data).1 = Ok sig →
            ecdsa_verify a data sig
            = if (verdict 0%Z 0%Z =? 0)%Z
              then Ok tt else Err (signature_verification_exception "Invalid signature")).
Proof.
  intros hash verdict Hlen Hextra. split_and!.
  - by apply ecdsa_verify_halves.
  - rewrite (ecdsa_verify_halves a data rb sb extra) by done.
    rewrite <- (string_app_empty_r sb) at 2.
    rewrite (ecdsa_verify_halves a data rb sb ""); [done|done|simpl; lia].
  - apply raw2bn_reads.
  - intros sig. unfold ecdsa_sign. cbv zeta.
    destruct (mbedtls_ecdsa_sign _ _ _ _ _) as [[[ret r] s] rnd'].
    cbn [fst]. destruct (negb (ret =? 0)%Z); [done|].
    cbn -[ecdsa_verify]. intros [= <-].
    apply (ecdsa_verify_halves a data "" "" ""); simpl; lia.
Qed.
End ecdsa_more.

(** ** Time checks, again *)

Section time_facts.
Context {Clock : SystemClock} {Buckets : UnorderedMap}.

Lemma check_expires_at_Ok_iff v time jwt :
  check_expires_at v time jwt = Ok tt
  ↔ has_expires_at jwt = false
    ∨ ∃ l exp, has_expires_at jwt = true ∧ claimed_leeway v "exp" = Ok l
               ∧ get_expires_at jwt = Ok exp
               ∧ time ≤ time_point_plus exp (seconds (to_int64 l)).
Proof.
  unfold check_expires_at. destruct (has_expires_at jwt); [|naive_solver].
  destruct (claimed_leeway v "exp") as [l|]; [|naive_solver].
  destruct (get_expires_at jwt) as [exp|]; [|naive_solver].
  cbn [mbind result_bind].
  destruct (Z.gtb_spec time (time_point_plus exp (seconds (to_int64 l))));
    [|naive_solver].
  split; [done|]. intros [?|(? & ? & _ & [= <-] & [= <-] & ?)]; [done|lia].
Qed.

Lemma check_issued_at_Ok_iff v time jwt :
  check_issued_at v time jwt = Ok tt
  ↔ has_issued_at jwt = false
    ∨ ∃ l iat, has_issued_at jwt = true ∧ claimed_leeway v "iat" = Ok l
               ∧ get_issued_at jwt = Ok iat
               ∧ time_point_minus iat (seconds (to_int64 l)) ≤ time.
Proof.
  unfold check_issued_at. destruct (has_issued_at jwt); [|naive_solver].
  destruct (claimed_leeway v "iat") as [l|]; [|naive_solver].
  destruct (get_issued_at jwt) as [iat|]; [|naive_solver].
  cbn [mbind result_bind].
  destruct (Z.ltb_spec time (time_point_minus iat (seconds (to_int64 l))));
    [|naive_solver].
  split; [done|]. intros [?|(? & ? & _ & [= <-] & [= <-] & ?)]; [done|lia].
Qed.

Lemma check_not_before_Ok_iff v time jwt :
  check_not_before v time jwt = Ok tt
  ↔ has_not_before jwt = false
    ∨ ∃ l nbf, has_not_before jwt = true ∧ claimed_leeway v "nbf" = Ok l
               ∧ get_not_before jwt = Ok nbf
               ∧ time_point_minus nbf (seconds (to_int64 l)) ≤ time.
Proof.
  unfold check_not_before. destruct (has_not_before jwt); [|naive_solver].
  destruct (claimed_leeway v "nbf") as [l|]; [|naive_solver].
  destruct (get_not_before jwt) as [nbf|]; [|naive_solver].
  cbn [mbind result_bind].
  destruct (Z.ltb_spec time (time_point_minus nbf (seconds (to_int64 l))));
    [|naive_solver].
  split; [done|]. intros [?|(? & ? & _ & [= <-] & [= <-] & ?)]; [done|lia].
Qed.

Lemma claimed_leeway_leeway v name l :
  claimed_leeway (leeway l v) name
  = match claims v !! name with
    | Some _ => claimed_leeway v name
    | None => Ok l
    end.
Proof.
  unfold claimed_leeway, leeway. cbn [claims default_leeway].
  by destruct (claims v !! name).
Qed.

Lemma get_date_Ok jwt name (d : date) :
  (c ← get_payload_claim jwt name; as_date c) = Ok d →
  ∃ e, payload_claims jwt !! name = Some (Claim (Int64 e)) ∧ d = from_time_t e.
Proof.
  rewrite get_payload_claim_cases.
  destruct (payload_claims jwt !! name) as [[jv]|]; [|done].
  cbn [mbind result_bind]. unfold as_date, as_int. cbn [to_json].
  destruct jv as [| |e| | | |]; try done.
  cbn [mbind result_bind mret result_ret]. intros [= <-]. by exists e.
Qed.

(** X20: the times at which a verifier accepts a token form an interval:
    a token accepted at two times is accepted at every time between them.
    A larger default leeway accepts whatever a smaller one accepts, as long
    as the tick counts of the token's time claims under the larger leeway
    are representable, the clock having a positive number of ticks per
    second; the default leeway changes nothing but the three time
    checks. *)
Theorem X20_accepted_times_form_an_interval (v : verifier) (jwt : decoded_jwt)
    (time : time_point) :
  0 < period →
  (∀ t1 t2, t1 ≤ time ≤ t2 →
            verifier_verify v t1 jwt = Ok tt → verifier_verify v t2 jwt = Ok tt →
            verifier_verify v time jwt = Ok tt)
  ∧ (∀ l l', 0 ≤ l ≤ l' →
             (∀ name e, time_name name →
                        payload_claims jwt !! name = Some (Claim (Int64 e)) →
                        ticks_fit e l') →
             verifier_verify (leeway l v) time jwt = Ok tt →
             verifier_verify (leeway l' v) time jwt = Ok tt)
  ∧ (∀ l, claims (leeway l v) = claims v ∧ algs (leeway l v) = algs v
          ∧ default_leeway (leeway l v) = l)
  ∧ (∀ l, payload_claims jwt !! "exp" = None → payload_claims jwt !! "iat" = None →
          payload_claims jwt !! "nbf" = None →
          verifier_verify (leeway l v) time jwt = verifier_verify v time jwt).
Proof.
  intros Hp. split_and!.
  - intros t1 t2 Ht H1 H2.
    apply verifier_verify_Ok_iff in H1 as (Hsig & He1 & Hi1 & Hn1 & Hc).
    apply verifier_verify_Ok_iff in H2 as (_ & He2 & Hi2 & Hn2 & _).
    apply verifier_verify_Ok_iff. split_and!; try done.
    + apply check_expires_at_Ok_iff.
      apply check_expires_at_Ok_iff in He2 as [?|(l & exp & ? & ? & ? & ?)]; [by left|].
      right. exists l, exp. split_and!; try done. lia.
    + apply check_issued_at_Ok_iff.
      apply check_issued_at_Ok_iff in Hi1 as [?|(l & iat & ? & ? & ? & ?)]; [by left|].
      right. exists l, iat. split_and!; try done. lia.
    + apply check_not_before_Ok_iff.
      apply check_not_before_Ok_iff in Hn1 as [?|(l & nbf & ? & ? & ? & ?)]; [by left|].
      right. exists l, nbf. split_and!; try done. lia.
  - intros l l' Hl Hfit Hok.
    assert (∀ name e, time_name name →
                      payload_claims jwt !! name = Some (Claim (Int64 e)) →
                      to_int64 l = l ∧ to_int64 l' = l'
                      ∧ time_point_plus (from_time_t e) (seconds l)
                        ≤ time_point_plus (from_time_t e) (seconds l')
                      ∧ time_point_minus (from_time_t e) (seconds l')
                        ≤ time_point_minus (from_time_t e) (seconds l)) as Hwiden.
    { intros name e Hname He. pose proof (Hfit name e Hname He) as Hf'.
      pose proof (ticks_fit_le e l l' Hp Hl Hf') as Hf.
      rewrite !to_int64_small by by eapply ticks_fit_leeway.
      rewrite !ticks_fit_plus, !ticks_fit_minus by done. split_and!; try done; nia. }
    apply verifier_verify_Ok_iff in Hok as (Hsig & He & Hi & Hn & Hc).
    apply verifier_verify_Ok_iff. split_and!; try done.
    + apply check_expires_at_Ok_iff.
      apply check_expires_at_Ok_iff in He as [?|(x & exp & ? & Hx & Hget & ?)]; [by left|].
      right. rewrite claimed_leeway_leeway in Hx. rewrite claimed_leeway_leeway.
      destruct (claims v !! "exp").
      * exists x, exp. by split_and!.
      * injection Hx as <-. exists l', exp. split_and!; try done.
        apply get_date_Ok in Hget as (e & Hk & ->).
        destruct (Hwiden "exp" e) as (Hl1 & Hl2 & Hplus & _); [by left|done|].
        rewrite Hl1 in *. rewrite Hl2. lia.
    + apply check_issued_at_Ok_iff.
      apply check_issued_at_Ok_iff in Hi as [?|(x & iat & ? & Hx & Hget & ?)]; [by left|].
      right. rewrite claimed_leeway_leeway in Hx. rewrite claimed_leeway_leeway.
      destruct (claims v !! "iat").
      * exists x, iat. by split_and!.
      * injection Hx as <-. exists l', iat. split_and!; try done.
        apply get_date_Ok in Hget as (e & Hk & ->).
        destruct (Hwiden "iat" e) as (Hl1 & Hl2 & _ & Hminus); [right; by left|done|].
        rewrite Hl1 in *. rewrite Hl2. lia.
    + apply check_not_before_Ok_iff.
      apply check_not_before_Ok_iff in Hn as [?|(x & nbf & ? & Hx & Hget & ?)]; [by left|].
      right. rewrite claimed_leeway_leeway in Hx. rewrite claimed_leeway_leeway.
      destruct (claims v !! "nbf").
      * exists x, nbf. by split_and!.
      * injection Hx as <-. exists l', nbf. split_and!; try done.
        apply get_date_Ok in Hget as (e & Hk & ->).
        destruct (Hwiden "nbf" e) as (Hl1 & Hl2 & _ & Hminus); [right; by right|done|].
        rewrite Hl1 in *. rewrite Hl2. lia.
  - done.
  - intros l Hexp Hiat Hnbf. unfold verifier_verify.
    by rewrite !check_expires_at_absent, !check_issued_at_absent,
      !check_not_before_absent by done.
Qed.
End time_facts.

(** ** [myrand] *)

Section myrand_facts.
Context {Rand : CRand}.
#[local] Open Scope nat_scope.

Lemma length_substring_le (n : nat) (s : string) :
  n ≤ String.length s → String.length (String.substring 0 n s) = n.
Proof.
  revert n. induction s as [|c s IH]; intros [|n] Hn; simpl in *; try done; [lia|].
  rewrite IH; [done|lia].
Qed.

Lemma myrand_loop_spec (n calls : nat) (output : string) (len : nat) :
  (∀ z, String.length (object_bytes z) = sizeof_int) →
  len ≤ n →
  ∃ written,
    myrand_loop n calls output len
    = (calls + (len + (sizeof_int - 1)) / sizeof_int, output +:+ written, 0)
    ∧ String.length written = len.
Proof.
  intros Hrep. revert calls output len.
  induction n as [|n IH]; intros calls output len Hn.
  { assert (len = 0) as -> by lia. exists "". simpl.
    by rewrite string_app_empty_r, Nat.add_0_r. }
  cbn [myrand_loop]. destruct (Nat.ltb_spec 0 len) as [Hpos|Hzero].
  - cbv zeta. unfold sizeof_int in *.
    destruct (Nat.ltb_spec 4 len) as [Hbig|Hsmall].
    + destruct (IH (S calls) (output +:+ substr (object_bytes (rand_values calls)) 0 (Some 4))
                  (len - 4)) as (w & -> & Hw); [lia|].
      exists (substr (object_bytes (rand_values calls)) 0 (Some 4) +:+ w).
      split.
      * rewrite string_app_assoc. do 2 f_equal.
        replace (len + (4 - 1)) with ((len - 4 + (4 - 1)) + 1 * 4) by lia.
        rewrite Nat.div_add by done. lia.
      * rewrite string_length_app, Hw. unfold substr.
        rewrite length_substring_le by (rewrite Hrep; lia). lia.
    + destruct (IH (S calls) (output +:+ substr (object_bytes (rand_values calls)) 0 (Some len))
                  (len - len)) as (w & -> & Hw); [lia|].
      rewrite Nat.sub_diag in Hw. destruct w; [|done].
      exists (substr (object_bytes (rand_values calls)) 0 (Some len)).
      split.
      * rewrite string_app_empty_r. do 2 f_equal.
        rewrite Nat.sub_diag.
        replace ((0 + (4 - 1)) / 4) with 0 by done.
        replace ((len + (4 - 1)) / 4) with 1; [lia|].
        apply (Nat.div_unique _ 4 1 (len - 1)); lia.
      * unfold substr. apply length_substring_le. rewrite Hrep. lia.
  - assert (len = 0) as -> by lia. exists "". simpl.
    by rewrite string_app_empty_r, Nat.add_0_r.
Qed.

(** X21: [myrand] always returns 0 and fills the whole buffer: it writes
    exactly [len] bytes, with one call of [rand()] for every four bytes or
    part of four, and the loop ends with nothing left to write.  A request
    of at most [sizeof(int)] bytes gets the leading bytes of one random
    integer. *)
Theorem X21_myrand_fills_the_buffer (calls len : nat) :
  (∀ z, String.length (object_bytes z) = sizeof_int) →
  (∃ output,
      myrand calls len = (0%Z, output, calls + (len + 3) / 4)
      ∧ String.length output = len)
  ∧ (myrand_loop len calls "" len).2 = 0
  ∧ (0 < len ≤ sizeof_int →
     myrand calls len
     = (0%Z, substr (object_bytes (rand_values calls)) 0 (Some len), S calls))
  ∧ myrand calls 0 = (0%Z, "", calls).
Proof.
  intros Hrep.
  destruct (myrand_loop_spec len calls "" len Hrep) as (w & Hloop & Hw); [done|].
  split_and!.
  - exists w. unfold myrand. rewrite Hloop. done.
  - by rewrite Hloop.
  - intros Hlen. unfold myrand. destruct len as [|len]; [lia|].
    cbn [myrand_loop]. cbv zeta. unfold sizeof_int in *.
    destruct (Nat.ltb_spec 0 (S len)) as [_|]; [|lia].
    destruct (Nat.ltb_spec 4 (S len)) as [|_]; [lia|].
    rewrite Nat.sub_diag. by destruct len.
  - done.
Qed.
End myrand_facts.

(** ** Further examples, over the reference collaborators *)

Section further_examples.
Import Reference.
#[local] Existing Instance nanosecond_clock.
#[local] Existing Instance key_order.
#[local] Existing Instance base64url.
#[local] Existing Instance picojson.
#[local] Existing Instance plain_tls.

(** X3 at a nanosecond clock: a date 100 s and 5 ns after the epoch comes
    back from its claim as 100 s. *)
Lemma X3_witness :
  as_string (claim_of_string "auth0") = Ok "auth0"
  ∧ as_date (claim_of_date (from_time_t 100 + 5)) = Ok (from_time_t 100).
Proof.
  destruct (@X3_claim_constructors_round_trip nanosecond_clock eq_refl)
    as (Hstring & _ & _ & Hdate & _).
  split; [apply Hstring|].
  destruct (Hdate (from_time_t 100 + 5)) as (Hwhole & _); [|exact Hwhole].
  vm_compute. split; [discriminate|reflexivity].
Defined.

(** X6 on the unsigned token with header [{"alg":"none"}] and payload
    [{"exp":100}]. *)
Lemma X6_witness :
  ∃ jwt,
    decode "eyJhbGciOiJub25lIn0.eyJleHAiOjEwMH0." = Ok jwt
    ∧ token jwt = "eyJhbGciOiJub25lIn0.eyJleHAiOjEwMH0."
    ∧ "eyJhbGciOiJub25lIn0.eyJleHAiOjEwMH0."
      = header_base64 jwt +:+ "." +:+ payload_base64 jwt +:+ "." +:+ signature_base64 jwt
    ∧ count_char "." (header_base64 jwt) = 0%nat
    ∧ count_char "." (payload_base64 jwt) = 0%nat.
Proof.
  eexists. split; [vm_compute; reflexivity|].
  edestruct (X6_raw_segments_reassemble_the_token "eyJhbGciOiJub25lIn0.eyJleHAiOjEwMH0.")
    as (Htoken & Hjoin & Hh & Hp & _); [vm_compute; reflexivity|].
  split_and!; [exact Htoken|exact Hjoin|exact Hh|exact Hp].
Defined.

(** X8 on the one-byte text "a", whose encoding is "YQ==". *)
Lemma X8_witness :
  encode "a" = "YQ" ∧ fix_padding (encode "a") = "YQ==".
Proof.
  destruct (X8_fix_padding_restores_what_encode_strips "a" "YQ" 2%nat)
    as (Hencode & Hpadded); [reflexivity|reflexivity|lia|reflexivity| |].
  - intros [|[|i]] Hi; [discriminate..|simpl in Hi; lia].
  - split; [exact Hencode|exact Hpadded].
Defined.


(** X13: the token array ["b","a","b"] meets the required set {a, b}. *)
Lemma X13_witness :
  assert_claim_eq
    (unsigned_jwt ∅ {[ "roles" := Claim (Array [Str "b"; Str "a"; Str "b"]) ]})
    "roles" (claim_of_set {[ "a"; "b" ]})
  = Ok tt.
Proof.
  destruct (X13_required_arrays_are_compared_as_sets
              (unsigned_jwt ∅ {[ "roles" := Claim (Array [Str "b"; Str "a"; Str "b"]) ]})
              "roles" {[ "a"; "b" ]}) as (Hiff & _).
  apply Hiff. exists ["b"; "a"; "b"]. split; [reflexivity|]. by vm_compute.
Defined.

(** X14: a required boolean is refused even by the token that holds it. *)
Lemma X14_witness :
  assert_claim_eq (unsigned_jwt ∅ {[ "admin" := Claim (Boolean true) ]})
    "admin" (Claim (Boolean true))
  = Err (token_verification "internal error").
Proof.
  destruct (X14_other_requirements_are_never_met
              (unsigned_jwt ∅ {[ "admin" := Claim (Boolean true) ]})
              "admin" (Claim (Boolean true))) as (_ & Hinternal & _);
    [discriminate..|].
  apply (Hinternal (Claim (Boolean true))); reflexivity.
Defined.

(** X16: a token that lacks both the required issuer and the required
    subject is refused under either order, with the error of the claim
    visited first. *)
Lemma X16_witness :
  (@verifier_verify _ key_order (with_issuer "a" (with_subject "b" none_verifier)) 0
     (unsigned_jwt (alg_header "none") ∅) = Ok tt
   ↔ @verifier_verify _ reverse_key_order (with_issuer "a" (with_subject "b" none_verifier)) 0
       (unsigned_jwt (alg_header "none") ∅) = Ok tt)
  ∧ @verifier_verify _ key_order (with_issuer "a" (with_subject "b" none_verifier)) 0
      (unsigned_jwt (alg_header "none") ∅)
    = Err (token_verification "decoded_jwt is missing sub claim")
  ∧ @verifier_verify _ reverse_key_order (with_issuer "a" (with_subject "b" none_verifier)) 0
      (unsigned_jwt (alg_header "none") ∅)
    = Err (token_verification "decoded_jwt is missing iss claim").
Proof.
  split; [|split; reflexivity].
  apply (X16_acceptance_is_independent_of_iteration_order key_order reverse_key_order).
  - intros m. reflexivity.
  - intros m. apply reverse_Permutation.
Defined.

(** X18 on the builder with a type and an issuer, signed with HS256 over
    the stand-in keyed digest. *)
Lemma X18_witness :
  ∃ token jwt,
    builder_sign (hs256 "secret") issuer_builder = Ok token
    ∧ decode token = Ok jwt
    ∧ verifier_verify (allow_algorithm (hs256 "secret") new_verifier) 0 jwt = Ok tt
    ∧ verifier_verify (with_issuer "auth0" (allow_algorithm (hs256 "secret") new_verifier))
        0 jwt = Ok tt
    ∧ verifier_verify (allow_algorithm (hs256 "other") new_verifier) 0 jwt
      = Err signature_verification_failed
    ∧ verifier_verify (allow_algorithm (hs384 "secret") new_verifier) 0 jwt
      = Err (token_verification "wrong algorithm").
Proof.
  destruct (X18_hmac_tokens_verify_under_their_key (hs256 "secret") issuer_builder 0)
    as (token & jwt & Hsign & Hdecode & Hok & Hissuer & Hkey & Hname);
    try (lazymatch goal with |- ex _ => fail | _ => vm_compute; reflexivity end).
  exists token, jwt. split_and!; try assumption.
  - apply Hissuer. reflexivity.
  - apply Hkey; [reflexivity|]. vm_compute. discriminate.
  - apply Hname. vm_compute. discriminate.
Defined.

(** X19 over the stand-in primitive, which accepts every pair: a
    signature of three bytes is judged like its first two. *)
Lemma X19_witness :
  ecdsa_verify es256_example "a.b" "abc" = Ok tt
  ∧ ecdsa_verify es256_example "a.b" "abc" = ecdsa_verify es256_example "a.b" "ab".
Proof.
  destruct (X19_ecdsa_verify_reads_two_halves es256_example "a.b" "a" "b" "c")
    as (Hverdict & Hsame & _); [reflexivity|simpl; lia|].
  split; [exact Hverdict|exact Hsame].
Defined.

(** X20: the unsigned token that expires at 100 s, accepted at the epoch
    and at 100 s, is accepted at 50 s; accepted at 150 s with a default
    leeway of 50 s, it is accepted with one of 60 s. *)
Lemma X20_witness :
  verifier_verify none_verifier (from_time_t 50)
    (unsigned_jwt (alg_header "none") {[ "exp" := Claim (Int64 100) ]}) = Ok tt
  ∧ verifier_verify (leeway 60 none_verifier) (from_time_t 150)
      (unsigned_jwt (alg_header "none") {[ "exp" := Claim (Int64 100) ]}) = Ok tt.
Proof.
  split.
  - destruct (@X20_accepted_times_form_an_interval nanosecond_clock key_order none_verifier
                (unsigned_jwt (alg_header "none") {[ "exp" := Claim (Int64 100) ]})
                (from_time_t 50) eq_refl) as (Hinterval & _).
    apply (Hinterval (from_time_t 0) (from_time_t 100)); [|reflexivity|reflexivity].
    vm_compute. split; discriminate.
  - destruct (@X20_accepted_times_form_an_interval nanosecond_clock key_order none_verifier
                (unsigned_jwt (alg_header "none") {[ "exp" := Claim (Int64 100) ]})
                (from_time_t 150) eq_refl) as (_ & Hwiden & _).
    apply (Hwiden 50 60); [lia| |reflexivity].
    intros name e _ He. unfold unsigned_jwt in He. cbn [payload_claims] in He.
    apply lookup_singleton_Some in He as [_ [= <-]].
    unfold ticks_fit, int64_range. simpl. lia.
Defined.

(** X21 over a generator that counts from 65: six bytes take two calls. *)
Lemma X21_witness :
  ∃ output,
    @myrand counting_rand 0 6 = (0, output, (0 + (6 + 3) / 4)%nat)
    ∧ String.length output = 6%nat.
Proof.
  apply (@X21_myrand_fills_the_buffer counting_rand 0 6).
  intros z. reflexivity.
Defined.
End further_examples.
